(** * The CCD storage driver: a shallow embedding and its properties

    The development follows [registry/storage/driver/ccd]: the driver
    ([ccd.go]) and its file writer.  Go values are modelled as follows.

    - [[]byte] is [list byte]; [string] is [string]; [int]/[int64] are [Z],
      wrapped by [wrap64] where the code adds to them.
    - A Go pointer field of a generated API type ([*string], [*Entry]) is an
      [option]; dereferencing [nil] is the outcome [Panic].
    - A Go [error] is a value of the inductive type [error]; a function
      returning [(T, error)] is a computation [M S T] over the state it
      works on, whose result is an [outcome T].
    - The local filesystem is an inode table, a directory and a table of open
      files; every system call consults a fault plan carried by the world,
      so any call may fail.
    - The remote service is reached through the generated client interface,
      here the class [v1.ClientWithResponsesInterface] over an abstract
      remote state.  The properties of the driver hold for every client;
      module [Mem] is one client, an entry store in memory, on which the
      driver is run.
    - Loops without a bound ([getEntries]) take a number of iterations and
      return [OutOfFuel] when it does not suffice.

    [New] is modelled up to the client it makes, which comes from the
    generated code.  The factory and [Reader] (which goes through
    [net/http] and not through the client) are not part of the development.

    The file has two parts: the definitions (the digest, the monad, the
    filesystem, the client API, [bufio], the writer and the driver, the
    reference remote, the vocabulary of the properties), then the lemmas
    and theorems. *)

From Stdlib Require Import ZArith Strings.Byte Ascii.
From stdpp Require Import gmap strings list fin_maps.

Open Scope Z_scope.

(** ** crypto/md5 and encoding/hex *)

Module MD5.

Definition mask32 (x : Z) : Z := Z.land x 4294967295.

Definition rotl32 (x : Z) (c : Z) : Z :=
  mask32 (Z.lor (Z.shiftl x c) (Z.shiftr x (32 - c))).

Definition not32 (x : Z) : Z := Z.lxor x 4294967295.

Definition shifts : list Z :=
  [7; 12; 17; 22; 7; 12; 17; 22; 7; 12; 17; 22; 7; 12; 17; 22;
   5; 9; 14; 20; 5; 9; 14; 20; 5; 9; 14; 20; 5; 9; 14; 20;
   4; 11; 16; 23; 4; 11; 16; 23; 4; 11; 16; 23; 4; 11; 16; 23;
   6; 10; 15; 21; 6; 10; 15; 21; 6; 10; 15; 21; 6; 10; 15; 21].

Definition sines : list Z :=
  [3614090360; 3905402710; 606105819; 3250441966;
   4118548399; 1200080426; 2821735955; 4249261313;
   1770035416; 2336552879; 4294925233; 2304563134;
   1804603682; 4254626195; 2792965006; 1236535329;
   4129170786; 3225465664; 643717713; 3921069994;
   3593408605; 38016083; 3634488961; 3889429448;
   568446438; 3275163606; 4107603335; 1163531501;
   2850285829; 4243563512; 1735328473; 2368359562;
   4294588738; 2272392833; 1839030562; 4259657740;
   2763975236; 1272893353; 4139469664; 3200236656;
   681279174; 3936430074; 3572445317; 76029189;
   3654602809; 3873151461; 530742520; 3299628645;
   4096336452; 1126891415; 2878612391; 4237533241;
   1700485571; 2399980690; 4293915773; 2240044497;
   1873313359; 4264355552; 2734768916; 1309151649;
   4149444226; 3174756917; 718787259; 3951481745].

Definition byteZ (b : byte) : Z := Z.of_N (Byte.to_N b).

Definition Zbyte (z : Z) : byte :=
  match Byte.of_N (Z.to_N (Z.land z 255)) with
  | Some b => b
  | None => x00
  end.

(** Little-endian encoding of the low [n] bytes of [z]. *)
Fixpoint le_bytes (n : nat) (z : Z) : list byte :=
  match n with
  | O => []
  | S n' => Zbyte z :: le_bytes n' (Z.shiftr z 8)
  end.

Fixpoint le_word (bs : list byte) : Z :=
  match bs with
  | [] => 0
  | b :: bs' => Z.lor (byteZ b) (Z.shiftl (le_word bs') 8)
  end.

(** Message padding: [0x80], zeros up to 56 modulo 64, the bit length. *)
Definition pad (msg : list byte) : list byte :=
  let len := Z.of_nat (length msg) in
  let zeros := Z.to_nat ((55 - len) mod 64) in
  msg ++ x80 :: replicate zeros x00 ++ le_bytes 8 (8 * len).

Fixpoint words (n : nat) (bs : list byte) : list Z :=
  match n with
  | O => []
  | S n' => le_word (take 4 bs) :: words n' (drop 4 bs)
  end.

Definition state : Type := Z * Z * Z * Z.

Definition round (m : list Z) (st : state) (i : nat) : state :=
  let '(a, b, c, d) := st in
  let iz := Z.of_nat i in
  let '(f, g) :=
    if iz <? 16 then (Z.lor (Z.land b c) (Z.land (not32 b) d), iz)
    else if iz <? 32 then (Z.lor (Z.land d b) (Z.land (not32 d) c), (5 * iz + 1) mod 16)
    else if iz <? 48 then (Z.lxor (Z.lxor b c) d, (3 * iz + 5) mod 16)
    else (Z.lxor c (Z.lor b (not32 d)), (7 * iz) mod 16) in
  let f' := mask32 (f + a + nth i sines 0 + nth (Z.to_nat g) m 0) in
  (d, mask32 (b + rotl32 f' (nth i shifts 0)), b, c).

Definition block (st : state) (chunk : list byte) : state :=
  let m := words 16 chunk in
  let '(a0, b0, c0, d0) := st in
  let '(a, b, c, d) := foldl (round m) st (seq 0 64) in
  (mask32 (a0 + a), mask32 (b0 + b), mask32 (c0 + c), mask32 (d0 + d)).

Fixpoint blocks (n : nat) (st : state) (bs : list byte) : state :=
  match n with
  | O => st
  | S n' => blocks n' (block st (take 64 bs)) (drop 64 bs)
  end.

Definition init : state := (1732584193, 4023233417, 2562383102, 271733878).

(** [md5.New(); h.Write(msg); h.Sum(nil)] *)
Definition sum (msg : list byte) : list byte :=
  let p := pad msg in
  let '(a, b, c, d) := blocks (length p / 64) init p in
  le_bytes 4 a ++ le_bytes 4 b ++ le_bytes 4 c ++ le_bytes 4 d.

End MD5.

Module Hex.

Definition digit (z : Z) : ascii :=
  if z <? 10 then ascii_of_nat (Z.to_nat (48 + z))
  else ascii_of_nat (Z.to_nat (87 + z)).

(** [hex.EncodeToString] *)
Fixpoint EncodeToString (bs : list byte) : string :=
  match bs with
  | [] => EmptyString
  | b :: bs' =>
      let z := MD5.byteZ b in
      String (digit (Z.shiftr z 4))
        (String (digit (Z.land z 15)) (EncodeToString bs'))
  end.

End Hex.

Definition md5_hex (content : list byte) : string :=
  Hex.EncodeToString (MD5.sum content).

(** ** Errors and outcomes *)

(** The Go [error] values the driver creates or lets through.  The
    constructors that stand for a [fmt.Errorf] keep its arguments instead of
    the formatted text. *)
Inductive error : Type :=
  | ErrorString (msg : string)
      (* errors.New(msg), fmt.Errorf(msg) *)
  | WrapError (prefix : string) (err : error)
      (* fmt.Errorf(prefix + ": %w", err) *)
  | PathNotFoundError (path : string)
      (* storagedriver.PathNotFoundError{Path: path} *)
  | UnexpectedError (reason : string)
      (* fmt.Errorf("unexpected error: %q", reason) *)
  | UnexpectedResponse (sc : Z)
      (* fmt.Errorf("unexpected response: %q", sc) *)
  | UploadHashMismatch (expected got : string)
      (* fmt.Errorf("upload hash mismatch: expected %q got: %q", hash, uh) *)
  | EntryUndetermined (bucket path : string)
      (* fmt.Errorf("failed to determine entry for bucket: %q path: %q", ..) *)
  | ErrUnsupportedMethod
      (* storagedriver.ErrUnsupportedMethod{} *)
  | ErrNotExist
      (* the os error for which os.IsNotExist holds *)
  | ErrClosed
      (* os.ErrClosed *)
  | ErrInvalid
      (* os.ErrInvalid *)
  | ErrShortWrite
      (* io.ErrShortWrite *)
  | OtherError (msg : string).
      (* any other error of the operating system or of the transport *)

(** [os.IsNotExist] *)
Definition IsNotExist (err : error) : bool :=
  match err with
  | ErrNotExist => true
  | _ => false
  end.

(** The result of a Go call returning [(T, error)]: a value, a non-nil
    error, or a run-time panic.  [OutOfFuel] is the result of a call whose
    loop did not end within the iterations it was given. *)
Inductive outcome (A : Type) : Type :=
  | Ok (a : A)
  | Err (e : error)
  | Panic (msg : string)
  | OutOfFuel.
Arguments Ok {A} a.
Arguments Err {A} e.
Arguments Panic {A} msg.
Arguments OutOfFuel {A}.

(** Computations over a state [S]: the state survives an error. *)
Definition M (S A : Type) : Type := S -> outcome A * S.

Definition ret {S A} (a : A) : M S A := fun s => (Ok a, s).

Definition fail {S A} (e : error) : M S A := fun s => (Err e, s).

Definition panic {S A} (msg : string) : M S A := fun s => (Panic msg, s).

Definition bind {S A B} (c : M S A) (k : A -> M S B) : M S B :=
  fun s =>
    match c s with
    | (Ok a, s') => k a s'
    | (Err e, s') => (Err e, s')
    | (Panic msg, s') => (Panic msg, s')
    | (OutOfFuel, s') => (OutOfFuel, s')
    end.

Notation "x <- c ;; k" := (bind c (fun x => k))
  (at level 100, c at next level, right associativity).
Notation "c ;;; k" := (bind c (fun _ => k))
  (at level 100, right associativity).

(** [if err != nil { return fmt.Errorf(prefix + ": %w", err) }] *)
Definition wrap {S A} (prefix : string) (c : M S A) : M S A :=
  fun s =>
    match c s with
    | (Err e, s') => (Err (WrapError prefix e), s')
    | r => r
    end.

(** A call whose error result is dropped. *)
Definition ignore_error {S A} (c : M S A) : M S unit :=
  fun s =>
    match c s with
    | (Panic msg, s') => (Panic msg, s')
    | (OutOfFuel, s') => (OutOfFuel, s')
    | (_, s') => (Ok tt, s')
    end.

(** [if err != nil { cleanup; return err }] *)
Definition on_error {S A B} (c : M S A) (cleanup : M S B) : M S A :=
  fun s =>
    match c s with
    | (Err e, s') => (ignore_error cleanup ;;; fail e) s'
    | r => r
    end.

(** [if err != nil && !pardon(err) { return err }; return nil] *)
Definition tolerate {S A} (pardon : error -> bool) (c : M S A) : M S unit :=
  fun s =>
    match c s with
    | (Ok _, s') => (Ok tt, s')
    | (Err e, s') => if pardon e then (Ok tt, s') else (Err e, s')
    | (Panic msg, s') => (Panic msg, s')
    | (OutOfFuel, s') => (OutOfFuel, s')
    end.

(** [if err != nil { return nil }] *)
Definition swallow {S A} (c : M S A) (k : A -> M S unit) : M S unit :=
  fun s =>
    match c s with
    | (Ok a, s') => k a s'
    | (Err _, s') => (Ok tt, s')
    | (Panic msg, s') => (Panic msg, s')
    | (OutOfFuel, s') => (OutOfFuel, s')
    end.

(** Dereference of a pointer field. *)
Definition deref {S A} (p : option A) : M S A :=
  match p with
  | Some a => ret a
  | None => panic "invalid memory address or nil pointer dereference"
  end.

(** ** The local filesystem *)

(** An injected failure of one system call: the error it returns and, for a
    write or a read, the number of bytes transferred before it. *)
Record fault : Type := { ferr : error; fdone : nat }.

(** The state behind an [*os.File]. *)
Record OpenFile : Type := {
  fname : string;
  fino : nat;
  fpos : nat;
  fclosed : bool
}.

(** The world a driver call runs in.  [net] is the state of the remote
    service; [plan] decides, call by call, which system calls fail. *)
Record World (R : Type) : Type := {
  inodes : gmap nat (list byte);
  names : gmap string nat;
  fds : gmap nat OpenFile;
  plan : list (option fault);
  net : R
}.
Arguments inodes {R} _.
Arguments names {R} _.
Arguments fds {R} _.
Arguments plan {R} _.
Arguments net {R} _.

Inductive Whence : Type := SeekStart | SeekEnd.

Section FS.
Context {R : Type}.
Abbreviation world := (World R).

Definition set_inodes (σ : world) i : world :=
  {| inodes := i; names := names σ; fds := fds σ; plan := plan σ; net := net σ |}.
Definition set_names (σ : world) n : world :=
  {| inodes := inodes σ; names := n; fds := fds σ; plan := plan σ; net := net σ |}.
Definition set_fds (σ : world) f : world :=
  {| inodes := inodes σ; names := names σ; fds := f; plan := plan σ; net := net σ |}.
Definition set_plan (σ : world) p : world :=
  {| inodes := inodes σ; names := names σ; fds := fds σ; plan := p; net := net σ |}.
Definition set_net (σ : world) r : world :=
  {| inodes := inodes σ; names := names σ; fds := fds σ; plan := plan σ; net := r |}.

(** The next decision of the fault plan; an exhausted plan lets every
    call succeed. *)
Definition next_fault (σ : world) : option fault * world :=
  match plan σ with
  | [] => (None, σ)
  | f :: rest => (f, set_plan σ rest)
  end.

(** A system call without a result that fails when the plan says so. *)
Definition syscall : M world unit :=
  fun σ =>
    match next_fault σ with
    | (Some f, σ') => (Err (ferr f), σ')
    | (None, σ') => (Ok tt, σ')
    end.

Definition file_data (σ : world) (ino : nat) : list byte :=
  default [] (inodes σ !! ino).

(** The file description behind a handle, when it is open. *)
Definition open_file (fd : nat) : M world OpenFile :=
  fun σ =>
    match fds σ !! fd with
    | None => (Err ErrInvalid, σ)
    | Some f => if fclosed f then (Err ErrClosed, σ) else (Ok f, σ)
    end.

Definition set_pos (fd : nat) (f : OpenFile) (pos : nat) : M world unit :=
  fun σ =>
    (Ok tt, set_fds σ (<[fd := {| fname := fname f; fino := fino f;
                                  fpos := pos; fclosed := fclosed f |}]> (fds σ))).

Definition set_data (ino : nat) (data : list byte) : M world unit :=
  fun σ => (Ok tt, set_inodes σ (<[ino := data]> (inodes σ))).

(** [data] with [p] written at offset [pos]. *)
Definition write_at (pos : nat) (p data : list byte) : list byte :=
  take pos data ++ replicate (pos - length data) x00 ++ p
    ++ drop (pos + length p) data.

(** [f.Name()] *)
Definition file_Name (fd : nat) (σ : world) : string :=
  match fds σ !! fd with
  | Some f => fname f
  | None => ""
  end.

(** [f.Write(p)]: the number of bytes written and the error. *)
Definition file_Write (fd : nat) (p : list byte) (σ : world)
  : (nat * option error) * world :=
  match open_file fd σ with
  | (Ok f, _) =>
      let '(flt, σ1) := next_fault σ in
      let n := match flt with
               | Some ft => Nat.min (fdone ft) (length p)
               | None => length p
               end in
      let data := write_at (fpos f) (take n p) (file_data σ1 (fino f)) in
      let σ2 := snd (set_data (fino f) data σ1) in
      let σ3 := snd (set_pos fd f (fpos f + n) σ2) in
      ((n, ferr <$> flt), σ3)
  | (Err e, _) => ((O, Some e), σ)
  | _ => ((O, Some ErrInvalid), σ)
  end.

(** [f.Sync()] *)
Definition file_Sync (fd : nat) : M world unit :=
  _ <- open_file fd ;; syscall.

(** [f.Close()]: the handle is closed even when the call reports an
    error. *)
Definition file_Close (fd : nat) : M world unit :=
  f <- open_file fd ;;
  (fun σ => (Ok tt, set_fds σ (<[fd := {| fname := fname f; fino := fino f;
                                         fpos := fpos f; fclosed := true |}]> (fds σ)))) ;;;
  syscall.

(** [f.Stat()], of which only [Size()] is read. *)
Definition file_Stat (fd : nat) : M world Z :=
  f <- open_file fd ;;
  syscall ;;;
  (fun σ => (Ok (Z.of_nat (length (file_data σ (fino f)))), σ)).

(** [f.Seek(offset, whence)] *)
Definition file_Seek (fd : nat) (offset : Z) (whence : Whence) : M world Z :=
  f <- open_file fd ;;
  syscall ;;;
  (fun σ =>
     let base := match whence with
                 | SeekStart => 0
                 | SeekEnd => Z.of_nat (length (file_data σ (fino f)))
                 end in
     if base + offset <? 0 then (Err ErrInvalid, σ)
     else (set_pos fd f (Z.to_nat (base + offset)) ;;; ret (base + offset)) σ).

(** [f.Truncate(size)] *)
Definition file_Truncate (fd : nat) (size : nat) : M world unit :=
  f <- open_file fd ;;
  syscall ;;;
  (fun σ =>
     let data := file_data σ (fino f) in
     set_data (fino f) (take size data ++ replicate (size - length data) x00) σ).

(** Reading a file from its offset to its end, as [io.Copy] and the
    request body of an upload do. *)
Definition file_ReadAll (fd : nat) : M world (list byte) :=
  f <- open_file fd ;;
  (fun σ =>
     let rest := drop (fpos f) (file_data σ (fino f)) in
     match next_fault σ with
     | (Some ft, σ1) =>
         (set_pos fd f (fpos f + Nat.min (fdone ft) (length rest)) ;;;
          fail (ferr ft)) σ1
     | (None, σ1) =>
         (set_pos fd f (fpos f + length rest) ;;; ret rest) σ1
     end).

(** [os.Remove(name)] *)
Definition os_Remove (name : string) : M world unit :=
  syscall ;;;
  (fun σ =>
     match names σ !! name with
     | Some _ => (Ok tt, set_names σ (delete name (names σ)))
     | None => (Err ErrNotExist, σ)
     end).

(** [os.MkdirAll(dir, perm)]: directories are not part of the model. *)
Definition os_MkdirAll (dir : string) : M world unit := syscall.

(** [os.OpenFile(name, os.O_RDWR|os.O_CREATE, 0666)]: the handle is the
    first unused one. *)
Definition os_OpenFile (name : string) : M world nat :=
  syscall ;;;
  (fun σ =>
     let fd := fresh (dom (fds σ)) in
     match names σ !! name with
     | Some ino =>
         (Ok fd, set_fds σ (<[fd := {| fname := name; fino := ino;
                                      fpos := O; fclosed := false |}]> (fds σ)))
     | None =>
         let ino := fresh (dom (inodes σ)) in
         let σ1 := set_inodes σ (<[ino := []]> (inodes σ)) in
         let σ2 := set_names σ1 (<[name := ino]> (names σ1)) in
         (Ok fd, set_fds σ2 (<[fd := {| fname := name; fino := ino;
                                       fpos := O; fclosed := false |}]> (fds σ2)))
     end).

End FS.

(** ** The generated client API (package [v1])

    Only the fields the driver reads or writes are kept.  A field of pointer
    type is an [option]. *)

Module v1.

Record ErrorBody : Type := { Reason : option string }.

Record Entry : Type := {
  Entry_Entryid : option string;
  Entry_Path : option string;
  Entry_ContentHash : option string;
  Entry_ContentSize : option Z;
  Entry_LastModified : option Z
}.

Record Releaseentry : Type := {
  Releaseentry_Entryid : option string;
  Releaseentry_Path : option string
}.

(** [*http.Response]: the status code and the headers. *)
Record HTTPResponse : Type := {
  StatusCode : Z;
  Header : gmap string (list string)
}.

(** [http.Header.Get]: the first value of the key, or the empty string. *)
Definition Header_Get (h : gmap string (list string)) (key : string) : string :=
  match h !! key with
  | Some (v :: _) => v
  | _ => ""
  end.

Record GetEntryByPathParams : Type := { GetEntryByPath_Path : string }.

Record CreateOrUpdateEntryByPathParams : Type := {
  CreateOrUpdate_Path : string;
  UpdateIfExists : option bool
}.

Record CreateOrUpdateEntryByPathJSONRequestBody : Type := {
  ContentSize : Z;
  ContentHash : string;
  ContentType : option string
}.

Record GetDiffEntriesParams : Type := {
  GetDiffEntries_Path : option string;
  Page : option Z;
  PerPage : option Z
}.

Record GetEntryByPathResponse : Type := {
  GetEntryByPath_JSON200 : option Entry;
  GetEntryByPath_JSON404 : option ErrorBody;
  GetEntryByPath_JSON500 : option ErrorBody
}.

Record CreateOrUpdateEntryByPathResponse : Type := {
  CreateOrUpdate_JSON200 : option Entry
}.

Record UploadContentResponse : Type := {
  UploadContent_HTTPResponse : HTTPResponse
}.

Record GetContentResponse : Type := {
  GetContent_Body : list byte;
  GetContent_HTTPResponse : HTTPResponse
}.

Record DeleteEntryResponse : Type := {
  DeleteEntry_JSON500 : option ErrorBody;
  DeleteEntry_HTTPResponse : HTTPResponse
}.

Record GetDiffEntriesResponse : Type := {
  GetDiffEntries_JSON200 : option (list Releaseentry);
  GetDiffEntries_JSON404 : option ErrorBody;
  GetDiffEntries_JSON500 : option ErrorBody
}.

(** The methods of [v1.ClientWithResponsesInterface] the driver calls.  [R]
    is the state of the remote service: a call returns a response or a
    transport error, and the state the service is left in.  The body of an
    upload is passed once read. *)
Class ClientWithResponsesInterface (R : Type) : Type := {
  GetEntryByPathWithResponse :
    string -> GetEntryByPathParams -> M R GetEntryByPathResponse;
  CreateOrUpdateEntryByPathWithResponse :
    string -> CreateOrUpdateEntryByPathParams ->
    CreateOrUpdateEntryByPathJSONRequestBody ->
    M R CreateOrUpdateEntryByPathResponse;
  UploadContentWithBodyWithResponse :
    string -> string -> string -> list byte -> M R UploadContentResponse;
  GetContentWithResponse :
    string -> string -> M R GetContentResponse;
  DeleteEntryWithResponse :
    string -> string -> M R DeleteEntryResponse;
  GetDiffEntriesWithResponse :
    string -> GetDiffEntriesParams -> M R GetDiffEntriesResponse
}.

End v1.

(** ** Integers *)

(** A Go [int64] (and [int] on a 64-bit platform) holding [z]. *)
Definition wrap64 (z : Z) : Z :=
  (z + 9223372036854775808) mod 18446744073709551616 - 9223372036854775808.

(** ** bufio.Writer *)

Record BufWriter : Type := {
  bwr : nat;              (* the underlying writer: the handle of the file *)
  buf : list byte;        (* the bytes buffered *)
  berr : option error     (* the error that stopped the writer *)
}.

(** [defaultBufSize]: the size of the buffer of [bufio.NewWriter]. *)
Definition defaultBufSize : nat := 4096.

Definition NewWriter (fd : nat) : BufWriter :=
  {| bwr := fd; buf := []; berr := None |}.

Section Bufio.
Context {R : Type}.
Abbreviation world := (World R).

Definition Available (b : BufWriter) : nat := defaultBufSize - length (buf b).

(** [b.Flush()] *)
Definition bw_Flush (b : BufWriter) (σ : world) : option error * BufWriter * world :=
  match berr b with
  | Some e => (Some e, b, σ)
  | None =>
      match buf b with
      | [] => (None, b, σ)
      | _ =>
          let '((n, err), σ1) := file_Write (bwr b) (buf b) σ in
          let err := match err with
                     | None => if (n <? length (buf b))%nat then Some ErrShortWrite else None
                     | Some e => Some e
                     end in
          match err with
          | Some e => (Some e, {| bwr := bwr b; buf := drop n (buf b); berr := Some e |}, σ1)
          | None => (None, {| bwr := bwr b; buf := []; berr := None |}, σ1)
          end
      end
  end.

(** The loop of [b.Write(p)]: while [p] does not fit and no error occurred,
    either write [p] straight to the file (empty buffer) or fill the buffer
    and flush it.  [nn] counts the bytes accepted. *)
Fixpoint bw_Write_loop (fuel : nat) (b : BufWriter) (p : list byte) (nn : nat)
    (σ : world) : nat * BufWriter * list byte * world :=
  match fuel with
  | O => (nn, b, p, σ)
  | S fuel' =>
      if (Available b <? length p)%nat && bool_decide (berr b = None) then
        match buf b with
        | [] =>
            let '((n, err), σ1) := file_Write (bwr b) p σ in
            bw_Write_loop fuel' {| bwr := bwr b; buf := []; berr := err |}
              (drop n p) (nn + n) σ1
        | _ =>
            let n := Available b in
            let '(_, b1, σ1) :=
              bw_Flush {| bwr := bwr b; buf := buf b ++ take n p; berr := berr b |} σ in
            bw_Write_loop fuel' b1 (drop n p) (nn + n) σ1
        end
      else (nn, b, p, σ)
  end.

(** [b.Write(p)].  The loop runs at most twice: after a flush the buffer is
    empty, and a write to the file either takes all of [p] or fails. *)
Definition bw_Write (b : BufWriter) (p : list byte) (σ : world)
  : (nat * option error) * BufWriter * world :=
  let '(nn, b1, p1, σ1) := bw_Write_loop 2 b p O σ in
  match berr b1 with
  | Some e => ((nn, Some e), b1, σ1)
  | None =>
      ((nn + length p1, None)%nat,
       {| bwr := bwr b1; buf := buf b1 ++ p1; berr := None |}, σ1)
  end.

End Bufio.

(** ** The driver and its writer *)

Definition driverName : string := "ccd".
Definition contentTypeOctetStream : string := "application/offset+octet-stream".

(** A [context.Context], of which the driver reads string values. *)
Abbreviation Context := (gmap string string).

(** [dcontext.GetStringValue] *)
Definition GetStringValue (ctx : Context) (key : string) : string :=
  default "" (ctx !! key).

(** [writer] is a [storagedriver.FileWriter] backed by CCD.  The [client]
    field is the client of the enclosing section. *)
Record writer : Type := {
  ctx : Context;
  file : nat;
  size : Z;
  bw : BufWriter;
  closed : bool;
  committed : bool;
  cancelled : bool;
  bucket : string;
  path : string
}.

Definition set_size (w : writer) (n : Z) : writer :=
  {| ctx := ctx w; file := file w; size := n; bw := bw w; closed := closed w;
     committed := committed w; cancelled := cancelled w;
     bucket := bucket w; path := path w |}.
Definition set_bw (w : writer) (b : BufWriter) : writer :=
  {| ctx := ctx w; file := file w; size := size w; bw := b; closed := closed w;
     committed := committed w; cancelled := cancelled w;
     bucket := bucket w; path := path w |}.
Definition set_closed (w : writer) (v : bool) : writer :=
  {| ctx := ctx w; file := file w; size := size w; bw := bw w; closed := v;
     committed := committed w; cancelled := cancelled w;
     bucket := bucket w; path := path w |}.
Definition set_committed (w : writer) (v : bool) : writer :=
  {| ctx := ctx w; file := file w; size := size w; bw := bw w; closed := closed w;
     committed := v; cancelled := cancelled w;
     bucket := bucket w; path := path w |}.
Definition set_cancelled (w : writer) (v : bool) : writer :=
  {| ctx := ctx w; file := file w; size := size w; bw := bw w; closed := closed w;
     committed := committed w; cancelled := v;
     bucket := bucket w; path := path w |}.

(** [newWriter] returns a new writer which will write content to file and
    then upload to CCD on commit. *)
Definition newWriter (ctx : Context) (file : nat) (size : Z)
    (bucket path : string) : writer :=
  {| ctx := ctx; file := file; size := size; bw := NewWriter file;
     closed := false; committed := false; cancelled := false;
     bucket := bucket; path := path |}.

Section Driver.
Context {R : Type} {client : v1.ClientWithResponsesInterface R}.
Abbreviation world := (World R).

(** Library functions of which the driver only passes the results on. *)
Variable os_TempDir : string.
Variable filepath_Join : list string -> string.
Variable path_Dir : string -> string.

(** A call of the client, run on the remote part of the world. *)
Definition remote {A} (c : M R A) : M world A :=
  fun σ => let '(r, n) := c (net σ) in (r, set_net σ n).

Definition bucketIDFromContext (ctx : Context) : M world string :=
  let name := GetStringValue ctx "vars.name" in
  if decide (name = "") then
    fail (ErrorString "could not determine bucket ID from context")
  else ret name.

(** [createOrUpdateEntry] returns the CCD entry ID for the given path in the
    bucket. *)
Definition createOrUpdateEntry (ctx : Context) (bucket path hash : string)
    (contentLength : Z) : M world string :=
  res <- remote (v1.CreateOrUpdateEntryByPathWithResponse bucket
           {| v1.CreateOrUpdate_Path := path; v1.UpdateIfExists := Some true |}
           {| v1.ContentSize := contentLength; v1.ContentHash := hash;
              v1.ContentType := Some contentTypeOctetStream |}) ;;
  match v1.CreateOrUpdate_JSON200 res with
  | None => fail (ErrorString "empty response from CCD")
  | Some e =>
      match v1.Entry_Entryid e with
      | None => fail (ErrorString "failed to determine entry ID")
      | Some id => ret id
      end
  end.

(** [uploadContent] uploads the given content to the CCD entry ID.
    [content] is the [io.Reader]: the computation that reads it. *)
Definition uploadContent (ctx : Context) (bucket entryID hash : string)
    (content : M world (list byte)) : M world unit :=
  res <- (body <- content ;;
          remote (v1.UploadContentWithBodyWithResponse bucket entryID
                    contentTypeOctetStream body)) ;;
  let uh := v1.Header_Get (v1.Header (v1.UploadContent_HTTPResponse res))
              "Upload-Hash" in
  if decide (uh <> hash) then fail (UploadHashMismatch hash uh)
  else ret tt.

(** [getEntryByPath] returns the CCD entry for the given path in the bucket.
    The warning it logs is not modelled. *)
Definition getEntryByPath (ctx : Context) (bucket path : string)
    : M world v1.Entry :=
  res <- remote (v1.GetEntryByPathWithResponse bucket
                   {| v1.GetEntryByPath_Path := path |}) ;;
  match v1.GetEntryByPath_JSON404 res with
  | Some _ => fail (PathNotFoundError path)
  | None =>
      match v1.GetEntryByPath_JSON500 res with
      | Some b => reason <- deref (v1.Reason b) ;; fail (UnexpectedError reason)
      | None =>
          match v1.GetEntryByPath_JSON200 res with
          | None => fail (EntryUndetermined bucket path)
          | Some e => ret e
          end
      end
  end.

(** [getEntryContent] returns the bytes stored in the bucket entry. *)
Definition getEntryContent (ctx : Context) (bucket entryID : string)
    : M world (list byte) :=
  res <- remote (v1.GetContentWithResponse bucket entryID) ;;
  ret (v1.GetContent_Body res).

(** [strings.TrimPrefix(s, "/")] *)
Definition TrimPrefix_slash (s : string) : string :=
  match s with
  | String "/" rest => rest
  | _ => s
  end.

(** The loop of [getEntries], from page [page] with [entries] gathered so
    far. *)
Fixpoint getEntries_loop (fuel : nat) (bucketID listPath : string) (page : Z)
    (entries : list v1.Releaseentry) : M world (list v1.Releaseentry) :=
  match fuel with
  | O => fun σ => (OutOfFuel, σ)
  | S fuel' =>
      res <- remote (v1.GetDiffEntriesWithResponse bucketID
               {| v1.GetDiffEntries_Path := Some listPath;
                  v1.Page := Some page; v1.PerPage := Some 1 |}) ;;
      match v1.GetDiffEntries_JSON404 res with
      | Some _ => fail (PathNotFoundError listPath)
      | None =>
          match v1.GetDiffEntries_JSON500 res with
          | Some b => reason <- deref (v1.Reason b) ;; fail (UnexpectedError reason)
          | None =>
              match v1.GetDiffEntries_JSON200 res with
              | None | Some [] => ret entries
              | Some es =>
                  getEntries_loop fuel' bucketID listPath (wrap64 (page + 1))
                    (entries ++ es)
              end
          end
      end
  end.

Definition getEntries (fuel : nat) (ctx : Context) (bucketID listPath : string)
    : M world (list v1.Releaseentry) :=
  getEntries_loop fuel bucketID (TrimPrefix_slash listPath) 1 [].

(** *** The writer *)

Abbreviation wstate := (writer * world)%type.

(** A computation on the world, run by a method of the writer. *)
Definition io {A} (c : M world A) : M wstate A :=
  fun '(w, σ) => let '(r, σ') := c σ in (r, (w, σ')).

Definition this : M wstate writer := fun s => (Ok (fst s), s).

Definition update (f : writer -> writer) : M wstate unit :=
  fun '(w, σ) => (Ok tt, (f w, σ)).

(** [w.bw.Flush()] *)
Definition flush : M wstate unit :=
  fun '(w, σ) =>
    let '(err, b, σ') := bw_Flush (bw w) σ in
    (match err with Some e => Err e | None => Ok tt end, (set_bw w b, σ')).

(** [Write] implements [io.WriteCloser]; it returns [(n, err)]. *)
Definition Write (p : list byte) (s : wstate) : (Z * option error) * wstate :=
  let '(w, σ) := s in
  if closed w then ((0, Some (ErrorString "already closed")), s)
  else if committed w then ((0, Some (ErrorString "already committed")), s)
  else if cancelled w then ((0, Some (ErrorString "already cancelled")), s)
  else
    let '((n, err), b, σ') := bw_Write (bw w) p σ in
    ((Z.of_nat n, err),
     (set_size (set_bw w b) (wrap64 (size w + Z.of_nat n)), σ')).

(** [Size] returns the number of bytes written to this FileWriter. *)
Definition Size (w : writer) : Z := size w.

(** [Close] implements [io.WriteCloser]. *)
Definition Close : M wstate unit :=
  w <- this ;;
  if closed w then fail (ErrorString "already closed")
  else
    flush ;;;
    io (file_Sync (file w)) ;;;
    io (file_Close (file w)) ;;;
    update (fun w => set_closed w true).

(** [Cancel] removes any written content from this FileWriter. *)
Definition Cancel : M wstate unit :=
  w <- this ;;
  if closed w then fail (ErrorString "already closed")
  else
    update (fun w => set_cancelled w true) ;;;
    ignore_error (io (file_Close (file w))) ;;;
    tolerate IsNotExist
      (io (fun σ => os_Remove (file_Name (file w) σ) σ)).

(** [Commit] flushes all content written to this FileWriter and makes it
    available for future calls to [GetContent] and [Reader]. *)
Definition Commit : M wstate unit :=
  w <- this ;;
  if closed w then fail (ErrorString "already closed")
  else if committed w then fail (ErrorString "already committed")
  else if cancelled w then fail (ErrorString "already cancelled")
  else
    wrap "flush file" flush ;;;
    wrap "sync file" (io (file_Sync (file w))) ;;;
    fi <- wrap "stat file" (io (file_Stat (file w))) ;;
    wrap "rewind for hash" (io (file_Seek (file w) 0 SeekStart)) ;;;
    h <- wrap "file hash" (io (file_ReadAll (file w))) ;;
    let fileHash := md5_hex h in
    let size := fi in
    wrap "rewind for upload" (io (file_Seek (file w) 0 SeekStart)) ;;;
    entryID <- wrap "create/update entry"
      (io (createOrUpdateEntry (ctx w) (bucket w) (path w) fileHash size)) ;;
    wrap "upload content"
      (io (uploadContent (ctx w) (bucket w) entryID fileHash
             (file_ReadAll (file w)))) ;;;
    update (fun w => set_committed w true) ;;;
    io (fun σ => os_Remove (file_Name (file w) σ) σ).

(** *** The driver *)

(** [GetContent] retrieves the content stored at [path] as a [[]byte]. *)
Definition GetContent (ctx : Context) (path : string) : M world (list byte) :=
  bucketID <- bucketIDFromContext ctx ;;
  entry <- getEntryByPath ctx bucketID path ;;
  entryid <- deref (v1.Entry_Entryid entry) ;;
  getEntryContent ctx bucketID entryid.

(** [PutContent] stores the [[]byte] content at a location designated by
    [path]. *)
Definition PutContent (ctx : Context) (path : string) (content : list byte)
    : M world unit :=
  bucketID <- bucketIDFromContext ctx ;;
  let fileHash := md5_hex content in
  entryID <- createOrUpdateEntry ctx bucketID path fileHash
               (Z.of_nat (length content)) ;;
  uploadContent ctx bucketID entryID fileHash (ret content).

(** [Writer] returns a FileWriter which will store the content written to it
    at the location designated by [path] after the call to [Commit]. *)
Definition Writer (ctx : Context) (dataPath : string) (append : bool)
    : M world writer :=
  bucketID <- bucketIDFromContext ctx ;;
  let rootDir := filepath_Join [os_TempDir; "ccd"] in
  os_MkdirAll (filepath_Join [rootDir; path_Dir dataPath]) ;;;
  f <- os_OpenFile (filepath_Join [rootDir; dataPath]) ;;
  offset <- (if append then
               on_error (file_Seek f 0 SeekEnd) (file_Close f)
             else
               on_error (file_Truncate f 0) (file_Close f) ;;; ret 0) ;;
  ret (newWriter ctx f offset bucketID dataPath).

(** [Stat] retrieves the FileInfo for the given path: its path, size,
    modification time and directory flag. *)
Definition Stat (ctx : Context) (path : string)
    : M world (string * Z * Z * bool) :=
  bucketID <- bucketIDFromContext ctx ;;
  entry <- getEntryByPath ctx bucketID path ;;
  size <- deref (v1.Entry_ContentSize entry) ;;
  modTime <- deref (v1.Entry_LastModified entry) ;;
  ret (path, size, modTime, false).

Fixpoint List_paths (entries : list v1.Releaseentry) : M world (list string) :=
  match entries with
  | [] => ret []
  | e :: rest =>
      p <- deref (v1.Releaseentry_Path e) ;;
      paths <- List_paths rest ;;
      ret (filepath_Join ["/"; p] :: paths)
  end.

(** [List] returns a list of the objects that are direct descendants of the
    given path. *)
Definition List (fuel : nat) (ctx : Context) (listPath : string)
    : M world (list string) :=
  bucketID <- bucketIDFromContext ctx ;;
  entries <- getEntries fuel ctx bucketID listPath ;;
  List_paths entries.

(** The loop of [Delete] over the entries found. *)
Fixpoint Delete_loop (ctx : Context) (bucketID : string)
    (entries : list v1.Releaseentry) : M world unit :=
  match entries with
  | [] => ret tt
  | e :: rest =>
      entryid <- deref (v1.Releaseentry_Entryid e) ;;
      res <- remote (v1.DeleteEntryWithResponse bucketID entryid) ;;
      match v1.DeleteEntry_JSON500 res with
      | Some b => reason <- deref (v1.Reason b) ;; fail (UnexpectedError reason)
      | None =>
          let sc := v1.StatusCode (v1.DeleteEntry_HTTPResponse res) in
          if decide (sc <> 204) then fail (UnexpectedResponse sc)
          else Delete_loop ctx bucketID rest
      end
  end.

(** [Delete] recursively deletes all objects stored at [path] and its
    subpaths. *)
Definition Delete (fuel : nat) (ctx : Context) (path : string) : M world unit :=
  bucketID <- bucketIDFromContext ctx ;;
  swallow (getEntries fuel ctx bucketID path) (Delete_loop ctx bucketID).

(** [Move] moves an object stored at [sourcePath] to [destPath], removing
    the original object. *)
Definition Move (fuel : nat) (ctx : Context) (sourcePath destPath : string)
    : M world unit :=
  content <- GetContent ctx sourcePath ;;
  PutContent ctx destPath content ;;;
  Delete fuel ctx sourcePath.

(** [URLFor] is not supported. *)
Definition URLFor (ctx : Context) (path : string) : M world string :=
  fail ErrUnsupportedMethod.

(** [Walk] panics. *)
Definition Walk (ctx : Context) (path : string) : M world unit :=
  panic ("Walk: path: " ++ path).

End Driver.

(** ** The constructor

    [New] reads its parameters, values of any type, through [fmt.Sprint]
    alone.  The client is made by the generated code, which is not among
    the sources: [NewClientWithResponses] takes the URL of the server and the
    password that the request editor sets for the basic authentication. *)

Definition baseURLs : gmap string string :=
  {[ "prod" := "https://content-api.cloud.unity3d.com";
     "stage" := "https://content-api-stg.cloud.unity3d.com" ]}.

Record driver (Client : Type) : Type := {
  driver_client : Client;
  baseURL : string;
  apiKey : string
}.
Arguments driver_client {Client} _.
Arguments baseURL {Client} _.
Arguments apiKey {Client} _.

Section Constructor.
Variable value : Type.
Variable Sprint : value -> string.
Variable Client : Type.
Variable NewClientWithResponses : string -> string -> Client + error.

(** [New] constructs a new Driver. *)
Definition New (parameters : gmap string value) : driver Client + error :=
  match parameters !! "apikey" with
  | None => inr (ErrorString "no api key parameter provided")
  | Some apiKey =>
      if decide (Sprint apiKey = "")
      then inr (ErrorString "no api key parameter provided")
      else
        match parameters !! "environment" with
        | None => inr (ErrorString "no environment parameter provided")
        | Some env =>
            if decide (Sprint env = "")
            then inr (ErrorString "no environment parameter provided")
            else
              match baseURLs !! Sprint env with
              | None => inr (ErrorString "invalid environment parameter provided")
              | Some baseURL =>
                  match NewClientWithResponses baseURL (Sprint apiKey) with
                  | inr err => inr err
                  | inl client =>
                      inl {| driver_client := client; baseURL := baseURL;
                             apiKey := Sprint apiKey |}
                  end
              end
        end
  end.

End Constructor.

(** * A reference remote

    An entry store in memory that answers the calls of the client as the
    interface of the service describes them, with a script of disturbances
    (a transport failure, a server error, an upload corrupted on its way).
    It serves to run the driver on concrete worlds. *)

Module Mem.

Record entry : Type := {
  e_bucket : string;
  e_id : string;
  e_path : string;
  e_hash : string;
  e_size : Z;
  e_content : option (list byte)
}.

Inductive disturbance : Type :=
  | Transport (e : error)        (* the request does not reach the service *)
  | ServerError (reason : string) (* the service answers 500 and does nothing *)
  | Corrupt (body : list byte).   (* the body of an upload arrives as [body] *)

Record remote : Type := {
  entries : list entry;
  next_id : nat;
  script : list (option disturbance)
}.

Definition next_disturbance (r : remote) : option disturbance * remote :=
  match script r with
  | [] => (None, r)
  | d :: rest =>
      (d, {| entries := entries r; next_id := next_id r; script := rest |})
  end.

Definition set_entries (r : remote) (es : list entry) : remote :=
  {| entries := es; next_id := next_id r; script := script r |}.

Definition at_path (b p : string) (e : entry) : bool :=
  String.eqb (e_bucket e) b && String.eqb (e_path e) p.

Definition with_id (b id : string) (e : entry) : bool :=
  String.eqb (e_bucket e) b && String.eqb (e_id e) id.

Definition under (b p : string) (e : entry) : bool :=
  String.eqb (e_bucket e) b && String.prefix p (e_path e).

Definition api_entry (e : entry) : v1.Entry :=
  {| v1.Entry_Entryid := Some (e_id e);
     v1.Entry_Path := Some (e_path e);
     v1.Entry_ContentHash := Some (e_hash e);
     v1.Entry_ContentSize := Some (e_size e);
     v1.Entry_LastModified := Some 0 |}.

Definition release_entry (e : entry) : v1.Releaseentry :=
  {| v1.Releaseentry_Entryid := Some (e_id e);
     v1.Releaseentry_Path := Some (e_path e) |}.

Definition http (sc : Z) (h : gmap string (list string)) : v1.HTTPResponse :=
  {| v1.StatusCode := sc; v1.Header := h |}.

Definition error_body (reason : string) : v1.ErrorBody :=
  {| v1.Reason := Some reason |}.

(** The name of the [n]-th entry created: [n + 1] times the letter e. *)
Fixpoint entry_id (n : nat) : string :=
  match n with
  | O => "e"
  | S n' => String "e" (entry_id n')
  end.

(** Paths are stored without their leading slash. *)
Definition GetEntryByPath (b : string) (params : v1.GetEntryByPathParams)
    : M remote v1.GetEntryByPathResponse :=
  fun r =>
    let '(d, r1) := next_disturbance r in
    match d with
    | Some (Transport e) => (Err e, r1)
    | Some (ServerError reason) =>
        (Ok {| v1.GetEntryByPath_JSON200 := None;
               v1.GetEntryByPath_JSON404 := None;
               v1.GetEntryByPath_JSON500 := Some (error_body reason) |}, r1)
    | _ =>
        let p := TrimPrefix_slash (v1.GetEntryByPath_Path params) in
        match find (at_path b p) (entries r1) with
        | Some e =>
            (Ok {| v1.GetEntryByPath_JSON200 := Some (api_entry e);
                   v1.GetEntryByPath_JSON404 := None;
                   v1.GetEntryByPath_JSON500 := None |}, r1)
        | None =>
            (Ok {| v1.GetEntryByPath_JSON200 := None;
                   v1.GetEntryByPath_JSON404 := Some (error_body "not found");
                   v1.GetEntryByPath_JSON500 := None |}, r1)
        end
    end.

Definition CreateOrUpdateEntryByPath (b : string)
    (params : v1.CreateOrUpdateEntryByPathParams)
    (body : v1.CreateOrUpdateEntryByPathJSONRequestBody)
    : M remote v1.CreateOrUpdateEntryByPathResponse :=
  fun r =>
    let '(d, r1) := next_disturbance r in
    match d with
    | Some (Transport e) => (Err e, r1)
    | Some (ServerError _) => (Ok {| v1.CreateOrUpdate_JSON200 := None |}, r1)
    | _ =>
        let p := TrimPrefix_slash (v1.CreateOrUpdate_Path params) in
        match find (at_path b p) (entries r1) with
        | Some old =>
            match v1.UpdateIfExists params with
            | Some true =>
                let e := {| e_bucket := b; e_id := e_id old; e_path := p;
                            e_hash := v1.ContentHash body;
                            e_size := v1.ContentSize body;
                            e_content := e_content old |} in
                (Ok {| v1.CreateOrUpdate_JSON200 := Some (api_entry e) |},
                 set_entries r1
                   (map (fun x => if at_path b p x then e else x) (entries r1)))
            | _ => (Ok {| v1.CreateOrUpdate_JSON200 := None |}, r1)
            end
        | None =>
            let e := {| e_bucket := b; e_id := entry_id (next_id r1);
                        e_path := p; e_hash := v1.ContentHash body;
                        e_size := v1.ContentSize body; e_content := None |} in
            (Ok {| v1.CreateOrUpdate_JSON200 := Some (api_entry e) |},
             {| entries := entries r1 ++ [e]; next_id := S (next_id r1);
                script := script r1 |})
        end
    end.

(** The service answers an upload with the digest of what it received, and
    keeps the bytes when the digest is the one of the entry. *)
Definition UploadContentWithBody (b id contentType : string) (body : list byte)
    : M remote v1.UploadContentResponse :=
  fun r =>
    let '(d, r1) := next_disturbance r in
    match d with
    | Some (Transport e) => (Err e, r1)
    | Some (ServerError _) =>
        (Ok {| v1.UploadContent_HTTPResponse := http 500 ∅ |}, r1)
    | _ =>
        let received := match d with Some (Corrupt body') => body' | _ => body end in
        let h := md5_hex received in
        match find (with_id b id) (entries r1) with
        | Some old =>
            if String.eqb h (e_hash old) then
              let e := {| e_bucket := b; e_id := id; e_path := e_path old;
                          e_hash := e_hash old; e_size := e_size old;
                          e_content := Some received |} in
              (Ok {| v1.UploadContent_HTTPResponse :=
                       http 200 {[ "Upload-Hash" := [h] ]} |},
               set_entries r1
                 (map (fun x => if with_id b id x then e else x) (entries r1)))
            else
              (Ok {| v1.UploadContent_HTTPResponse :=
                       http 400 {[ "Upload-Hash" := [h] ]} |}, r1)
        | None => (Ok {| v1.UploadContent_HTTPResponse := http 404 ∅ |}, r1)
        end
    end.

Definition GetContent (b id : string) : M remote v1.GetContentResponse :=
  fun r =>
    let '(d, r1) := next_disturbance r in
    match d with
    | Some (Transport e) => (Err e, r1)
    | Some (ServerError reason) =>
        (Ok {| v1.GetContent_Body := String.list_byte_of_string reason;
               v1.GetContent_HTTPResponse := http 500 ∅ |}, r1)
    | _ =>
        match find (with_id b id) (entries r1) with
        | Some {| e_content := Some c |} =>
            (Ok {| v1.GetContent_Body := c;
                   v1.GetContent_HTTPResponse := http 200 ∅ |}, r1)
        | _ =>
            (Ok {| v1.GetContent_Body := [];
                   v1.GetContent_HTTPResponse := http 404 ∅ |}, r1)
        end
    end.

Definition DeleteEntry (b id : string) : M remote v1.DeleteEntryResponse :=
  fun r =>
    let '(d, r1) := next_disturbance r in
    match d with
    | Some (Transport e) => (Err e, r1)
    | Some (ServerError reason) =>
        (Ok {| v1.DeleteEntry_JSON500 := Some (error_body reason);
               v1.DeleteEntry_HTTPResponse := http 500 ∅ |}, r1)
    | _ =>
        match find (with_id b id) (entries r1) with
        | Some _ =>
            (Ok {| v1.DeleteEntry_JSON500 := None;
                   v1.DeleteEntry_HTTPResponse := http 204 ∅ |},
             set_entries r1
               (filter (fun x => with_id b id x = false) (entries r1)))
        | None =>
            (Ok {| v1.DeleteEntry_JSON500 := None;
                   v1.DeleteEntry_HTTPResponse := http 404 ∅ |}, r1)
        end
    end.

(** The entries under a path, in the order of their creation, by pages. *)
Definition GetDiffEntries (b : string) (params : v1.GetDiffEntriesParams)
    : M remote v1.GetDiffEntriesResponse :=
  fun r =>
    let '(d, r1) := next_disturbance r in
    match d with
    | Some (Transport e) => (Err e, r1)
    | Some (ServerError reason) =>
        (Ok {| v1.GetDiffEntries_JSON200 := None;
               v1.GetDiffEntries_JSON404 := None;
               v1.GetDiffEntries_JSON500 := Some (error_body reason) |}, r1)
    | _ =>
        let p := default "" (v1.GetDiffEntries_Path params) in
        let page := Z.to_nat (default 1 (v1.Page params)) in
        let per := Z.to_nat (default 10 (v1.PerPage params)) in
        let found := List.filter (under b p) (entries r1) in
        (Ok {| v1.GetDiffEntries_JSON200 :=
                 Some (map release_entry
                         (take per (drop ((page - 1) * per) found)));
               v1.GetDiffEntries_JSON404 := None;
               v1.GetDiffEntries_JSON500 := None |}, r1)
    end.

#[global] Instance client : v1.ClientWithResponsesInterface remote := {|
  v1.GetEntryByPathWithResponse := GetEntryByPath;
  v1.CreateOrUpdateEntryByPathWithResponse := CreateOrUpdateEntryByPath;
  v1.UploadContentWithBodyWithResponse := UploadContentWithBody;
  v1.GetContentWithResponse := GetContent;
  v1.DeleteEntryWithResponse := DeleteEntry;
  v1.GetDiffEntriesWithResponse := GetDiffEntries
|}.

(** The content the service holds at a path. *)
Definition content_at (b p : string) (r : remote) : option (list byte) :=
  match find (at_path b (TrimPrefix_slash p)) (entries r) with
  | Some e => e_content e
  | None => None
  end.

(** The entries the service holds in a world. *)
Definition held (σ : World remote) : list entry := entries (net σ).

(** What the service tells entries apart by: the bucket and the ID. *)
Definition key (e : entry) : string * string := (e_bucket e, e_id e).

(** A remote as the service keeps it: no two entries share a bucket and an
    ID, and every ID was handed out by the counter. *)
Definition wf (r : remote) : Prop :=
  NoDup (map key (entries r)) /\
  forall x, x ∈ entries r -> exists n, (n < next_id r)%nat /\ e_id x = entry_id n.

(** [the_entry b p id h r e]: in [r], [e] is the entry of the bucket [b] at
    the path [p], it has the ID [id] and the hash [h], and no other entry
    of [r] is at that path or has that ID. *)
Definition the_entry (b p id h : string) (r : remote) (e : entry) : Prop :=
  e ∈ entries r /\
  e_bucket e = b /\ e_path e = p /\ e_id e = id /\ e_hash e = h /\
  forall z, z ∈ entries r ->
    at_path b p z = true \/ with_id b id z = true -> z = e.

(** A world with nothing on disk, no fault planned and the given remote. *)
Definition world_of (r : remote) : World remote :=
  {| inodes := ∅; names := ∅; fds := ∅; plan := []; net := r |}.

Definition empty : remote := {| entries := []; next_id := O; script := [] |}.

(** The request context of a bucket. *)
Definition context_of (b : string) : Context := {[ "vars.name" := b ]}.

(** Stand-ins for [filepath.Join], [path.Dir] and [os.TempDir] in runs. *)
Fixpoint join (parts : list string) : string :=
  match parts with
  | [] => ""
  | [a] => a
  | a :: rest => a ++ "/" ++ join rest
  end.
Definition dir (p : string) : string := p.
Definition tmp : string := "/tmp".

End Mem.

(** * Concrete runs *)

Module Demo.

Definition ctx : Context := Mem.context_of "b".

(** A disk on which [plan] decides the failures, and a remote with
    [script]. *)
Definition world_with (plan : list (option fault))
    (script : list (option Mem.disturbance)) : World Mem.remote :=
  {| inodes := ∅; names := ∅; fds := ∅; plan := plan;
     net := {| Mem.entries := []; Mem.next_id := O; Mem.script := script |} |}.

(** The writer opened for ["x/y"] and the world it is opened in; when the
    opening fails, a writer on a handle that does not exist. *)
Definition opened (append : bool) (σ : World Mem.remote)
    : writer * World Mem.remote :=
  match Writer Mem.tmp Mem.join Mem.dir ctx "x/y" append σ with
  | (Ok w, σ') => (w, σ')
  | (_, σ') => (newWriter ctx 0%nat 0 "" "", σ')
  end.

(** The writer after [Write("abc")]. *)
Definition written (plan : list (option fault))
    (script : list (option Mem.disturbance)) : writer * World Mem.remote :=
  snd (Write [x61; x62; x63] (opened false (world_with plan script))).

(** A remote holding three objects under ["x"]. *)
Definition three_objects : World Mem.remote :=
  let put p c σ := snd (PutContent ctx p c σ) in
  put "x/c" [x63] (put "x/b" [x62] (put "x/a" [x61] (world_with [] []))).

Definition listed (id p : string) : v1.Releaseentry :=
  {| v1.Releaseentry_Entryid := Some id; v1.Releaseentry_Path := Some p |}.

(** The same world with a script of disturbances for the remote. *)
Definition with_script (σ : World Mem.remote)
    (script : list (option Mem.disturbance)) : World Mem.remote :=
  set_net σ {| Mem.entries := Mem.entries (net σ);
               Mem.next_id := Mem.next_id (net σ); Mem.script := script |}.

(** The paths of the entries the remote holds. *)
Definition paths (σ : World Mem.remote) : list string :=
  map Mem.e_path (Mem.entries (net σ)).

(** A remote holding an object and another one below it. *)
Definition nested_objects : World Mem.remote :=
  let put p c σ := snd (PutContent ctx p c σ) in
  put "x/a/b" [x62] (put "x/a" [x61] (world_with [] [])).

Definition EIO : fault := {| ferr := OtherError "input/output error"; fdone := O |}.

(** More bytes than the buffer of a writer holds. *)
Definition big : list byte := replicate (50 * 100) x61.

(** A writer opened on a disk whose first write fails, after [Write(big)]
    was refused by the disk. *)
Definition failed_write : writer * World Mem.remote :=
  snd (Write big (opened false (world_with [None; None; None; Some EIO] []))).

End Demo.

(** * Vocabulary of the properties *)

(** [keeps P c]: the computation [c] preserves the projection [P] of the
    state, whatever its outcome. *)
Definition keeps {S A B} (P : S -> B) (c : M S A) : Prop :=
  forall s, P (snd (c s)) = P s.

(** The name of the staging file of a path. *)
Definition staging_name (os_TempDir : string)
    (filepath_Join : list string -> string) (dataPath : string) : string :=
  filepath_Join [filepath_Join [os_TempDir; "ccd"%string]; dataPath].

(** The bytes of the file called [name], when there is one. *)
Definition file_at {R} (name : string) (σ : World R) : option (list byte) :=
  file_data σ <$> names σ !! name.

(** The files and their names. *)
Definition disk {R} (σ : World R) : gmap nat (list byte) * gmap string nat :=
  (inodes σ, names σ).

(** The [Upload-Hash] header of the answer to an upload. *)
Definition upload_hash (res : v1.UploadContentResponse) : string :=
  v1.Header_Get (v1.Header (v1.UploadContent_HTTPResponse res)) "Upload-Hash".

Section Vocabulary.
Context {R : Type} {client : v1.ClientWithResponsesInterface R}.
Abbreviation world := (World R).
Abbreviation wstate := (writer * world)%type.

(** The directory of the local filesystem: the staging files that exist. *)
Definition staged (s : wstate) : gmap string nat := names (snd s).

(** The three flags of the writer. *)
Definition flags (s : wstate) : bool * bool * bool :=
  (closed (fst s), committed (fst s), cancelled (fst s)).

(** The handle [fd] is closed (or was never opened) in [σ]. *)
Definition handle_closed (fd : nat) (σ : world) : Prop :=
  forall f, fds σ !! fd = Some f -> fclosed f = true.

(** The calls of a writer, for runs of several of them. *)
Inductive Op : Type :=
  | OpWrite (p : list byte)
  | OpClose
  | OpCancel
  | OpCommit.

(** The error result of a call and the state it leaves. *)
Definition call (op : Op) (s : wstate) : outcome unit * wstate :=
  match op with
  | OpWrite p =>
      let '((n, err), s') := Write p s in
      (match err with Some e => Err e | None => Ok tt end, s')
  | OpClose => Close s
  | OpCancel => Cancel s
  | OpCommit => Commit s
  end.

Definition run (ops : list Op) (s : wstate) : wstate :=
  foldl (fun s op => snd (call op s)) s ops.

(** The writer is closed, committed or cancelled. *)
Definition terminal (w : writer) : bool :=
  closed w || committed w || cancelled w.

(** The flags [Commit] never touches, and those [Close] never touches. *)
Definition closed_cancelled (s : wstate) : bool * bool :=
  (closed (fst s), cancelled (fst s)).

Definition committed_cancelled (s : wstate) : bool * bool :=
  (committed (fst s), cancelled (fst s)).

(** The sub-steps of [Commit], in order: each point carries what the earlier
    sub-steps produced (the size from [Stat], the bytes hashed, the entry
    ID).  [PDone] is the point after the upload. *)
Inductive point : Type :=
  | PFlush
  | PSync
  | PStat
  | PRewindHash (fi : Z)
  | PHash (fi : Z)
  | PRewindUpload (fi : Z) (h : list byte)
  | PUpsert (fi : Z) (h : list byte)
  | PUpload (fi : Z) (h : list byte) (entryID : string)
  | PDone.

(** The text [Commit] wraps the error of a sub-step with. *)
Definition step_name (p : point) : string :=
  match p with
  | PFlush => "flush file"
  | PSync => "sync file"
  | PStat => "stat file"
  | PRewindHash _ => "rewind for hash"
  | PHash _ => "file hash"
  | PRewindUpload _ _ => "rewind for upload"
  | PUpsert _ _ => "create/update entry"
  | PUpload _ _ _ => "upload content"
  | PDone => ""
  end.

(** The sub-step at a point, returning the next point. *)
Definition step (w : writer) (p : point) : M wstate point :=
  match p with
  | PFlush => flush ;;; ret PSync
  | PSync => io (file_Sync (file w)) ;;; ret PStat
  | PStat => fi <- io (file_Stat (file w)) ;; ret (PRewindHash fi)
  | PRewindHash fi => io (file_Seek (file w) 0 SeekStart) ;;; ret (PHash fi)
  | PHash fi => h <- io (file_ReadAll (file w)) ;; ret (PRewindUpload fi h)
  | PRewindUpload fi h =>
      io (file_Seek (file w) 0 SeekStart) ;;; ret (PUpsert fi h)
  | PUpsert fi h =>
      entryID <- io (createOrUpdateEntry (ctx w) (bucket w) (path w)
                       (md5_hex h) fi) ;;
      ret (PUpload fi h entryID)
  | PUpload fi h entryID =>
      io (uploadContent (ctx w) (bucket w) entryID (md5_hex h)
            (file_ReadAll (file w))) ;;;
      ret PDone
  | PDone => ret PDone
  end.

(** [reaches w s p s1]: started in [s], the sub-steps before [p] succeeded
    and left the state [s1]. *)
Inductive reaches (w : writer) (s : wstate) : point -> wstate -> Prop :=
  | reaches_start : reaches w s PFlush s
  | reaches_step p s1 p' s2 :
      reaches w s p s1 -> step w p s1 = (Ok p', s2) -> reaches w s p' s2.

(** The number of sub-steps from a point on. *)
Definition remaining (p : point) : nat :=
  match p with
  | PFlush => 8
  | PSync => 7
  | PStat => 6
  | PRewindHash _ => 5
  | PHash _ => 4
  | PRewindUpload _ _ => 3
  | PUpsert _ _ => 2
  | PUpload _ _ _ => 1
  | PDone => 0
  end%nat.

Definition is_done (p : point) : bool :=
  match p with
  | PDone => true
  | _ => false
  end.

(** The sub-steps from a point on, each error wrapped as [Commit] does. *)
Fixpoint steps (fuel : nat) (w : writer) (p : point) : M wstate unit :=
  match fuel with
  | O => ret tt
  | S fuel' =>
      if is_done p then ret tt
      else p' <- wrap (step_name p) (step w p) ;; steps fuel' w p'
  end.

(** The request of [getEntries] for a page. *)
Definition page_request (listPath : string) (page : Z) : v1.GetDiffEntriesParams :=
  {| v1.GetDiffEntries_Path := Some listPath;
     v1.Page := Some page; v1.PerPage := Some 1 |}.

(** An answer that ends the listing: no 404, no 500 and no entry. *)
Definition last_page (res : v1.GetDiffEntriesResponse) : Prop :=
  v1.GetDiffEntries_JSON404 res = None /\
  v1.GetDiffEntries_JSON500 res = None /\
  (v1.GetDiffEntries_JSON200 res = None \/
   v1.GetDiffEntries_JSON200 res = Some []).

(** An answer carrying the entries [es], of which there is one at least. *)
Definition full_page (res : v1.GetDiffEntriesResponse)
    (es : list v1.Releaseentry) : Prop :=
  v1.GetDiffEntries_JSON404 res = None /\
  v1.GetDiffEntries_JSON500 res = None /\
  v1.GetDiffEntries_JSON200 res = Some es /\ es <> [].

(** [serves b p page r pages r']: asked for the pages of [p] from [page] on,
    each page one after the one before as the loop counts them, the service
    in state [r] answers with the non-empty [pages], then with a page that
    ends the listing, and is left in state [r']. *)
Inductive serves (bucketID listPath : string)
    : Z -> R -> list (list v1.Releaseentry) -> R -> Prop :=
  | serves_last page r res r' :
      v1.GetDiffEntriesWithResponse bucketID (page_request listPath page) r
        = (Ok res, r') ->
      last_page res ->
      serves bucketID listPath page r [] r'
  | serves_page page r res r1 es pages r' :
      v1.GetDiffEntriesWithResponse bucketID (page_request listPath page) r
        = (Ok res, r1) ->
      full_page res es ->
      serves bucketID listPath (wrap64 (page + 1)) r1 pages r' ->
      serves bucketID listPath page r (es :: pages) r'.

(** The service confirmed a deletion: no error body and the status 204. *)
Definition deletion_confirmed (res : v1.DeleteEntryResponse) : Prop :=
  v1.DeleteEntry_JSON500 res = None /\
  v1.StatusCode (v1.DeleteEntry_HTTPResponse res) = 204.

(** The answer [out] to a deletion is a failure, reported as [err]: a
    transport error, an error body with its reason, or a status other than
    204. *)
Definition deletion_failure (out : outcome v1.DeleteEntryResponse)
    (err : error) : Prop :=
  out = Err err \/
  (exists res b reason,
     out = Ok res /\ v1.DeleteEntry_JSON500 res = Some b /\
     v1.Reason b = Some reason /\ err = UnexpectedError reason) \/
  (exists res,
     out = Ok res /\ v1.DeleteEntry_JSON500 res = None /\
     v1.StatusCode (v1.DeleteEntry_HTTPResponse res) <> 204 /\
     err = UnexpectedResponse (v1.StatusCode (v1.DeleteEntry_HTTPResponse res))).

(** [deletes b r es r']: asked to delete the entries [es] one after the
    other, the service in state [r] confirms each deletion and is left in
    state [r']. *)
Inductive deletes (bucketID : string)
    : R -> list v1.Releaseentry -> R -> Prop :=
  | deletes_nil r : deletes bucketID r [] r
  | deletes_cons r e id res r1 es r' :
      v1.Releaseentry_Entryid e = Some id ->
      v1.DeleteEntryWithResponse bucketID id r = (Ok res, r1) ->
      deletion_confirmed res ->
      deletes bucketID r1 es r' ->
      deletes bucketID r (e :: es) r'.

(** [tail_state fd σ data]: the handle [fd] is open on a file holding [data]
    and stands at its end. *)
Definition tail_state (fd : nat) (σ : world) (data : list byte) : Prop :=
  exists f, fds σ !! fd = Some f /\ fclosed f = false /\
            file_data σ (fino f) = data /\ fpos f = length data.

(** The writer writes through its buffer to its own handle, the buffer has
    met no error, and the handle stands at the end of [data]. *)
Definition appending (s : wstate) (data : list byte) : Prop :=
  bwr (bw (fst s)) = file (fst s) /\ berr (bw (fst s)) = None /\
  tail_state (file (fst s)) (snd s) data.

(** What a call leaves alone besides the file of the handle: the directory
    and the remote. *)
Definition surroundings (σ : world) : gmap string nat * R :=
  (names σ, net σ).

(** Whether the handle [fd] is closed, when there is such a handle. *)
Definition handle_status (fd : nat) (σ : world) : option bool :=
  fclosed <$> fds σ !! fd.

(** The error the buffer of the writer is stuck with. *)
Definition stuck (s : wstate) : option error := berr (bw (fst s)).

(** [holds fd σ data pos]: the handle [fd] is open at the offset [pos] of a
    file holding [data]. *)
Definition holds (fd : nat) (σ : world) (data : list byte) (pos : nat) : Prop :=
  exists f, fds σ !! fd = Some f /\ fclosed f = false /\
            file_data σ (fino f) = data /\ fpos f = pos.

(** The file [data] after the buffer [b] is flushed at the offset [pos]. *)
Definition flushed (pos : nat) (b data : list byte) : list byte :=
  match b with
  | [] => data
  | _ => write_at pos b data
  end.

(** A writer as [Writer] makes it, on a disk with no failure planned: it is
    not closed, committed or cancelled; it writes through its buffer, which
    met no error, to its own handle, which is open at the offset [pos] of a
    file holding [data]; and its bucket is the one of its context. *)
Definition ready (s : wstate) (data : list byte) (pos : nat) : Prop :=
  terminal (fst s) = false /\
  bwr (bw (fst s)) = file (fst s) /\ berr (bw (fst s)) = None /\
  holds (file (fst s)) (snd s) data pos /\
  plan (snd s) = [] /\
  GetStringValue (ctx (fst s)) "vars.name" = bucket (fst s) /\
  bucket (fst s) <> "".

(** What a sub-step of [Commit] named [name] that ends in [r] without
    success makes [Commit] return. *)
Definition stopped {A} (name : string) (r : outcome A) : outcome unit :=
  match r with
  | Ok _ => Ok tt
  | Err e => Err (WrapError name e)
  | Panic msg => Panic msg
  | OutOfFuel => OutOfFuel
  end.

(** The error of an operation whose context names no bucket. *)
Definition no_bucket : error :=
  ErrorString "could not determine bucket ID from context".

End Vocabulary.

(** * Properties *)

(** ** The digest *)

Example md5_hex_empty : md5_hex [] = "d41d8cd98f00b204e9800998ecf8427e"%string.
Proof. vm_compute. reflexivity. Qed.

Example md5_hex_abc :
  md5_hex [x61; x62; x63] = "900150983cd24fb0d6963f7d28e17f72"%string.
Proof. vm_compute. reflexivity. Qed.

Example md5_hex_two_blocks :
  md5_hex (replicate 70 x61) = "0f5c6c4e740bfcc08c3c26ccb2673d46"%string.
Proof. vm_compute. reflexivity. Qed.

(** ** Calls that leave the directory alone *)


Create HintDb keeps.

Section Keeps.
Context {S B : Type} (P : S -> B).

Lemma keeps_ret {A} (a : A) : keeps P (ret a).
Proof. intros s; reflexivity. Qed.

Lemma keeps_fail {A} e : keeps P (@fail S A e).
Proof. intros s; reflexivity. Qed.

Lemma keeps_panic {A} msg : keeps P (@panic S A msg).
Proof. intros s; reflexivity. Qed.

Lemma keeps_deref {A} (p : option A) : keeps P (@deref S A p).
Proof. destruct p; intros s; reflexivity. Qed.

Lemma keeps_bind {A C} (c : M S A) (k : A -> M S C) :
  keeps P c -> (forall a, keeps P (k a)) -> keeps P (bind c k).
Proof.
  intros Hc Hk s. unfold bind. specialize (Hc s).
  destruct (c s) as [[a | e | msg |] s']; simpl in *; try assumption.
  rewrite Hk. assumption.
Qed.

Lemma keeps_wrap {A} prefix (c : M S A) : keeps P c -> keeps P (wrap prefix c).
Proof.
  intros Hc s. unfold wrap. specialize (Hc s).
  destruct (c s) as [[a | e | msg |] s']; assumption.
Qed.

Lemma keeps_ignore_error {A} (c : M S A) : keeps P c -> keeps P (ignore_error c).
Proof.
  intros Hc s. unfold ignore_error. specialize (Hc s).
  destruct (c s) as [[a | e | msg |] s']; assumption.
Qed.

Lemma keeps_on_error {A C} (c : M S A) (cleanup : M S C) :
  keeps P c -> keeps P cleanup -> keeps P (on_error c cleanup).
Proof.
  intros Hc Hk s. unfold on_error. specialize (Hc s).
  destruct (c s) as [[a | e | msg |] s']; simpl in *; try assumption.
  rewrite (keeps_bind (ignore_error cleanup) (fun _ => fail e)); [assumption | |].
  - apply keeps_ignore_error, Hk.
  - intros _. apply keeps_fail.
Qed.

Lemma keeps_swallow {A} (c : M S A) (k : A -> M S unit) :
  keeps P c -> (forall a, keeps P (k a)) -> keeps P (swallow c k).
Proof.
  intros Hc Hk s. unfold swallow. specialize (Hc s).
  destruct (c s) as [[a | e | msg |] s']; simpl in *; try assumption.
  rewrite Hk. assumption.
Qed.

End Keeps.

#[export] Hint Resolve keeps_ret keeps_fail keeps_panic keeps_deref keeps_wrap
  keeps_ignore_error keeps_on_error : keeps.
#[export] Hint Extern 2 (keeps _ (bind _ _)) =>
  apply keeps_bind; [ | intros ? ] : keeps.
#[export] Hint Extern 2 (keeps _ (swallow _ _)) =>
  apply keeps_swallow; [ | intros ? ] : keeps.

Section FSFacts.
Context {R : Type}.
Abbreviation world := (World R).

Lemma keeps_names_syscall : keeps (@names R) syscall.
Proof.
  intros σ. unfold syscall, next_fault.
  destruct (plan σ) as [| [f |] rest]; reflexivity.
Qed.

Lemma keeps_net_syscall : keeps (@net R) syscall.
Proof.
  intros σ. unfold syscall, next_fault.
  destruct (plan σ) as [| [f |] rest]; reflexivity.
Qed.

Lemma keeps_names_open_file fd : keeps (@names R) (open_file fd).
Proof.
  intros σ. unfold open_file.
  destruct (fds σ !! fd) as [f |]; [destruct (fclosed f) |]; reflexivity.
Qed.

Lemma keeps_net_open_file fd : keeps (@net R) (open_file fd).
Proof.
  intros σ. unfold open_file.
  destruct (fds σ !! fd) as [f |]; [destruct (fclosed f) |]; reflexivity.
Qed.

Lemma keeps_names_set_pos fd f pos : keeps (@names R) (set_pos fd f pos).
Proof. intros σ; reflexivity. Qed.

Lemma keeps_net_set_pos fd f pos : keeps (@net R) (set_pos fd f pos).
Proof. intros σ; reflexivity. Qed.

Lemma keeps_names_set_data ino data : keeps (@names R) (set_data ino data).
Proof. intros σ; reflexivity. Qed.

Lemma keeps_net_set_data ino data : keeps (@net R) (set_data ino data).
Proof. intros σ; reflexivity. Qed.

End FSFacts.

#[export] Hint Resolve keeps_names_syscall keeps_net_syscall
  keeps_names_open_file keeps_net_open_file keeps_names_set_pos
  keeps_net_set_pos keeps_names_set_data keeps_net_set_data : keeps.

Section FSFacts2.
Context {R : Type}.
Abbreviation world := (World R).

Lemma keeps_names_file_Sync fd : keeps (@names R) (file_Sync fd).
Proof. unfold file_Sync. eauto with keeps. Qed.

Lemma keeps_names_file_Close fd : keeps (@names R) (file_Close fd).
Proof.
  unfold file_Close. apply keeps_bind; [eauto with keeps | intros f].
  apply keeps_bind; [| eauto with keeps]. intros σ; reflexivity.
Qed.

Lemma keeps_names_file_Stat fd : keeps (@names R) (file_Stat fd).
Proof.
  unfold file_Stat. apply keeps_bind; [eauto with keeps | intros f].
  apply keeps_bind; [eauto with keeps | intros _]. intros σ; reflexivity.
Qed.

Lemma keeps_names_file_Seek fd offset whence :
  keeps (@names R) (file_Seek fd offset whence).
Proof.
  unfold file_Seek. apply keeps_bind; [eauto with keeps | intros f].
  apply keeps_bind; [eauto with keeps | intros _]. intros σ.
  destruct (_ <? 0); reflexivity.
Qed.

Lemma keeps_names_file_ReadAll fd : keeps (@names R) (file_ReadAll fd).
Proof.
  unfold file_ReadAll. apply keeps_bind; [eauto with keeps | intros f].
  intros σ. unfold next_fault.
  destruct (plan σ) as [| [ft |] rest]; reflexivity.
Qed.

Lemma keeps_names_file_Write fd p (σ : world) :
  names (snd (file_Write fd p σ)) = names σ.
Proof.
  unfold file_Write, open_file.
  destruct (fds σ !! fd) as [f |]; [| reflexivity].
  destruct (fclosed f); [reflexivity |].
  unfold next_fault. destruct (plan σ) as [| [ft |] rest]; reflexivity.
Qed.

Lemma keeps_net_file_Write fd p (σ : world) :
  net (snd (file_Write fd p σ)) = net σ.
Proof.
  unfold file_Write, open_file.
  destruct (fds σ !! fd) as [f |]; [| reflexivity].
  destruct (fclosed f); [reflexivity |].
  unfold next_fault. destruct (plan σ) as [| [ft |] rest]; reflexivity.
Qed.

Lemma keeps_names_bw_Flush b (σ : world) :
  names (snd (bw_Flush b σ)) = names σ.
Proof.
  unfold bw_Flush. destruct (berr b); [reflexivity |].
  destruct (buf b) as [| x l] eqn:Hb; [reflexivity |].
  pose proof (keeps_names_file_Write (bwr b) (x :: l) σ) as H.
  destruct (file_Write (bwr b) (x :: l) σ) as [[n err] σ1]. simpl in H.
  destruct err; [exact H |]. destruct (n <? _)%nat; exact H.
Qed.

End FSFacts2.

#[export] Hint Resolve keeps_names_file_Sync keeps_names_file_Close
  keeps_names_file_Stat keeps_names_file_Seek keeps_names_file_ReadAll : keeps.

(** ** The writer *)

Section WriterFacts.
Context {R : Type} {client : v1.ClientWithResponsesInterface R}.
Abbreviation world := (World R).
Abbreviation wstate := (writer * world)%type.

Lemma keeps_names_remote {A} (c : M R A) : keeps (@names R) (remote c).
Proof. intros σ. unfold remote. destruct (c (net σ)); reflexivity. Qed.

Lemma keeps_names_createOrUpdateEntry ctx b p h n :
  keeps (@names R) (createOrUpdateEntry ctx b p h n).
Proof.
  unfold createOrUpdateEntry.
  apply keeps_bind; [apply keeps_names_remote | intros res].
  destruct (v1.CreateOrUpdate_JSON200 res) as [e |]; [| auto with keeps].
  destruct (v1.Entry_Entryid e); auto with keeps.
Qed.

Lemma keeps_names_uploadContent ctx b id h (content : M world (list byte)) :
  keeps (@names R) content ->
  keeps (@names R) (uploadContent ctx b id h content).
Proof.
  intros Hc. unfold uploadContent.
  apply keeps_bind.
  - apply keeps_bind; [exact Hc | intros body; apply keeps_names_remote].
  - intros res. case_decide; auto with keeps.
Qed.

Lemma keeps_staged_io {A} (c : M world A) :
  keeps (@names R) c -> keeps staged (io c).
Proof.
  intros Hc [w σ]. unfold io, staged. specialize (Hc σ).
  destruct (c σ) as [r σ']. exact Hc.
Qed.

Lemma keeps_writer_io {A} (c : M world A) : keeps (@fst writer world) (io c).
Proof. intros [w σ]. unfold io. destruct (c σ); reflexivity. Qed.

Lemma keeps_flags_io {A} (c : M world A) : keeps flags (io c).
Proof. intros [w σ]. unfold io, flags. destruct (c σ); reflexivity. Qed.

Lemma keeps_staged_flush : keeps (@staged R) flush.
Proof.
  intros [w σ]. unfold flush, staged.
  pose proof (keeps_names_bw_Flush (bw w) σ) as H.
  destruct (bw_Flush (bw w) σ) as [[err b] σ']. exact H.
Qed.

Lemma keeps_flags_flush : keeps (@flags R) flush.
Proof.
  intros [w σ]. unfold flush, flags.
  destruct (bw_Flush (bw w) σ) as [[err b] σ']. reflexivity.
Qed.

Lemma keeps_staged_this : keeps (@staged R) this.
Proof. intros s; reflexivity. Qed.

Lemma keeps_staged_update f : keeps (@staged R) (update f).
Proof. intros [w σ]; reflexivity. Qed.

End WriterFacts.

#[export] Hint Resolve keeps_names_remote keeps_names_createOrUpdateEntry
  keeps_names_uploadContent keeps_staged_io keeps_writer_io keeps_flags_io
  keeps_staged_flush keeps_flags_flush keeps_staged_this keeps_staged_update
  : keeps.

Section CancelFacts.
Context {R : Type} {client : v1.ClientWithResponsesInterface R}.
Abbreviation world := (World R).
Abbreviation wstate := (writer * world)%type.

Lemma file_Close_closes fd (σ : world) :
  handle_closed fd (snd (file_Close fd σ)).
Proof.
  unfold file_Close, bind, open_file, handle_closed.
  destruct (fds σ !! fd) as [f |] eqn:Hfd; simpl.
  - destruct (fclosed f) eqn:Hc; simpl.
    + intros f' Hf'. congruence.
    + unfold syscall, next_fault; simpl.
      destruct (plan σ) as [| [ft |] rest]; simpl;
        intros f'; rewrite lookup_insert_eq; intros [= <-]; reflexivity.
  - intros f' Hf'. congruence.
Qed.

Lemma file_Close_name fd (σ : world) :
  file_Name fd (snd (file_Close fd σ)) = file_Name fd σ.
Proof.
  unfold file_Close, bind, open_file, file_Name.
  destruct (fds σ !! fd) as [f |] eqn:Hfd; simpl.
  - destruct (fclosed f) eqn:Hc; simpl.
    + rewrite Hfd. reflexivity.
    + unfold syscall, next_fault; simpl.
      destruct (plan σ) as [| [ft |] rest]; simpl;
        rewrite lookup_insert_eq; reflexivity.
  - rewrite Hfd. reflexivity.
Qed.

Lemma file_Close_total fd (σ : world) :
  match fst (file_Close fd σ) with
  | Ok _ | Err _ => True
  | _ => False
  end.
Proof.
  unfold file_Close, bind, open_file.
  destruct (fds σ !! fd) as [f |]; simpl; [| exact I].
  destruct (fclosed f); simpl; [exact I |].
  unfold syscall, next_fault; simpl.
  destruct (plan σ) as [| [ft |] rest]; exact I.
Qed.

Lemma os_Remove_outcome name (σ : world) :
  match os_Remove name σ with
  | (Ok _, σ') => names σ' !! name = None /\ is_Some (names σ !! name)
  | (Err e, σ') => names σ' = names σ
  | _ => False
  end.
Proof.
  unfold os_Remove, bind, syscall, next_fault.
  destruct (plan σ) as [| [ft |] rest]; simpl; try reflexivity;
    (destruct (names σ !! name) eqn:Hn; simpl;
     [ split; [apply lookup_delete_eq | eauto] | reflexivity ]).
Qed.

Lemma handle_closed_os_Remove fd name (σ : world) :
  handle_closed fd σ -> handle_closed fd (snd (os_Remove name σ)).
Proof.
  unfold os_Remove, bind, syscall, next_fault, handle_closed.
  destruct (plan σ) as [| [ft |] rest]; simpl; try (intros H; exact H);
    destruct (names σ !! name); simpl; intros H; exact H.
Qed.

(** C8: [Cancel] on a writer that is not closed marks it cancelled, closes
    the file, and removes the staging file.  It returns [nil] when the removal
    succeeds (the file is then gone) and when the removal reports that the
    file does not exist; any other error of the removal is returned. *)
Theorem Cancel_removes_staging_file (w : writer) (σ : world) :
  closed w = false ->
  let name := file_Name (file w) σ in
  let σc := snd (file_Close (file w) σ) in
  let r := fst (Cancel (w, σ)) in
  let w' := fst (snd (Cancel (w, σ))) in
  let σ' := snd (snd (Cancel (w, σ))) in
  w' = set_cancelled w true /\
  cancelled w' = true /\
  handle_closed (file w) σ' /\
  σ' = snd (os_Remove name σc) /\
  match fst (os_Remove name σc) with
  | Ok _ => r = Ok tt /\ names σ' !! name = None
  | Err e => if IsNotExist e then r = Ok tt else r = Err e
  | _ => False
  end /\
  (forall e, r = Err e -> IsNotExist e = false).
Proof.
  intros Hclosed. cbv zeta.
  unfold Cancel, this, bind. cbn [fst snd]. rewrite Hclosed.
  unfold update, ignore_error, io, tolerate.
  pose proof (file_Close_closes (file w) σ) as Hcl.
  pose proof (file_Close_name (file w) σ) as Hname.
  pose proof (file_Close_total (file w) σ) as Htot.
  destruct (file_Close (file w) σ) as [rc σc] eqn:Hc. cbn [fst snd] in *.
  assert (Hrm := os_Remove_outcome (file_Name (file w) σ) σc).
  assert (Hcl' := handle_closed_os_Remove (file w) (file_Name (file w) σ) σc Hcl).
  destruct rc as [[] | ec | |]; try contradiction; cbn [fst snd];
    rewrite Hname;
    destruct (os_Remove (file_Name (file w) σ) σc) as [[[] | e | |] σ'];
    try contradiction; cbn [fst snd] in *;
    try (destruct (IsNotExist e) eqn:He; cbn [fst snd]);
    repeat split; try assumption; try reflexivity; try (apply Hrm);
    intros e0; congruence.
Qed.

End CancelFacts.

(** ** Terminal states of the writer *)

Section TerminalFacts.
Context {R : Type} {client : v1.ClientWithResponsesInterface R}.
Abbreviation world := (World R).
Abbreviation wstate := (writer * world)%type.

Lemma keeps_writerproj_io {A B} (f : writer -> B) (c : M world A) :
  keeps (fun s : wstate => f (fst s)) (io c).
Proof. intros [w σ]. unfold io. destruct (c σ); reflexivity. Qed.

Lemma keeps_writerproj_flush {B} (f : writer -> B) :
  (forall w b, f (set_bw w b) = f w) ->
  keeps (fun s : wstate => f (fst s)) flush.
Proof.
  intros Hf [w σ]. unfold flush.
  destruct (bw_Flush (bw w) σ) as [[err b] σ']. apply Hf.
Qed.

Lemma keeps_writerproj_this {B} (f : wstate -> B) : keeps f this.
Proof. intros s; reflexivity. Qed.

Lemma keeps_writerproj_update {B} (f : writer -> B) g :
  (forall w, f (g w) = f w) ->
  keeps (fun s : wstate => f (fst s)) (update g).
Proof. intros Hf [w σ]. apply Hf. Qed.

Lemma keeps_tolerate {S A B} (P : S -> B) pardon (c : M S A) :
  keeps P c -> keeps P (tolerate pardon c).
Proof.
  intros Hc s. unfold tolerate. specialize (Hc s).
  destruct (c s) as [[a | e | msg |] s']; try assumption.
  destruct (pardon e); assumption.
Qed.

Lemma Commit_keeps_closed_cancelled : keeps closed_cancelled (@Commit R client).
Proof.
  unfold Commit, closed_cancelled.
  apply keeps_bind; [apply keeps_writerproj_this | intros w].
  destruct (closed w); [apply keeps_fail |].
  destruct (committed w); [apply keeps_fail |].
  destruct (cancelled w); [apply keeps_fail |].
  repeat first
    [ apply keeps_bind; [| intros ?]
    | apply keeps_wrap
    | apply (keeps_writerproj_io (fun w => (closed w, cancelled w)))
    | apply (keeps_writerproj_flush (fun w => (closed w, cancelled w))); reflexivity
    | apply (keeps_writerproj_update (fun w => (closed w, cancelled w))); reflexivity ].
Qed.

Lemma Close_keeps_committed_cancelled : keeps committed_cancelled (@Close R).
Proof.
  unfold Close, committed_cancelled.
  apply keeps_bind; [apply keeps_writerproj_this | intros w].
  destruct (closed w); [apply keeps_fail |].
  repeat first
    [ apply keeps_bind; [| intros ?]
    | apply (keeps_writerproj_io (fun w => (committed w, cancelled w)))
    | apply (keeps_writerproj_flush (fun w => (committed w, cancelled w))); reflexivity
    | apply (keeps_writerproj_update (fun w => (committed w, cancelled w))); reflexivity ].
Qed.

Lemma Cancel_writer (w : writer) (σ : world) :
  closed w = false -> fst (snd (Cancel (w, σ))) = set_cancelled w true.
Proof.
  intros Hc. unfold Cancel, this, bind. cbn [fst snd]. rewrite Hc.
  unfold update, ignore_error, io, tolerate.
  destruct (file_Close (file w) σ) as [[[] | ec | |] σc]; try reflexivity;
    destruct (os_Remove _ σc) as [[[] | e | |] σ']; try reflexivity;
    destruct (IsNotExist e); reflexivity.
Qed.

Lemma Write_flags p (s : wstate) : flags (snd (Write p s)) = flags s.
Proof.
  destruct s as [w σ]. unfold Write, flags.
  destruct (closed w) eqn:H1; [cbn; rewrite H1; reflexivity |].
  destruct (committed w) eqn:H2; [cbn; rewrite H1, H2; reflexivity |].
  destruct (cancelled w) eqn:H3; [cbn; rewrite H1, H2, H3; reflexivity |].
  destruct (bw_Write (bw w) p σ) as [[[n err] b] σ']. cbn.
  rewrite H1, H2, H3. reflexivity.
Qed.

(** The guards: a call refused leaves the writer and the world as they
    are. *)
Lemma Write_refused p (s : wstate) :
  terminal (fst s) = true -> exists e, Write p s = ((0, Some e), s).
Proof.
  destruct s as [w σ]. unfold terminal, Write. cbn [fst].
  destruct (closed w); [eauto |].
  destruct (committed w); [eauto |].
  destruct (cancelled w); [eauto |]. discriminate.
Qed.

Lemma Commit_refused (s : wstate) :
  terminal (fst s) = true -> exists e, Commit s = (Err e, s).
Proof.
  destruct s as [w σ]. unfold terminal, Commit, this, bind. cbn [fst].
  destruct (closed w); [unfold fail; eauto |].
  destruct (committed w); [unfold fail; eauto |].
  destruct (cancelled w); [unfold fail; eauto |]. discriminate.
Qed.

Lemma Cancel_refused (s : wstate) :
  closed (fst s) = true -> exists e, Cancel s = (Err e, s).
Proof.
  destruct s as [w σ]. unfold Cancel, this, bind. cbn [fst].
  intros ->. unfold fail; eauto.
Qed.

Lemma Close_refused (s : wstate) :
  closed (fst s) = true -> exists e, Close s = (Err e, s).
Proof.
  destruct s as [w σ]. unfold Close, this, bind. cbn [fst].
  intros ->. unfold fail; eauto.
Qed.

(** What one call does to the flags. *)
Lemma call_flags (op : Op) (s : wstate) :
  let s' := snd (call op s) in
  (closed (fst s) = true -> closed (fst s') = true) /\
  (committed (fst s) = true -> committed (fst s') = true) /\
  (cancelled (fst s) = true ->
     cancelled (fst s') = true /\ committed (fst s') = committed (fst s)).
Proof.
  destruct op as [p | | |]; cbn zeta; unfold call.
  - pose proof (Write_flags p s) as H. destruct (Write p s) as [[n err] s'].
    cbn [snd] in *. unfold flags in H. injection H as H1 H2 H3.
    rewrite H1, H2, H3. auto.
  - pose proof (Close_keeps_committed_cancelled s) as H.
    unfold committed_cancelled in H. injection H as H2 H3.
    rewrite H2, H3. repeat split; auto.
    intros Hc. destruct (Close_refused s Hc) as [e ->]. exact Hc.
  - destruct (closed (fst s)) eqn:Hc.
    + destruct (Cancel_refused s Hc) as [e ->]. cbn [snd]. auto.
    + destruct s as [w σ]. cbn [fst] in *.
      rewrite (Cancel_writer w σ Hc). cbn. repeat split; intros; congruence.
  - pose proof (Commit_keeps_closed_cancelled s) as H.
    unfold closed_cancelled in H. injection H as H1 H3.
    rewrite H1, H3. split; [auto |].
    assert (Hterm : committed (fst s) = true \/ cancelled (fst s) = true ->
                    snd (Commit s) = s).
    { intros Ht. destruct (Commit_refused s) as [e ->]; [| reflexivity].
      unfold terminal. destruct Ht as [-> | ->];
        rewrite ?orb_true_r; reflexivity. }
    split; intros Hx; rewrite Hterm by auto; auto.
Qed.

(** C1: the flags of a writer never fall back; a cancelled writer is never
    committed afterwards; once the writer is closed, committed or cancelled,
    [Write] and [Commit] return an error and leave the writer, the local
    files and the remote service as they are; once it is closed, so do
    [Cancel] and [Close]. *)
Theorem writer_terminal_states (ops : list Op) (s : wstate) :
  let s' := run ops s in
  (closed (fst s) = true -> closed (fst s') = true) /\
  (committed (fst s) = true -> committed (fst s') = true) /\
  (cancelled (fst s) = true ->
     cancelled (fst s') = true /\ committed (fst s') = committed (fst s)) /\
  (terminal (fst s') = true ->
     (forall p, exists e, Write p s' = ((0, Some e), s')) /\
     (exists e, Commit s' = (Err e, s'))) /\
  (closed (fst s') = true ->
     (exists e, Cancel s' = (Err e, s')) /\
     (exists e, Close s' = (Err e, s'))).
Proof.
  cbn zeta.
  assert (Hflags :
    (closed (fst s) = true -> closed (fst (run ops s)) = true) /\
    (committed (fst s) = true -> committed (fst (run ops s)) = true) /\
    (cancelled (fst s) = true ->
       cancelled (fst (run ops s)) = true /\
       committed (fst (run ops s)) = committed (fst s))).
  { revert s. induction ops as [| op ops IH]; intros s; [cbn; auto |].
    unfold run in *. cbn [foldl].
    destruct (call_flags op s) as (H1 & H2 & H3).
    destruct (IH (snd (call op s))) as (I1 & I2 & I3).
    split; [auto |]. split; [auto |].
    intros Hc. destruct (H3 Hc) as [H3a H3b].
    destruct (I3 H3a) as [I3a I3b]. split; congruence. }
  destruct Hflags as (H1 & H2 & H3).
  split; [exact H1 |]. split; [exact H2 |]. split; [exact H3 |].
  split; intros Ht.
  - split; [intros p; apply Write_refused | apply Commit_refused]; exact Ht.
  - split; [apply Cancel_refused | apply Close_refused]; exact Ht.
Qed.

End TerminalFacts.

(** ** Commit *)

Section CommitFacts.
Context {R : Type} {client : v1.ClientWithResponsesInterface R}.
Abbreviation world := (World R).
Abbreviation wstate := (writer * world)%type.

Lemma terminal_false (w : writer) :
  terminal w = false ->
  closed w = false /\ committed w = false /\ cancelled w = false.
Proof.
  unfold terminal. destruct (closed w), (committed w), (cancelled w);
    cbn; intros; repeat split; congruence.
Qed.

Lemma bind_ext {S A B} (c : M S A) (k1 k2 : A -> M S B) (s : S) :
  (forall a s', k1 a s' = k2 a s') -> bind c k1 s = bind c k2 s.
Proof.
  intros H. unfold bind. destruct (c s) as [[a | e | msg |] s']; auto.
Qed.

Lemma bind_assoc {S A B C} (c : M S A) (k1 : A -> M S B) (k2 : B -> M S C)
    (s : S) :
  bind (bind c k1) k2 s = bind c (fun a => bind (k1 a) k2) s.
Proof.
  unfold bind. destruct (c s) as [[a | e | msg |] s']; reflexivity.
Qed.

Lemma wrap_bind_ret {S A B C} prefix (c : M S A) (f : A -> B)
    (k : B -> M S C) (s : S) :
  bind (wrap prefix (bind c (fun a => ret (f a)))) k s =
  bind (wrap prefix c) (fun a => k (f a)) s.
Proof.
  unfold bind, wrap, ret. destruct (c s) as [[a | e | msg |] s']; reflexivity.
Qed.

Lemma steps_S (n : nat) (w : writer) (p : point) :
  steps (S n) w p =
  if is_done p then ret tt
  else p' <- wrap (step_name p) (step w p) ;; steps n w p'.
Proof. reflexivity. Qed.

Lemma steps_cons {C} (n : nat) (w : writer) (p : point)
    (K : unit -> M wstate C) (s : wstate) :
  p <> PDone ->
  bind (steps (S n) w p) K s =
  bind (wrap (step_name p) (step w p)) (fun p' => bind (steps n w p') K) s.
Proof.
  intros Hp. rewrite steps_S.
  destruct p; try congruence; cbn [is_done]; apply bind_assoc.
Qed.

(** One sub-step of [Commit] against one unfolding of [steps]. *)
Local Ltac commit_step :=
  intros; rewrite steps_cons by discriminate;
  cbv beta iota delta [step_name step];
  rewrite wrap_bind_ret; apply bind_ext.

(** [Commit] is the sub-steps, then the flag, then the removal. *)
Lemma Commit_steps (w : writer) (σ : world) :
  terminal w = false ->
  Commit (w, σ) =
  (steps 8 w PFlush ;;;
   update (fun w => set_committed w true) ;;;
   io (fun σ => os_Remove (file_Name (file w) σ) σ)) (w, σ).
Proof.
  intros Ht. destruct (terminal_false w Ht) as (H1 & H2 & H3).
  unfold Commit, this. unfold bind at 1. cbn [fst]. rewrite H1, H2, H3.
  generalize (w, σ) as s.
  do 8 commit_step. intros. reflexivity.
Qed.

Lemma step_keeps_flags (w : writer) (p : point) : keeps (@flags R) (step w p).
Proof.
  destruct p; unfold step;
    repeat first
      [ apply keeps_bind; [| intros ?]
      | apply keeps_ret
      | apply keeps_flags_io
      | apply keeps_flags_flush ].
Qed.

Lemma step_keeps_staged (w : writer) (p : point) : keeps (@staged R) (step w p).
Proof.
  destruct p; unfold step;
    repeat first
      [ apply keeps_ret
      | apply keeps_staged_flush
      | apply keeps_staged_io; solve [auto with keeps]
      | apply keeps_bind; [| intros ?] ].
Qed.

Lemma steps_keeps {B} (P : wstate -> B) (w : writer) :
  (forall p, keeps P (step w p)) ->
  forall fuel p, keeps P (steps fuel w p).
Proof.
  intros Hstep fuel. induction fuel as [| fuel IH]; intros p; [apply keeps_ret |].
  rewrite steps_S. destruct (is_done p); [apply keeps_ret |].
  apply keeps_bind; [apply keeps_wrap, Hstep | intros p'; apply IH].
Qed.

Lemma reaches_keeps {B} (P : wstate -> B) (w : writer) (s : wstate) p s1 :
  (forall p, keeps P (step w p)) ->
  reaches w s p s1 -> P s1 = P s.
Proof.
  intros Hstep Hr. induction Hr as [| p s1 p' s2 Hr IH Hs]; [reflexivity |].
  rewrite <- IH. specialize (Hstep p s1). rewrite Hs in Hstep. exact Hstep.
Qed.

(** A sub-step that succeeds leads to the next point. *)
Lemma step_next (w : writer) (p p' : point) (s s' : wstate) :
  step w p s = (Ok p', s') ->
  p <> PDone -> remaining p = S (remaining p').
Proof.
  intros Hs Hp. destruct p; try congruence; unfold step, bind, ret in Hs;
    match type of Hs with
    | context [match ?c ?s with _ => _ end] =>
        destruct (c s) as [[? | ? | ? |] ?]; try discriminate
    end;
    injection Hs as <- _; reflexivity.
Qed.

Lemma step_done (w : writer) (p' : point) (s s' : wstate) :
  step w PDone s = (Ok p', s') -> p' = PDone /\ s' = s.
Proof. unfold step, ret. intros [= <- <-]. auto. Qed.

Lemma steps_step (w : writer) (p p' : point) (s s' : wstate) :
  step w p s = (Ok p', s') ->
  steps (remaining p) w p s = steps (remaining p') w p' s'.
Proof.
  intros Hs.
  destruct (is_done p) eqn:Hd.
  - destruct p; try discriminate.
    apply step_done in Hs as [-> ->]. reflexivity.
  - rewrite (step_next _ _ _ _ _ Hs) by (intros ->; discriminate).
    rewrite steps_S, Hd. unfold bind at 1. unfold wrap. rewrite Hs.
    reflexivity.
Qed.

Lemma steps_reaches (w : writer) (s : wstate) p s1 :
  reaches w s p s1 ->
  steps 8 w PFlush s = steps (remaining p) w p s1.
Proof.
  intros Hr. induction Hr as [| p s1 p' s2 Hr IH Hs]; [reflexivity |].
  rewrite IH. apply steps_step, Hs.
Qed.

Lemma steps_fail (w : writer) (p : point) (s s' : wstate) (e : error) :
  step w p s = (Err e, s') ->
  steps (remaining p) w p s = (Err (WrapError (step_name p) e), s').
Proof.
  intros Hs. destruct (is_done p) eqn:Hd.
  - destruct p; discriminate.
  - assert (Hr : exists n, remaining p = S n)
      by (destruct p; try discriminate; eexists; reflexivity).
    destruct Hr as [n ->]. rewrite steps_S, Hd.
    unfold bind, wrap. rewrite Hs. reflexivity.
Qed.

(** When the sub-steps end well, the run has reached [PDone]; when they end
    with an error, one sub-step returned it. *)
Lemma steps_outcome (w : writer) (s : wstate) :
  forall fuel p s1, remaining p = fuel -> reaches w s p s1 ->
  match steps fuel w p s1 with
  | (Ok _, s8) => reaches w s PDone s8
  | (Err e, s') =>
      exists p' sk e', reaches w s p' sk /\ step w p' sk = (Err e', s') /\
                       e = WrapError (step_name p') e'
  | _ => True
  end.
Proof.
  induction fuel as [| fuel IH]; intros p s1 Hrem Hr.
  - destruct p; try discriminate. exact Hr.
  - assert (Hp : p <> PDone) by (intros ->; discriminate).
    assert (Hd : is_done p = false) by (destruct p; [reflexivity .. | congruence]).
    rewrite steps_S, Hd. unfold bind, wrap.
    destruct (step w p s1) as [[p' | e | msg |] s2] eqn:Hs; try exact I.
    + assert (Hrem' : remaining p' = fuel).
      { pose proof (step_next w p p' s1 s2 Hs Hp). congruence. }
      apply (IH p' s2 Hrem'). eapply reaches_step; eassumption.
    + exists p, s1, e. auto.
Qed.

(** A failing sub-step: the wrapped error, no commit, the directory as it
    was. *)
Lemma Commit_step_fails (w : writer) (σ : world) p s1 s2 e :
  terminal w = false ->
  reaches w (w, σ) p s1 -> step w p s1 = (Err e, s2) ->
  Commit (w, σ) = (Err (WrapError (step_name p) e), s2) /\
  committed (fst s2) = false /\ staged s2 = staged (w, σ).
Proof.
  intros Ht Hr Hs. destruct (terminal_false w Ht) as (H1 & H2 & H3).
  pose proof (Commit_steps w σ Ht) as HC. unfold bind at 1 in HC.
  rewrite HC, (steps_reaches w _ _ _ Hr), (steps_fail w p s1 s2 e Hs).
  split; [reflexivity |].
  pose proof (reaches_keeps flags w _ _ _ (step_keeps_flags w) Hr) as Hc.
  pose proof (reaches_keeps staged w _ _ _ (step_keeps_staged w) Hr) as Hd.
  pose proof (step_keeps_flags w p s1) as Ha.
  pose proof (step_keeps_staged w p s1) as Hb.
  rewrite Hs in Ha, Hb. cbn [snd] in Ha, Hb.
  split; [| congruence].
  unfold flags in Ha, Hc. cbn [fst] in Hc. congruence.
Qed.

(** After the last sub-step [Commit] sets the flag and removes the file. *)
Lemma Commit_steps_done (w : writer) (σ : world) s8 :
  terminal w = false ->
  reaches w (w, σ) PDone s8 ->
  Commit (w, σ) =
  (update (fun w => set_committed w true) ;;;
   io (fun σ => os_Remove (file_Name (file w) σ) σ)) s8.
Proof.
  intros Ht Hr. pose proof (Commit_steps w σ Ht) as HC.
  unfold bind at 1 in HC. rewrite HC, (steps_reaches w _ _ _ Hr).
  reflexivity.
Qed.

(** C2: when a sub-step of [Commit] fails (the flush, the sync, the stat, a
    rewind, the digest, the entry create-or-update or the upload), [Commit]
    returns that error wrapped with the name of the sub-step, the writer is
    not committed and the staging file is not removed.  The writer is
    committed, and the removal of the staging file attempted, only after
    every sub-step succeeded; and a [Commit] that fails without committing
    failed in one of its sub-steps. *)
Theorem Commit_atomic_on_failure (w : writer) (σ : world) :
  terminal w = false ->
  (forall p s1 s2 e,
     reaches w (w, σ) p s1 -> step w p s1 = (Err e, s2) ->
     Commit (w, σ) = (Err (WrapError (step_name p) e), s2) /\
     committed (fst s2) = false /\ staged s2 = staged (w, σ)) /\
  (forall r s', Commit (w, σ) = (r, s') ->
     committed (fst s') = true \/ staged s' <> staged (w, σ) ->
     exists s8, reaches w (w, σ) PDone s8 /\ committed (fst s') = true /\
       (r, snd s') = os_Remove (file_Name (file w) (snd s8)) (snd s8)) /\
  (forall e s', Commit (w, σ) = (Err e, s') -> committed (fst s') = false ->
     exists p s1 e', reaches w (w, σ) p s1 /\ step w p s1 = (Err e', s') /\
       e = WrapError (step_name p) e').
Proof.
  intros Ht. destruct (terminal_false w Ht) as (H1 & H2 & H3).
  pose proof (Commit_steps w σ Ht) as HC. unfold bind at 1 in HC.
  assert (Hfl : forall fuel p s1, reaches w (w, σ) p s1 ->
            committed (fst (snd (steps fuel w p s1))) = false /\
            staged (snd (steps fuel w p s1)) = staged (w, σ)).
  { intros fuel p s1 Hr.
    pose proof (steps_keeps flags w (step_keeps_flags w) fuel p s1) as Ha.
    pose proof (steps_keeps staged w (step_keeps_staged w) fuel p s1) as Hb.
    pose proof (reaches_keeps flags w _ _ _ (step_keeps_flags w) Hr) as Hc.
    pose proof (reaches_keeps staged w _ _ _ (step_keeps_staged w) Hr) as Hd.
    rewrite Hb, Hd. split; [| reflexivity].
    unfold flags in Ha, Hc. cbn [fst] in Hc. congruence. }
  split; [| split].
  - intros p s1 s2 e Hr Hs. apply (Commit_step_fails w σ p s1 s2 e Ht Hr Hs).
  - intros r s' Hcommit Hchanged. rewrite HC in Hcommit.
    pose proof (steps_outcome w (w, σ) 8 PFlush (w, σ) eq_refl
                  (reaches_start w (w, σ))) as Hout.
    specialize (Hfl 8%nat PFlush (w, σ) (reaches_start w (w, σ))).
    destruct (steps 8 w PFlush (w, σ)) as [[[] | e | msg |] [w8 σ8]];
      cbn [fst snd] in Hfl;
      try (injection Hcommit as <- <-; cbn [fst] in Hchanged;
           destruct Hfl as [Hf1 Hf2]; destruct Hchanged; congruence).
    exists (w8, σ8). split; [exact Hout |].
    unfold bind, update, io in Hcommit. cbn [snd].
    destruct (os_Remove (file_Name (file w) σ8) σ8) as [rr σ'].
    destruct rr; injection Hcommit as <- <-; auto.
  - intros e s' Hcommit Hnot. rewrite HC in Hcommit.
    pose proof (steps_outcome w (w, σ) 8 PFlush (w, σ) eq_refl
                  (reaches_start w (w, σ))) as Hout.
    destruct (steps 8 w PFlush (w, σ)) as [[[] | e0 | msg |] [w8 σ8]];
      try discriminate.
    + unfold bind, update, io in Hcommit.
      destruct (os_Remove (file_Name (file w) σ8) σ8) as [rr σ'].
      destruct rr; try discriminate Hcommit;
        injection Hcommit as <- <-; cbn in Hnot; discriminate Hnot.
    + injection Hcommit as <- <-. exact Hout.
Qed.

End CommitFacts.

(** ** Runs of the writer on the reference remote *)

(** C1, as stated, fails: after a [Commit] that succeeded, [Cancel] returns
    no error and sets [cancelled], so that both flags hold; and a second
    [Cancel] succeeds again. *)
Lemma Cancel_after_Commit_succeeds :
  let s0 := Demo.written [] [] in
  let s1 := snd (Commit s0) in
  let s2 := snd (Cancel s1) in
  terminal (fst s0) = false /\
  fst (Commit s0) = Ok tt /\ committed (fst s1) = true /\
  fst (Cancel s1) = Ok tt /\
  committed (fst s2) = true /\ cancelled (fst s2) = true /\
  fst (Cancel s2) = Ok tt.
Proof. vm_compute. repeat split; reflexivity. Qed.

(** The sync of [Commit] fails: the error is wrapped, the writer is not
    committed and the staging file stays. *)
Lemma Commit_atomic_on_failure_witness :
  let s := Demo.written [None; None; None; None; Some Demo.EIO] [] in
  let s1 := snd (flush s) in
  let s2 := snd (io (file_Sync (file (fst s))) s1) in
  Commit s = (Err (WrapError "sync file" (OtherError "input/output error")), s2) /\
  committed (fst s2) = false /\ staged s2 = staged s /\
  is_Some (staged s !! "/tmp/ccd/x/y"%string).
Proof.
  cbv zeta.
  pose (s := Demo.written [None; None; None; None; Some Demo.EIO] []).
  destruct (Commit_atomic_on_failure (fst s) (snd s) eq_refl) as [H _].
  destruct (H PSync (snd (flush s))
              (snd (io (file_Sync (file (fst s))) (snd (flush s))))
              (OtherError "input/output error")) as (H1 & H2 & H3).
  - eapply reaches_step; [apply reaches_start |]. vm_compute. reflexivity.
  - vm_compute. reflexivity.
  - split; [exact H1 |]. split; [exact H2 |]. split; [exact H3 |].
    vm_compute. eexists. reflexivity.
Defined.

(** [Cancel] when the staging file is already gone. *)
Lemma Cancel_removes_staging_file_witness :
  let s := snd (Commit (Demo.written [] [])) in
  closed (fst s) = false /\
  staged s !! "/tmp/ccd/x/y"%string = None /\
  fst (Cancel s) = Ok tt /\
  cancelled (fst (snd (Cancel s))) = true /\
  handle_closed (file (fst s)) (snd (snd (Cancel s))).
Proof.
  cbv zeta.
  pose (s := snd (Commit (Demo.written [] []))).
  destruct (Cancel_removes_staging_file (fst s) (snd s) eq_refl)
    as (_ & H2 & H3 & _ & _ & _).
  split; [vm_compute; reflexivity |]. split; [vm_compute; reflexivity |].
  split; [vm_compute; reflexivity |]. split; [exact H2 | exact H3].
Defined.

(** ** The digest echoed by an upload *)

Section UploadFacts.
Context {R : Type} {client : v1.ClientWithResponsesInterface R}.
Abbreviation world := (World R).
Abbreviation wstate := (writer * world)%type.

Lemma bucketIDFromContext_ok ctx (σ : world) :
  GetStringValue ctx "vars.name" <> "" ->
  bucketIDFromContext ctx σ = (Ok (GetStringValue ctx "vars.name"), σ).
Proof.
  intros Hb. unfold bucketIDFromContext.
  destruct (decide (GetStringValue ctx "vars.name" = "")); [contradiction |].
  reflexivity.
Qed.

(** [uploadContent] once the body is read and the service has answered. *)
Lemma uploadContent_answered ctx b id hash (content : M world (list byte))
    body res (σ σ1 : world) n2 :
  content σ = (Ok body, σ1) ->
  v1.UploadContentWithBodyWithResponse b id contentTypeOctetStream body (net σ1)
    = (Ok res, n2) ->
  uploadContent ctx b id hash content σ =
  (if decide (upload_hash res <> hash)
   then Err (UploadHashMismatch hash (upload_hash res)) else Ok tt,
   set_net σ1 n2).
Proof.
  intros Hc Hu. unfold uploadContent, bind, remote. rewrite Hc, Hu.
  fold (upload_hash res). destruct (decide (upload_hash res <> hash)); reflexivity.
Qed.

(** [PutContent] once the entry is there. *)
Lemma PutContent_upload ctx path content entryID (σ σ1 : world) :
  GetStringValue ctx "vars.name" <> "" ->
  createOrUpdateEntry ctx (GetStringValue ctx "vars.name") path
    (md5_hex content) (Z.of_nat (length content)) σ = (Ok entryID, σ1) ->
  PutContent ctx path content σ =
  uploadContent ctx (GetStringValue ctx "vars.name") entryID (md5_hex content)
    (ret content) σ1.
Proof.
  intros Hb Hc. unfold PutContent. unfold bind at 1.
  rewrite (bucketIDFromContext_ok ctx σ Hb). unfold bind at 1.
  rewrite Hc. reflexivity.
Qed.

(** The upload step of [Commit] is reached through the upsert. *)
Lemma reaches_upload_inv (w : writer) (s s7 : wstate) fi h entryID :
  reaches w s (PUpload fi h entryID) s7 ->
  exists s6, reaches w s (PUpsert fi h) s6 /\
    io (createOrUpdateEntry (ctx w) (bucket w) (path w) (md5_hex h) fi) s6
      = (Ok entryID, s7).
Proof.
  intros Hr. inversion Hr as [| p s6 p' s7' Hr' Hs]; subst.
  exists s6. destruct p; unfold step, bind, ret in Hs;
    match type of Hs with
    | context [match ?c ?s with _ => _ end] =>
        destruct (c s) as [[? | ? | ? |] ?] eqn:Hc; try discriminate
    | _ => try discriminate
    end.
  injection Hs as -> -> -> ->. split; [exact Hr' | exact Hc].
Qed.

(** A successful [createOrUpdateEntry] is an upsert request, sent with the
    digest and the size and answered with the entry. *)
Lemma createOrUpdateEntry_ok ctx b path hash n entryID (σ σ1 : world) :
  createOrUpdateEntry ctx b path hash n σ = (Ok entryID, σ1) ->
  exists res e,
    v1.CreateOrUpdateEntryByPathWithResponse b
      {| v1.CreateOrUpdate_Path := path; v1.UpdateIfExists := Some true |}
      {| v1.ContentSize := n; v1.ContentHash := hash;
         v1.ContentType := Some contentTypeOctetStream |} (net σ)
      = (Ok res, net σ1) /\
    σ1 = set_net σ (net σ1) /\
    v1.CreateOrUpdate_JSON200 res = Some e /\
    v1.Entry_Entryid e = Some entryID.
Proof.
  unfold createOrUpdateEntry, bind, remote.
  destruct (v1.CreateOrUpdateEntryByPathWithResponse _ _ _ (net σ))
    as [[res | ? | ? |] n1] eqn:Hcall; try discriminate.
  destruct (v1.CreateOrUpdate_JSON200 res) as [e |] eqn:H200; try discriminate.
  destruct (v1.Entry_Entryid e) as [id |] eqn:Hid; try discriminate.
  unfold ret. intros [= <- <-]. exists res, e. cbn. auto.
Qed.

(** The upload step of [Commit] with a digest that differs. *)
Lemma Commit_upload_mismatch (w : writer) (σ : world) fi h entryID s7 body σ8
    res n9 :
  terminal w = false ->
  reaches w (w, σ) (PUpload fi h entryID) s7 ->
  file_ReadAll (file w) (snd s7) = (Ok body, σ8) ->
  v1.UploadContentWithBodyWithResponse (bucket w) entryID contentTypeOctetStream
    body (net σ8) = (Ok res, n9) ->
  upload_hash res <> md5_hex h ->
  Commit (w, σ) =
    (Err (WrapError "upload content"
            (UploadHashMismatch (md5_hex h) (upload_hash res))),
     (fst s7, set_net σ8 n9)) /\
  committed (fst s7) = false.
Proof.
  intros Ht Hr Hread Hup Hne.
  assert (Hs : step w (PUpload fi h entryID) s7 =
               (Err (UploadHashMismatch (md5_hex h) (upload_hash res)),
                (fst s7, set_net σ8 n9))).
  { destruct s7 as [w7 σ7]. unfold step, bind, io. cbn [snd] in Hread.
    rewrite (uploadContent_answered _ _ _ _ _ body res σ7 σ8 n9 Hread Hup).
    destruct (decide (upload_hash res <> md5_hex h)); [reflexivity | contradiction]. }
  destruct (Commit_step_fails w σ _ _ _ _ Ht Hr Hs) as (HC & Hcm & _).
  split; [exact HC | exact Hcm].
Qed.

(** The upload step of [Commit] with the digest echoed. *)
Lemma step_upload_match (w : writer) fi h entryID (s7 : wstate) body σ8 res n9 :
  file_ReadAll (file w) (snd s7) = (Ok body, σ8) ->
  v1.UploadContentWithBodyWithResponse (bucket w) entryID contentTypeOctetStream
    body (net σ8) = (Ok res, n9) ->
  upload_hash res = md5_hex h ->
  step w (PUpload fi h entryID) s7 = (Ok PDone, (fst s7, set_net σ8 n9)).
Proof.
  intros Hread Hup Heq. destruct s7 as [w7 σ7]. unfold step, bind, io.
  cbn [snd] in Hread.
  rewrite (uploadContent_answered _ _ _ _ _ body res σ7 σ8 n9 Hread Hup).
  destruct (decide (upload_hash res <> md5_hex h)); [contradiction | reflexivity].
Qed.

(** C3: when the [Upload-Hash] header of the answer to an upload differs
    from the digest computed locally, [uploadContent] fails with the
    hash-mismatch error, and so do [PutContent] and [Commit] (wrapped), the
    writer staying uncommitted; when the header is the digest, the upload
    succeeds. *)
Theorem upload_hash_is_checked :
  (forall ctx b id hash (content : M world (list byte)) body res σ σ1 n2,
     content σ = (Ok body, σ1) ->
     v1.UploadContentWithBodyWithResponse b id contentTypeOctetStream body
       (net σ1) = (Ok res, n2) ->
     (upload_hash res <> hash ->
      uploadContent ctx b id hash content σ =
        (Err (UploadHashMismatch hash (upload_hash res)), set_net σ1 n2)) /\
     (upload_hash res = hash ->
      uploadContent ctx b id hash content σ = (Ok tt, set_net σ1 n2))) /\
  (forall ctx path content entryID res (σ σ1 : world) n2,
     GetStringValue ctx "vars.name" <> "" ->
     createOrUpdateEntry ctx (GetStringValue ctx "vars.name") path
       (md5_hex content) (Z.of_nat (length content)) σ = (Ok entryID, σ1) ->
     v1.UploadContentWithBodyWithResponse (GetStringValue ctx "vars.name")
       entryID contentTypeOctetStream content (net σ1) = (Ok res, n2) ->
     (upload_hash res <> md5_hex content ->
      PutContent ctx path content σ =
        (Err (UploadHashMismatch (md5_hex content) (upload_hash res)),
         set_net σ1 n2)) /\
     (upload_hash res = md5_hex content ->
      PutContent ctx path content σ = (Ok tt, set_net σ1 n2))) /\
  (forall (w : writer) (σ : world) fi h entryID s7 body σ8 res n9,
     terminal w = false ->
     reaches w (w, σ) (PUpload fi h entryID) s7 ->
     file_ReadAll (file w) (snd s7) = (Ok body, σ8) ->
     v1.UploadContentWithBodyWithResponse (bucket w) entryID
       contentTypeOctetStream body (net σ8) = (Ok res, n9) ->
     (upload_hash res <> md5_hex h ->
      Commit (w, σ) =
        (Err (WrapError "upload content"
                (UploadHashMismatch (md5_hex h) (upload_hash res))),
         (fst s7, set_net σ8 n9)) /\
      committed (fst s7) = false) /\
     (upload_hash res = md5_hex h ->
      step w (PUpload fi h entryID) s7 = (Ok PDone, (fst s7, set_net σ8 n9)))).
Proof.
  split; [| split].
  - intros ctx b id hash content body res σ σ1 n2 Hc Hu.
    rewrite (uploadContent_answered ctx b id hash content body res σ σ1 n2 Hc Hu).
    split; intros H; destruct (decide (upload_hash res <> hash));
      try reflexivity; contradiction.
  - intros ctx path content entryID res σ σ1 n2 Hb Hc Hu.
    rewrite (PutContent_upload ctx path content entryID σ σ1 Hb Hc).
    rewrite (uploadContent_answered _ _ _ _ (ret content) content res σ1 σ1 n2
               eq_refl Hu).
    split; intros H; destruct (decide (upload_hash res <> md5_hex content));
      try reflexivity; contradiction.
  - intros w σ fi h entryID s7 body σ8 res n9 Ht Hr Hread Hu. split; intros H.
    + apply (Commit_upload_mismatch w σ fi h entryID s7 body σ8 res n9); assumption.
    + apply (step_upload_match w fi h entryID s7 body σ8 res n9); assumption.
Qed.

(** C10: when the digest check of the upload fails, the entry of the path
    has been created or updated before: the upsert request carried the new
    digest and size and was answered with the entry.  Nothing is undone: the
    remote is left as the answer to the upload left it, and the put or the
    commit returns the mismatch. *)
Theorem failed_upload_keeps_entry :
  (forall ctx path content entryID res (σ σ1 : world) n2,
     GetStringValue ctx "vars.name" <> "" ->
     createOrUpdateEntry ctx (GetStringValue ctx "vars.name") path
       (md5_hex content) (Z.of_nat (length content)) σ = (Ok entryID, σ1) ->
     v1.UploadContentWithBodyWithResponse (GetStringValue ctx "vars.name")
       entryID contentTypeOctetStream content (net σ1) = (Ok res, n2) ->
     upload_hash res <> md5_hex content ->
     (exists ures e,
        v1.CreateOrUpdateEntryByPathWithResponse (GetStringValue ctx "vars.name")
          {| v1.CreateOrUpdate_Path := path; v1.UpdateIfExists := Some true |}
          {| v1.ContentSize := Z.of_nat (length content);
             v1.ContentHash := md5_hex content;
             v1.ContentType := Some contentTypeOctetStream |} (net σ)
          = (Ok ures, net σ1) /\
        v1.CreateOrUpdate_JSON200 ures = Some e /\
        v1.Entry_Entryid e = Some entryID) /\
     exists σ', PutContent ctx path content σ =
                  (Err (UploadHashMismatch (md5_hex content) (upload_hash res)), σ') /\
                net σ' = n2) /\
  (forall (w : writer) (σ : world) fi h entryID s7 body σ8 res n9,
     terminal w = false ->
     reaches w (w, σ) (PUpload fi h entryID) s7 ->
     file_ReadAll (file w) (snd s7) = (Ok body, σ8) ->
     v1.UploadContentWithBodyWithResponse (bucket w) entryID
       contentTypeOctetStream body (net σ8) = (Ok res, n9) ->
     upload_hash res <> md5_hex h ->
     (exists s6 ures e,
        reaches w (w, σ) (PUpsert fi h) s6 /\
        v1.CreateOrUpdateEntryByPathWithResponse (bucket w)
          {| v1.CreateOrUpdate_Path := path w; v1.UpdateIfExists := Some true |}
          {| v1.ContentSize := fi; v1.ContentHash := md5_hex h;
             v1.ContentType := Some contentTypeOctetStream |} (net (snd s6))
          = (Ok ures, net (snd s7)) /\
        v1.CreateOrUpdate_JSON200 ures = Some e /\
        v1.Entry_Entryid e = Some entryID) /\
     exists s', Commit (w, σ) =
                  (Err (WrapError "upload content"
                          (UploadHashMismatch (md5_hex h) (upload_hash res))), s') /\
                net (snd s') = n9 /\ committed (fst s') = false).
Proof.
  split.
  - intros ctx path content entryID res σ σ1 n2 Hb Hc Hu Hne. split.
    + destruct (createOrUpdateEntry_ok _ _ _ _ _ _ _ _ Hc) as (ures & e & H1 & _ & H2 & H3).
      exists ures, e. auto.
    + exists (set_net σ1 n2). split; [| reflexivity].
      rewrite (PutContent_upload ctx path content entryID σ σ1 Hb Hc).
      rewrite (uploadContent_answered _ _ _ _ (ret content) content res σ1 σ1 n2
                 eq_refl Hu).
      destruct (decide (upload_hash res <> md5_hex content));
        [reflexivity | contradiction].
  - intros w σ fi h entryID s7 body σ8 res n9 Ht Hr Hread Hu Hne. split.
    + destruct (reaches_upload_inv w _ _ _ _ _ Hr) as (s6 & Hr6 & Hup).
      destruct s6 as [w6 σ6]. destruct s7 as [w7 σ7]. unfold io in Hup.
      destruct (createOrUpdateEntry (ctx w) (bucket w) (path w) (md5_hex h) fi σ6)
        as [r σ7'] eqn:Hc.
      injection Hup as -> <- ->.
      destruct (createOrUpdateEntry_ok _ _ _ _ _ _ _ _ Hc) as (ures & e & H1 & _ & H2 & H3).
      exists (w6, σ6), ures, e. auto.
    + destruct (Commit_upload_mismatch w σ fi h entryID s7 body σ8 res n9
                  Ht Hr Hread Hu Hne) as [HC Hcm].
      exists (fst s7, set_net σ8 n9). auto.
Qed.

End UploadFacts.

(** A put whose body is corrupted on its way: the put fails with the
    mismatch, and the entry stays with the digest and the size of content
    the service never accepted. *)
Lemma upload_hash_is_checked_witness :
  let σ := Demo.world_with [] [None; Some (Mem.Corrupt [x61; x62; x64])] in
  let content := [x61; x62; x63] in
  fst (PutContent Demo.ctx "x/y" content σ) =
    Err (UploadHashMismatch (md5_hex content) (md5_hex [x61; x62; x64])) /\
  fst (PutContent Demo.ctx "x/y" content (Demo.world_with [] [])) = Ok tt.
Proof.
  cbv zeta.
  destruct (@upload_hash_is_checked Mem.remote Mem.client) as (_ & H & _).
  split.
  - set (σ := Demo.world_with [] [None; Some (Mem.Corrupt [x61; x62; x64])]).
    pose (c := createOrUpdateEntry Demo.ctx "b" "x/y"
                 (md5_hex [x61; x62; x63]) 3 σ).
    pose (u := Mem.UploadContentWithBody "b" "e" contentTypeOctetStream
                 [x61; x62; x63] (net (snd c))).
    destruct (H Demo.ctx "x/y"%string [x61; x62; x63] "e"%string
                {| v1.UploadContent_HTTPResponse :=
                     Mem.http 400 {[ "Upload-Hash"%string :=
                                       [md5_hex [x61; x62; x64]] ]} |}
                σ (snd c) (snd u)) as [Hne _];
      [vm_compute; discriminate | vm_compute; reflexivity
      | vm_compute; reflexivity |].
    rewrite Hne; [vm_compute; reflexivity | vm_compute; discriminate].
  - vm_compute. reflexivity.
Defined.

Lemma failed_upload_keeps_entry_witness :
  let σ := Demo.world_with [] [None; Some (Mem.Corrupt [x61; x62; x64])] in
  let content := [x61; x62; x63] in
  exists σ',
    PutContent Demo.ctx "x/y" content σ =
      (Err (UploadHashMismatch (md5_hex content) (md5_hex [x61; x62; x64])), σ') /\
    Mem.entries (net σ') =
      [{| Mem.e_bucket := "b"; Mem.e_id := "e"; Mem.e_path := "x/y";
          Mem.e_hash := md5_hex content; Mem.e_size := 3;
          Mem.e_content := None |}].
Proof.
  cbv zeta.
  destruct (@failed_upload_keeps_entry Mem.remote Mem.client) as (H & _).
  set (σ := Demo.world_with [] [None; Some (Mem.Corrupt [x61; x62; x64])]).
  pose (c := createOrUpdateEntry Demo.ctx "b" "x/y"
               (md5_hex [x61; x62; x63]) 3 σ).
  pose (u := Mem.UploadContentWithBody "b" "e" contentTypeOctetStream
               [x61; x62; x63] (net (snd c))).
  destruct (H Demo.ctx "x/y"%string [x61; x62; x63] "e"%string
              {| v1.UploadContent_HTTPResponse :=
                   Mem.http 400 {[ "Upload-Hash"%string :=
                                     [md5_hex [x61; x62; x64]] ]} |}
              σ (snd c) (snd u)) as (_ & σ' & HP & Hnet);
    [vm_compute; discriminate | vm_compute; reflexivity
    | vm_compute; reflexivity | vm_compute; discriminate |].
  exists σ'. split.
  - rewrite HP. vm_compute. reflexivity.
  - rewrite Hnet. vm_compute. reflexivity.
Defined.

(** ** Opening a writer *)

Section OpenFacts.
Context {R : Type} {client : v1.ClientWithResponsesInterface R}.
Abbreviation world := (World R).

Lemma keeps_disk_syscall : keeps (@disk R) syscall.
Proof.
  intros σ. unfold syscall, next_fault.
  destruct (plan σ) as [| [f |] rest]; reflexivity.
Qed.

Lemma keeps_disk_open_file fd : keeps (@disk R) (open_file fd).
Proof.
  intros σ. unfold open_file.
  destruct (fds σ !! fd) as [f |]; [destruct (fclosed f) |]; reflexivity.
Qed.

Lemma keeps_disk_file_Close fd : keeps (@disk R) (file_Close fd).
Proof.
  unfold file_Close. apply keeps_bind; [apply keeps_disk_open_file | intros f].
  apply keeps_bind; [| intros _; apply keeps_disk_syscall]. intros σ; reflexivity.
Qed.

Lemma keeps_disk_file_Seek fd offset whence :
  keeps (@disk R) (file_Seek fd offset whence).
Proof.
  unfold file_Seek. apply keeps_bind; [apply keeps_disk_open_file | intros f].
  apply keeps_bind; [apply keeps_disk_syscall | intros _]. intros σ.
  destruct (_ <? 0); reflexivity.
Qed.

Lemma keeps_disk_bucketIDFromContext ctx :
  keeps (@disk R) (bucketIDFromContext ctx).
Proof.
  unfold bucketIDFromContext. case_decide; [apply keeps_fail | apply keeps_ret].
Qed.

Lemma file_at_disk name (σ σ' : world) :
  disk σ' = disk σ -> file_at name σ' = file_at name σ.
Proof.
  unfold disk, file_at, file_data. intros [= Hi Hn]. rewrite Hi, Hn. reflexivity.
Qed.

(** What [os.OpenFile] with [O_CREATE] returns: a fresh open handle at
    offset 0 on the file of that name, created empty when it was missing;
    the files that were there are as they were. *)
Lemma os_OpenFile_ok name fd (σ σ1 : world) :
  os_OpenFile name σ = (Ok fd, σ1) ->
  exists ino,
    names σ1 !! name = Some ino /\
    fds σ1 !! fd = Some {| fname := name; fino := ino; fpos := O; fclosed := false |} /\
    file_data σ1 ino = default [] (file_at name σ) /\
    (forall n, is_Some (names σ !! n) -> file_at n σ1 = file_at n σ).
Proof.
  unfold os_OpenFile, bind. destruct (syscall σ) as [[[] | e | msg |] σ0] eqn:Hsys;
    try discriminate.
  assert (Hd : disk σ0 = disk σ).
  { pose proof (keeps_disk_syscall σ) as H. rewrite Hsys in H. exact H. }
  assert (Hfa : forall n, file_at n σ0 = file_at n σ)
    by (intros n; apply file_at_disk, Hd).
  unfold disk in Hd. injection Hd as Hi Hn. rewrite <- Hn.
  setoid_rewrite <- Hfa. clear Hsys Hfa.
  destruct (names σ0 !! name) as [ino |] eqn:Hname.
  - intros [= <- <-]. exists ino. cbn.
    rewrite lookup_insert_eq. unfold file_at. rewrite Hname. cbn. auto.
  - intros [= <- <-]. exists (fresh (dom (inodes σ0))). cbn.
    rewrite !lookup_insert_eq. unfold file_at, file_data. cbn.
    rewrite Hname, lookup_insert_eq. cbn.
    split; [reflexivity |]. split; [reflexivity |]. split; [reflexivity |].
    intros n [i Hin]. assert (Hne : name <> n) by congruence.
    rewrite lookup_insert_ne by exact Hne. rewrite Hin. cbn. f_equal.
    destruct (decide (fresh (dom (inodes σ0)) = i)) as [<- | Hf].
    + rewrite lookup_insert_eq.
      rewrite (not_elem_of_dom_1 (inodes σ0) _ (is_fresh (dom (inodes σ0)))).
      reflexivity.
    + rewrite lookup_insert_ne by exact Hf. reflexivity.
Qed.

Lemma os_OpenFile_disk_on_error name (σ : world) :
  (forall fd, fst (os_OpenFile name σ) <> Ok fd) ->
  disk (snd (os_OpenFile name σ)) = disk σ.
Proof.
  unfold os_OpenFile, bind, syscall, next_fault.
  destruct (plan σ) as [| [ft |] rest]; cbn [fst snd]; try reflexivity;
    destruct (names _ !! name) as [ino |]; cbn [fst];
    intros H; exfalso; eapply H; reflexivity.
Qed.

Lemma syscall_no_fault (σ : world) : plan σ = [] -> syscall σ = (Ok tt, σ).
Proof. intros H. unfold syscall, next_fault. rewrite H. reflexivity. Qed.

Lemma open_file_open fd f (σ : world) :
  fds σ !! fd = Some f -> fclosed f = false -> open_file fd σ = (Ok f, σ).
Proof. intros H1 H2. unfold open_file. rewrite H1, H2. reflexivity. Qed.

(** [f.Seek(0, io.SeekEnd)] on an open handle: the length of the file. *)
Lemma file_Seek_end_ok fd f n (σ σ1 : world) :
  fds σ !! fd = Some f -> fclosed f = false ->
  file_Seek fd 0 SeekEnd σ = (Ok n, σ1) ->
  n = Z.of_nat (length (file_data σ (fino f))) /\
  disk σ1 = disk σ /\
  fds σ1 !! fd = Some {| fname := fname f; fino := fino f;
                         fpos := length (file_data σ (fino f));
                         fclosed := fclosed f |}.
Proof.
  intros Hfd Hopen. unfold file_Seek. unfold bind at 1.
  rewrite (open_file_open fd f σ Hfd Hopen). unfold bind at 1.
  destruct (syscall σ) as [[[] | e | msg |] σ0] eqn:Hsys; try discriminate.
  assert (Hd : disk σ0 = disk σ).
  { pose proof (keeps_disk_syscall σ) as H. rewrite Hsys in H. exact H. }
  assert (Hdata : file_data σ0 (fino f) = file_data σ (fino f)).
  { unfold disk in Hd. injection Hd as Hi _. unfold file_data. rewrite Hi.
    reflexivity. }
  rewrite Hdata, Z.add_0_r.
  destruct (Z.of_nat _ <? 0) eqn:Hneg; [discriminate |].
  unfold bind, set_pos, ret. intros [= <- <-]. cbn.
  rewrite lookup_insert_eq, Nat2Z.id. auto.
Qed.

(** [f.Truncate(0)] on an open handle: the file is empty. *)
Lemma file_Truncate_ok fd f (σ σ1 : world) :
  fds σ !! fd = Some f -> fclosed f = false ->
  file_Truncate fd 0 σ = (Ok tt, σ1) ->
  file_data σ1 (fino f) = [] /\ names σ1 = names σ /\ fds σ1 = fds σ.
Proof.
  intros Hfd Hopen. unfold file_Truncate. unfold bind at 1.
  rewrite (open_file_open fd f σ Hfd Hopen). unfold bind at 1.
  destruct (syscall σ) as [[[] | e | msg |] σ0] eqn:Hsys; try discriminate.
  unfold set_data. intros [= <-]. unfold file_data. cbn.
  rewrite lookup_insert_eq.
  unfold syscall, next_fault in Hsys.
  destruct (plan σ) as [| [ft |] rest]; try discriminate;
    injection Hsys as <-; auto.
Qed.

(** The calls behind a [Writer] that returned a writer. *)
Lemma Writer_ok_inv T J D ctx dataPath append w (σ σ' : world) :
  Writer T J D ctx dataPath append σ = (Ok w, σ') ->
  exists bucketID σ1 σ2 fd,
    bucketIDFromContext ctx σ = (Ok bucketID, σ) /\
    os_MkdirAll (J [J [T; "ccd"%string]; D dataPath]) σ = (Ok tt, σ1) /\
    os_OpenFile (staging_name T J dataPath) σ1 = (Ok fd, σ2) /\
    if append then
      exists n, file_Seek fd 0 SeekEnd σ2 = (Ok n, σ') /\
                w = newWriter ctx fd n bucketID dataPath
    else
      file_Truncate fd 0 σ2 = (Ok tt, σ') /\
      w = newWriter ctx fd 0 bucketID dataPath.
Proof.
  unfold Writer, staging_name. unfold bind at 1.
  unfold bucketIDFromContext at 1.
  destruct (decide (GetStringValue ctx "vars.name" = "")) as [Hb | Hb];
    [discriminate |].
  unfold ret at 1. unfold bind at 1.
  destruct (os_MkdirAll _ σ) as [[[] | ? | ? |] σ1] eqn:Hmk; try discriminate.
  unfold bind at 1.
  destruct (os_OpenFile _ σ1) as [[fd | ? | ? |] σ2] eqn:Hop; try discriminate.
  intros HW. exists (GetStringValue ctx "vars.name"), σ1, σ2, fd.
  split; [rewrite (bucketIDFromContext_ok ctx σ Hb); reflexivity |].
  split; [first [reflexivity | exact Hmk] |].
  split; [first [reflexivity | exact Hop] |].
  destruct append; unfold on_error, ignore_error, bind, fail, ret in HW.
  - destruct (file_Seek fd 0 SeekEnd σ2) as [[n | ? | ? |] σ3]; try discriminate.
    + injection HW as <- <-. eauto.
    + destruct (file_Close fd σ3) as [[[] | ? | ? |] ?]; discriminate.
  - destruct (file_Truncate fd 0 σ2) as [[[] | ? | ? |] σ3]; try discriminate.
    + injection HW as <- <-. eauto.
    + destruct (file_Close fd σ3) as [[[] | ? | ? |] ?]; discriminate.
Qed.

Lemma os_OpenFile_no_fault name (σ : world) :
  plan σ = [] ->
  exists fd σ1 f,
    os_OpenFile name σ = (Ok fd, σ1) /\ plan σ1 = [] /\
    fds σ1 !! fd = Some f /\ fclosed f = false.
Proof.
  intros Hp. unfold os_OpenFile, bind. rewrite (syscall_no_fault σ Hp).
  destruct (names σ !! name) as [ino |]; eexists _, _, _;
    (split; [reflexivity |]); cbn; rewrite lookup_insert_eq; auto.
Qed.

Lemma file_Seek_end_no_fault fd f (σ : world) :
  plan σ = [] -> fds σ !! fd = Some f -> fclosed f = false ->
  exists n σ1, file_Seek fd 0 SeekEnd σ = (Ok n, σ1).
Proof.
  intros Hp Hfd Hopen. unfold file_Seek. unfold bind at 1.
  rewrite (open_file_open fd f σ Hfd Hopen). unfold bind at 1.
  rewrite (syscall_no_fault σ Hp). rewrite Z.add_0_r.
  destruct (Z.of_nat _ <? 0) eqn:Hneg; [apply Z.ltb_lt in Hneg; lia |].
  unfold bind, set_pos, ret. eauto.
Qed.

Lemma file_Truncate_no_fault fd f (σ : world) :
  plan σ = [] -> fds σ !! fd = Some f -> fclosed f = false ->
  exists σ1, file_Truncate fd 0 σ = (Ok tt, σ1).
Proof.
  intros Hp Hfd Hopen. unfold file_Truncate. unfold bind at 1.
  rewrite (open_file_open fd f σ Hfd Hopen). unfold bind at 1.
  rewrite (syscall_no_fault σ Hp). unfold set_data. eauto.
Qed.

(** With no fault planned and a bucket in the context, [Writer] returns a
    writer. *)
Lemma Writer_total T J D ctx dataPath append (σ : world) :
  plan σ = [] -> GetStringValue ctx "vars.name" <> "" ->
  exists w σ', Writer T J D ctx dataPath append σ = (Ok w, σ').
Proof.
  intros Hp Hb. unfold Writer. unfold bind at 1.
  rewrite (bucketIDFromContext_ok ctx σ Hb). unfold bind at 1.
  unfold os_MkdirAll. rewrite (syscall_no_fault σ Hp). unfold bind at 1.
  destruct (os_OpenFile_no_fault (J [J [T; "ccd"%string]; dataPath]) σ Hp)
    as (fd & σ1 & f & -> & Hp1 & Hfd & Hopen).
  destruct append; unfold on_error, bind, ret.
  - destruct (file_Seek_end_no_fault fd f σ1 Hp1 Hfd Hopen) as (n & σ2 & ->).
    eauto.
  - destruct (file_Truncate_no_fault fd f σ1 Hp1 Hfd Hopen) as (σ2 & ->).
    eauto.
Qed.

(** Opened for appending, [Writer] leaves the files that exist as they are,
    whatever it returns. *)
Lemma Writer_append_keeps_files T J D ctx dataPath (σ : world) n :
  is_Some (names σ !! n) ->
  file_at n (snd (Writer T J D ctx dataPath true σ)) = file_at n σ.
Proof.
  intros Hn. unfold Writer. unfold bind at 1.
  pose proof (keeps_disk_bucketIDFromContext ctx σ) as Hb.
  destruct (bucketIDFromContext ctx σ) as [[b | ? | ? |] σ0]; cbn [snd] in *;
    try (apply file_at_disk, Hb).
  assert (Hn0 : is_Some (names σ0 !! n)).
  { unfold disk in Hb. injection Hb as _ ->. exact Hn. }
  rewrite <- (file_at_disk n σ σ0 Hb). clear Hb Hn.
  unfold bind at 1. unfold os_MkdirAll.
  pose proof (keeps_disk_syscall σ0) as Hm.
  destruct (syscall σ0) as [[[] | ? | ? |] σ1]; cbn [snd] in *;
    try (apply file_at_disk, Hm).
  assert (Hn1 : is_Some (names σ1 !! n)).
  { unfold disk in Hm. injection Hm as _ ->. exact Hn0. }
  rewrite <- (file_at_disk n σ0 σ1 Hm). clear Hm Hn0.
  unfold bind at 1.
  destruct (os_OpenFile _ σ1) as [rf σ2] eqn:Hop.
  assert (Hfile : file_at n σ2 = file_at n σ1).
  { destruct rf as [fd | ? | ? |];
      [ destruct (os_OpenFile_ok _ _ _ _ Hop) as (ino & _ & _ & _ & H); auto
      | apply file_at_disk;
        pose proof (os_OpenFile_disk_on_error
                      (J [J [T; "ccd"%string]; dataPath]) σ1) as H;
        rewrite Hop in H; apply H; intros fd; discriminate .. ]. }
  rewrite <- Hfile.
  destruct rf as [fd | ? | ? |]; try reflexivity.
  apply file_at_disk.
  apply (keeps_bind disk).
  - apply keeps_on_error; [apply keeps_disk_file_Seek | apply keeps_disk_file_Close].
  - intros offset. apply keeps_ret.
Qed.

(** C9: a writer opened with [append = false] starts at size 0 on an empty
    staging file; opened with [append = true] it starts at the length of the
    staging file, whose content is kept and at whose end the handle stands;
    and with [append = true] no file that exists is changed, whatever
    [Writer] returns.  With no fault planned and a bucket in the context,
    [Writer] does return a writer. *)
Theorem Writer_truncates_unless_append T J D (ctx : Context) dataPath
    (σ : world) :
  let name := staging_name T J dataPath in
  let old := default [] (file_at name σ) in
  (forall w σ', Writer T J D ctx dataPath false σ = (Ok w, σ') ->
     Size w = 0 /\ file_at name σ' = Some [] /\
     exists f, fds σ' !! file w = Some f /\ fname f = name /\
               fpos f = O /\ fclosed f = false) /\
  (forall w σ', Writer T J D ctx dataPath true σ = (Ok w, σ') ->
     Size w = Z.of_nat (length old) /\ file_at name σ' = Some old /\
     exists f, fds σ' !! file w = Some f /\ fname f = name /\
               fpos f = length old /\ fclosed f = false) /\
  (forall n, is_Some (names σ !! n) ->
     file_at n (snd (Writer T J D ctx dataPath true σ)) = file_at n σ) /\
  (plan σ = [] -> GetStringValue ctx "vars.name" <> "" ->
   forall append, exists w σ', Writer T J D ctx dataPath append σ = (Ok w, σ')).
Proof.
  cbv zeta. split; [| split; [| split]].
  - intros w σ' HW.
    destruct (Writer_ok_inv _ _ _ _ _ _ _ _ _ HW)
      as (b & σ1 & σ2 & fd & _ & _ & Hop & Htr & ->).
    destruct (os_OpenFile_ok _ _ _ _ Hop) as (ino & Hname & Hfd & _ & _).
    destruct (file_Truncate_ok fd _ σ2 σ' Hfd eq_refl Htr) as (Hdata & Hn & Hf).
    cbn [fino] in Hdata. split; [reflexivity |]. split.
    + unfold file_at. rewrite Hn, Hname. cbn. rewrite Hdata. reflexivity.
    + cbn [file newWriter]. rewrite Hf, Hfd. eauto.
  - intros w σ' HW.
    destruct (Writer_ok_inv _ _ _ _ _ _ _ _ _ HW)
      as (b & σ1 & σ2 & fd & _ & Hmk & Hop & n & Hseek & ->).
    destruct (os_OpenFile_ok _ _ _ _ Hop) as (ino & Hname & Hfd & Hdata & _).
    destruct (file_Seek_end_ok fd _ n σ2 σ' Hfd eq_refl Hseek)
      as (-> & Hdisk & Hfd').
    cbn [fino fname fclosed] in Hfd', Hdata |- *.
    assert (H1 : file_at (staging_name T J dataPath) σ1
                 = file_at (staging_name T J dataPath) σ).
    { apply file_at_disk. pose proof (keeps_disk_syscall σ) as H.
      unfold os_MkdirAll in Hmk. rewrite Hmk in H. exact H. }
    rewrite H1 in Hdata. rewrite Hdata.
    split; [reflexivity |]. split.
    + rewrite (file_at_disk _ σ2 σ' Hdisk). unfold file_at.
      rewrite Hname. cbn. rewrite Hdata. reflexivity.
    + cbn [file newWriter]. rewrite Hfd'. eexists. split; [reflexivity |].
      cbn. rewrite Hdata. auto.
  - intros n Hn. apply Writer_append_keeps_files, Hn.
  - intros Hp Hb append. apply Writer_total; assumption.
Qed.

End OpenFacts.

(** A staging file with three bytes, opened again. *)
Lemma Writer_truncates_unless_append_witness :
  let σ := snd (snd (Close (Demo.written [] []))) in
  let name := "/tmp/ccd/x/y"%string in
  file_at name σ = Some [x61; x62; x63] /\
  Size (fst (Demo.opened true σ)) = 3 /\
  file_at name (snd (Demo.opened true σ)) = Some [x61; x62; x63] /\
  Size (fst (Demo.opened false σ)) = 0 /\
  file_at name (snd (Demo.opened false σ)) = Some [].
Proof.
  cbv zeta.
  set (σ := snd (snd (Close (Demo.written [] [])))).
  destruct (@Writer_truncates_unless_append Mem.remote Mem.tmp Mem.join Mem.dir
              Demo.ctx "x/y"%string σ) as (HA & HB & _).
  destruct (HA (fst (Demo.opened false σ)) (snd (Demo.opened false σ)))
    as (A1 & A2 & _); [vm_compute; reflexivity |].
  destruct (HB (fst (Demo.opened true σ)) (snd (Demo.opened true σ)))
    as (B1 & B2 & _); [vm_compute; reflexivity |].
  split; [vm_compute; reflexivity |].
  split; [refine (eq_trans B1 _); vm_compute; reflexivity |].
  split; [refine (eq_trans B2 _); vm_compute; reflexivity |].
  split; [exact A1 | exact A2].
Defined.

(** ** Listing *)

Section ListingFacts.
Context {R : Type} {client : v1.ClientWithResponsesInterface R}.
Abbreviation world := (World R).

Lemma set_net_set_net (σ : world) r1 r2 : set_net (set_net σ r1) r2 = set_net σ r2.
Proof. reflexivity. Qed.

Lemma getEntries_loop_serves bucketID listPath page r pages r' :
  serves bucketID listPath page r pages r' ->
  forall fuel acc (σ : world), net σ = r -> (length pages < fuel)%nat ->
  getEntries_loop fuel bucketID listPath page acc σ =
    (Ok (acc ++ concat pages), set_net σ r').
Proof.
  induction 1 as [page r res r' Hcall (H404 & H500 & H200)
                 | page r res r1 es pages r' Hcall (H404 & H500 & H200 & Hne) Hs IH];
    intros fuel acc σ Hnet Hfuel.
  - destruct fuel as [| fuel]; [cbn in Hfuel; lia |].
    cbn [getEntries_loop]. unfold bind, remote. rewrite Hnet.
    change {| v1.GetDiffEntries_Path := Some listPath; v1.Page := Some page;
              v1.PerPage := Some 1 |} with (page_request listPath page).
    rewrite Hcall, H404, H500. cbn [concat]. rewrite app_nil_r.
    destruct H200 as [-> | ->]; reflexivity.
  - destruct fuel as [| fuel]; [cbn in Hfuel; lia |].
    cbn [getEntries_loop]. unfold bind at 1. unfold remote. rewrite Hnet.
    change {| v1.GetDiffEntries_Path := Some listPath; v1.Page := Some page;
              v1.PerPage := Some 1 |} with (page_request listPath page).
    rewrite Hcall, H404, H500, H200.
    destruct es as [| e es]; [congruence |].
    rewrite (IH fuel (acc ++ e :: es) (set_net σ r1) eq_refl)
      by (cbn in Hfuel; lia).
    cbn [concat]. rewrite app_assoc. reflexivity.
Qed.

Lemma wrap64_small (z : Z) :
  -9223372036854775808 <= z < 9223372036854775808 -> wrap64 z = z.
Proof.
  intros Hz. unfold wrap64.
  rewrite Z.mod_small by lia. lia.
Qed.

(** C5: [getEntries] asks for the pages of the path without its leading
    slash, from page 1 on; when the service answers with the non-empty pages
    [pages] and then with a page without entries, it returns their
    concatenation, in that order, as many entries as the pages hold.  A 404
    on the first page is [PathNotFoundError]; a first page without entries
    is the empty result. *)
Theorem getEntries_concatenates_pages :
  (forall fuel ctx bucketID listPath pages (σ : world) r',
     serves bucketID (TrimPrefix_slash listPath) 1 (net σ) pages r' ->
     (length pages < fuel)%nat ->
     getEntries fuel ctx bucketID listPath σ = (Ok (concat pages), set_net σ r') /\
     length (concat pages) = sum_list (length <$> pages)) /\
  (forall fuel ctx bucketID listPath (σ : world) res r',
     v1.GetDiffEntriesWithResponse bucketID
       (page_request (TrimPrefix_slash listPath) 1) (net σ) = (Ok res, r') ->
     (v1.GetDiffEntries_JSON404 res <> None ->
      getEntries (S fuel) ctx bucketID listPath σ =
        (Err (PathNotFoundError (TrimPrefix_slash listPath)), set_net σ r')) /\
     (last_page res ->
      getEntries (S fuel) ctx bucketID listPath σ = (Ok [], set_net σ r'))) /\
  (forall s, TrimPrefix_slash (String "/" s) = s) /\
  (forall k, (1 <= k < 9223372036854775807)%Z -> wrap64 (k + 1) = k + 1).
Proof.
  split; [| split; [| split]].
  - intros fuel ctx bucketID listPath pages σ r' Hs Hfuel. split.
    + unfold getEntries.
      apply (getEntries_loop_serves _ _ _ _ _ _ Hs fuel [] σ eq_refl Hfuel).
    + clear. induction pages as [| es pages IH]; [reflexivity |].
      cbn. rewrite length_app, IH. reflexivity.
  - intros fuel ctx bucketID listPath σ res r' Hcall. split.
    + intros H404. unfold getEntries. cbn [getEntries_loop].
      unfold bind, remote.
      change {| v1.GetDiffEntries_Path := Some (TrimPrefix_slash listPath);
                v1.Page := Some 1; v1.PerPage := Some 1 |}
        with (page_request (TrimPrefix_slash listPath) 1).
      rewrite Hcall.
      destruct (v1.GetDiffEntries_JSON404 res); [reflexivity | congruence].
    + intros Hlast. unfold getEntries.
      apply (getEntries_loop_serves bucketID (TrimPrefix_slash listPath) 1
               (net σ) [] r' (serves_last _ _ _ _ _ _ Hcall Hlast)
               (S fuel) [] σ eq_refl).
      cbn. lia.
  - reflexivity.
  - intros k Hk. apply wrap64_small. lia.
Qed.

End ListingFacts.

(** Three objects listed page by page. *)
Lemma getEntries_concatenates_pages_witness :
  fst (getEntries 5 Demo.ctx "b" "/x" Demo.three_objects) =
  Ok [Demo.listed "e" "x/a"; Demo.listed "ee" "x/b"; Demo.listed "eee" "x/c"].
Proof.
  destruct (@getEntries_concatenates_pages Mem.remote Mem.client) as (H & _).
  destruct (H 5%nat Demo.ctx "b"%string "/x"%string
              [[Demo.listed "e" "x/a"]; [Demo.listed "ee" "x/b"];
               [Demo.listed "eee" "x/c"]]
              Demo.three_objects (net Demo.three_objects)) as [HG _].
  - eapply serves_page;
      [vm_compute; reflexivity | repeat split; discriminate |].
    eapply serves_page;
      [vm_compute; reflexivity | repeat split; discriminate |].
    eapply serves_page;
      [vm_compute; reflexivity | repeat split; discriminate |].
    eapply serves_last; [vm_compute; reflexivity |].
    repeat split. right. reflexivity.
  - cbn. lia.
  - rewrite HG. reflexivity.
Defined.

(** ** Delete *)

Section DeleteFacts.
Context {R : Type} {client : v1.ClientWithResponsesInterface R}.
Abbreviation world := (World R).

Lemma set_net_net (σ : world) : set_net σ (net σ) = σ.
Proof. destruct σ; reflexivity. Qed.

(** The deletions confirmed, the loop goes on with the other entries. *)
Lemma Delete_loop_deletes ctx bucketID r es r' :
  deletes bucketID r es r' ->
  forall rest (σ : world), net σ = r ->
  Delete_loop ctx bucketID (es ++ rest) σ =
  Delete_loop ctx bucketID rest (set_net σ r').
Proof.
  induction 1 as [r | r e id res r1 es r' Hid Hcall [H500 Hsc] Hd IH];
    intros rest σ Hnet.
  - rewrite <- Hnet, set_net_net. reflexivity.
  - cbn [app Delete_loop]. rewrite Hid. unfold deref.
    unfold bind at 1. unfold ret at 1.
    unfold bind at 1. unfold remote. rewrite Hnet, Hcall, H500, Hsc.
    destruct (decide (204 <> 204)) as [Hne | _]; [congruence |].
    rewrite (IH rest (set_net σ r1) eq_refl). reflexivity.
Qed.

(** A deletion that fails ends the loop with its error. *)
Lemma Delete_loop_fails ctx bucketID e id rest out r2 err (σ : world) :
  v1.Releaseentry_Entryid e = Some id ->
  v1.DeleteEntryWithResponse bucketID id (net σ) = (out, r2) ->
  deletion_failure out err ->
  Delete_loop ctx bucketID (e :: rest) σ = (Err err, set_net σ r2).
Proof.
  intros Hid Hcall Hfail. cbn [Delete_loop]. rewrite Hid. unfold deref.
  unfold bind at 1. unfold ret at 1. unfold bind at 1. unfold remote.
  rewrite Hcall.
  destruct Hfail as [-> | [(res & b & reason & -> & H500 & Hr & ->)
                          | (res & -> & H500 & Hsc & ->)]].
  - reflexivity.
  - rewrite H500, Hr. reflexivity.
  - rewrite H500.
    destruct (decide (v1.StatusCode (v1.DeleteEntry_HTTPResponse res) <> 204));
      [reflexivity | contradiction].
Qed.

(** The deletion of one entry succeeds exactly when it is confirmed. *)
Lemma Delete_loop_one ctx bucketID e id res r2 (σ : world) :
  v1.Releaseentry_Entryid e = Some id ->
  v1.DeleteEntryWithResponse bucketID id (net σ) = (Ok res, r2) ->
  Delete_loop ctx bucketID [e] σ = (Ok tt, set_net σ r2) <->
  deletion_confirmed res.
Proof.
  intros Hid Hcall. cbn [Delete_loop]. rewrite Hid. unfold deref.
  unfold bind at 1. unfold ret at 1. unfold bind at 1. unfold remote.
  rewrite Hcall. unfold deletion_confirmed.
  destruct (v1.DeleteEntry_JSON500 res) as [b |].
  - split; [| intros [? _]; discriminate].
    unfold bind. destruct (v1.Reason b); cbn; discriminate.
  - destruct (decide (v1.StatusCode (v1.DeleteEntry_HTTPResponse res) <> 204))
      as [Hne | Heq].
    + split; [discriminate | intros [_ ?]; contradiction].
    + split; [| reflexivity]. intros _. split; [reflexivity |].
      destruct (decide (v1.StatusCode (v1.DeleteEntry_HTTPResponse res) = 204));
        [assumption | contradiction].
Qed.

Lemma Delete_entries fuel ctx path (σ : world) :
  GetStringValue ctx "vars.name" <> "" ->
  Delete fuel ctx path σ =
  swallow (getEntries fuel ctx (GetStringValue ctx "vars.name") path)
    (Delete_loop ctx (GetStringValue ctx "vars.name")) σ.
Proof.
  intros Hb. unfold Delete. unfold bind at 1.
  rewrite (bucketIDFromContext_ok ctx σ Hb). reflexivity.
Qed.

(** C7: [Delete] deletes the entries found one by one, by their identifier.
    A deletion counts as done only when confirmed with the status 204; at
    the first deletion that fails [Delete] returns its error and asks for no
    further deletion, the remote staying as that answer left it; and when
    the enumeration fails, [Delete] returns [nil]. *)
Theorem Delete_stops_at_first_failure fuel (ctx : Context) path (σ : world) :
  GetStringValue ctx "vars.name" <> "" ->
  let b := GetStringValue ctx "vars.name" in
  (forall e σ1, getEntries fuel ctx b path σ = (Err e, σ1) ->
     Delete fuel ctx path σ = (Ok tt, σ1)) /\
  (forall es σ1 r', getEntries fuel ctx b path σ = (Ok es, σ1) ->
     deletes b (net σ1) es r' ->
     Delete fuel ctx path σ = (Ok tt, set_net σ1 r')) /\
  (forall done e id rest σ1 r1 out r2 err,
     getEntries fuel ctx b path σ = (Ok (done ++ e :: rest), σ1) ->
     deletes b (net σ1) done r1 ->
     v1.Releaseentry_Entryid e = Some id ->
     v1.DeleteEntryWithResponse b id r1 = (out, r2) ->
     deletion_failure out err ->
     Delete fuel ctx path σ = (Err err, set_net σ1 r2)) /\
  (forall e id res r2 (σ1 : world),
     v1.Releaseentry_Entryid e = Some id ->
     v1.DeleteEntryWithResponse b id (net σ1) = (Ok res, r2) ->
     Delete_loop ctx b [e] σ1 = (Ok tt, set_net σ1 r2) <->
     deletion_confirmed res).
Proof.
  intros Hb. cbv zeta. rewrite (Delete_entries fuel ctx path σ Hb).
  unfold swallow. split; [| split; [| split]].
  - intros e σ1 ->. reflexivity.
  - intros es σ1 r' -> Hd.
    rewrite <- (app_nil_r es).
    rewrite (Delete_loop_deletes ctx _ _ _ _ Hd [] σ1 eq_refl). reflexivity.
  - intros done e id rest σ1 r1 out r2 err -> Hd Hid Hcall Hfail.
    rewrite (Delete_loop_deletes ctx _ _ _ _ Hd (e :: rest) σ1 eq_refl).
    rewrite (Delete_loop_fails ctx _ e id rest out r2 err (set_net σ1 r1)
               Hid Hcall Hfail).
    reflexivity.
  - intros e id res r2 σ1 Hid Hcall. apply (Delete_loop_one ctx _ e id res r2 σ1 Hid Hcall).
Qed.

End DeleteFacts.

(** Of three entries the second deletion fails: the first entry is gone, the
    other two are still there. *)
Lemma Delete_stops_at_first_failure_witness :
  let σ := Demo.with_script Demo.three_objects
             [None; None; None; None; None; Some (Mem.ServerError "boom")] in
  Demo.paths σ = ["x/a"; "x/b"; "x/c"]%string /\
  fst (Delete 5 Demo.ctx "/x" σ) = Err (UnexpectedError "boom") /\
  Demo.paths (snd (Delete 5 Demo.ctx "/x" σ)) = ["x/b"; "x/c"]%string.
Proof.
  cbv zeta.
  set (σ := Demo.with_script Demo.three_objects _).
  assert (Hb : GetStringValue Demo.ctx "vars.name" <> ""%string)
    by (vm_compute; discriminate).
  destruct (@Delete_stops_at_first_failure Mem.remote Mem.client 5%nat Demo.ctx
              "/x"%string σ Hb) as (_ & _ & H & _).
  set (σ1 := snd (getEntries 5 Demo.ctx "b" "/x" σ)).
  set (r1 := snd (Mem.DeleteEntry "b" "e" (net σ1))).
  set (d2 := Mem.DeleteEntry "b" "ee" r1).
  assert (HD := H [Demo.listed "e" "x/a"] (Demo.listed "ee" "x/b") "ee"%string
                  [Demo.listed "eee" "x/c"] σ1 r1
                  (Ok {| v1.DeleteEntry_JSON500 := Some (Mem.error_body "boom");
                         v1.DeleteEntry_HTTPResponse := Mem.http 500 ∅ |})
                  (snd d2) (UnexpectedError "boom")).
  split; [vm_compute; reflexivity |].
  rewrite HD.
  - split; [reflexivity |]. vm_compute. reflexivity.
  - vm_compute. reflexivity.
  - eapply deletes_cons;
      [reflexivity | vm_compute; reflexivity | split; reflexivity
      | apply deletes_nil].
  - reflexivity.
  - vm_compute. reflexivity.
  - right. left. eexists _, _, _.
    split; [reflexivity |]. split; [reflexivity |]. split; reflexivity.
Defined.

(** ** GetContent *)

Section GetContentFacts.
Context {R : Type} {client : v1.ClientWithResponsesInterface R}.
Abbreviation world := (World R).

(** What [getEntryByPath] makes of the answer to the lookup. *)
Lemma getEntryByPath_outcomes ctx bucket path (σ : world) :
  match v1.GetEntryByPathWithResponse bucket
          {| v1.GetEntryByPath_Path := path |} (net σ) with
  | (Err e, r) => getEntryByPath ctx bucket path σ = (Err e, set_net σ r)
  | (Ok res, r) =>
      (v1.GetEntryByPath_JSON404 res <> None ->
       getEntryByPath ctx bucket path σ =
         (Err (PathNotFoundError path), set_net σ r)) /\
      (forall reason,
         v1.GetEntryByPath_JSON404 res = None ->
         v1.GetEntryByPath_JSON500 res = Some {| v1.Reason := Some reason |} ->
         getEntryByPath ctx bucket path σ =
           (Err (UnexpectedError reason), set_net σ r)) /\
      (forall e,
         v1.GetEntryByPath_JSON404 res = None ->
         v1.GetEntryByPath_JSON500 res = None ->
         v1.GetEntryByPath_JSON200 res = Some e ->
         getEntryByPath ctx bucket path σ = (Ok e, set_net σ r))
  | _ => True
  end.
Proof.
  unfold getEntryByPath, bind, remote.
  destruct (v1.GetEntryByPathWithResponse _ _ (net σ)) as [[res | e | msg |] r];
    try exact I; try reflexivity.
  split; [| split].
  - intros H. destruct (v1.GetEntryByPath_JSON404 res); [reflexivity | congruence].
  - intros reason -> ->. reflexivity.
  - intros e -> -> ->. reflexivity.
Qed.

(** [getEntryContent] returns the body of any answer: it looks at no
    status. *)
Lemma getEntryContent_any_status ctx bucket entryID res r (σ : world) :
  v1.GetContentWithResponse bucket entryID (net σ) = (Ok res, r) ->
  getEntryContent ctx bucket entryID σ = (Ok (v1.GetContent_Body res), set_net σ r).
Proof.
  intros H. unfold getEntryContent, bind, remote. rewrite H. reflexivity.
Qed.

Lemma getEntryContent_transport ctx bucket entryID e r (σ : world) :
  v1.GetContentWithResponse bucket entryID (net σ) = (Err e, r) ->
  getEntryContent ctx bucket entryID σ = (Err e, set_net σ r).
Proof.
  intros H. unfold getEntryContent, bind, remote. rewrite H. reflexivity.
Qed.

(** [GetContent] once the bucket is known: the lookup, then the fetch. *)
Lemma GetContent_steps ctx path (σ : world) :
  GetStringValue ctx "vars.name" <> "" ->
  GetContent ctx path σ =
  (entry <- getEntryByPath ctx (GetStringValue ctx "vars.name") path ;;
   entryid <- deref (v1.Entry_Entryid entry) ;;
   getEntryContent ctx (GetStringValue ctx "vars.name") entryid) σ.
Proof.
  intros Hb. unfold GetContent. unfold bind at 1.
  rewrite (bucketIDFromContext_ok ctx σ Hb). reflexivity.
Qed.

End GetContentFacts.

(** C4, where the code departs from it: the lookup finds the entry, the
    service answers the fetch of its content with a 500, and [GetContent]
    returns the body of that answer as the content, without an error. *)
Theorem GetContent_ignores_fetch_status :
  let σ := Demo.with_script Demo.three_objects
             [None; Some (Mem.ServerError "boom")] in
  fst (GetContent Demo.ctx "/x/a" (Demo.with_script σ [])) = Ok [x61] /\
  fst (GetContent Demo.ctx "/x/a" σ) = Ok (String.list_byte_of_string "boom").
Proof. vm_compute. split; reflexivity. Qed.

(** ** Move *)

Section MoveFacts.
Context {R : Type} {client : v1.ClientWithResponsesInterface R}.
Abbreviation world := (World R).

(** [Move] is the read, then the write, then the delete; the first of them
    to fail ends it. *)
Lemma Move_steps fuel ctx src dst (σ : world) :
  (forall e σ1, GetContent ctx src σ = (Err e, σ1) ->
     Move fuel ctx src dst σ = (Err e, σ1)) /\
  (forall c σ1 e σ2,
     GetContent ctx src σ = (Ok c, σ1) ->
     PutContent ctx dst c σ1 = (Err e, σ2) ->
     Move fuel ctx src dst σ = (Err e, σ2)) /\
  (forall c σ1 σ2,
     GetContent ctx src σ = (Ok c, σ1) ->
     PutContent ctx dst c σ1 = (Ok tt, σ2) ->
     Move fuel ctx src dst σ = Delete fuel ctx src σ2).
Proof.
  unfold Move. split; [| split].
  - intros e σ1 H. unfold bind. rewrite H. reflexivity.
  - intros c σ1 e σ2 H1 H2. unfold bind. rewrite H1, H2. reflexivity.
  - intros c σ1 σ2 H1 H2. unfold bind. rewrite H1, H2. reflexivity.
Qed.

(** The loop of [Delete] from its first deletion on. *)
Lemma Delete_loop_first ctx bucketID e rest err (σ σ' : world) :
  Delete_loop ctx bucketID [e] σ = (Err err, σ') ->
  Delete_loop ctx bucketID (e :: rest) σ = (Err err, σ').
Proof.
  cbn [Delete_loop]. unfold bind, deref, ret, fail, panic, remote.
  destruct (v1.Releaseentry_Entryid e) as [id |]; [| intros H; exact H].
  destruct (v1.DeleteEntryWithResponse bucketID id (net σ))
    as [[res | ? | ? |] r]; try (intros H; exact H).
  destruct (v1.DeleteEntry_JSON500 res); [intros H; exact H |].
  destruct (decide (_ <> 204)); [intros H; exact H |].
  discriminate.
Qed.

Lemma keeps_remote {A B} (P : R -> B) (c : M R A) :
  keeps P c -> keeps (fun σ : world => P (net σ)) (remote c).
Proof.
  intros Hc σ. unfold remote. specialize (Hc (net σ)).
  destruct (c (net σ)) as [r n]. exact Hc.
Qed.

End MoveFacts.

(** *** On the reference remote *)

Lemma Mem_keeps_GetEntryByPath b params :
  keeps Mem.entries (Mem.GetEntryByPath b params).
Proof.
  intros r. unfold Mem.GetEntryByPath, Mem.next_disturbance.
  destruct (Mem.script r) as [| [[e | reason | body] |] rest]; cbn;
    try reflexivity;
    destruct (find _ _); reflexivity.
Qed.

Lemma Mem_keeps_GetContent b id : keeps Mem.entries (Mem.GetContent b id).
Proof.
  intros r. unfold Mem.GetContent, Mem.next_disturbance.
  destruct (Mem.script r) as [| [[e | reason | body] |] rest]; cbn;
    try reflexivity;
    destruct (find _ _) as [[? ? ? ? ? [c |]] |]; reflexivity.
Qed.

Lemma Mem_keeps_GetDiffEntries b params :
  keeps Mem.entries (Mem.GetDiffEntries b params).
Proof.
  intros r. unfold Mem.GetDiffEntries, Mem.next_disturbance.
  destruct (Mem.script r) as [| [[e | reason | body] |] rest]; reflexivity.
Qed.

Lemma Mem_keeps_bucketIDFromContext ctx :
  keeps Mem.held (bucketIDFromContext ctx).
Proof.
  unfold bucketIDFromContext. case_decide; [apply keeps_fail | apply keeps_ret].
Qed.

(** A read changes no entry. *)
Lemma Mem_keeps_driver_GetContent ctx path :
  keeps Mem.held (GetContent ctx path).
Proof.
  unfold GetContent.
  apply keeps_bind; [apply Mem_keeps_bucketIDFromContext | intros b].
  apply keeps_bind.
  { unfold getEntryByPath. apply keeps_bind.
    - apply (keeps_remote Mem.entries), Mem_keeps_GetEntryByPath.
    - intros res. destruct (v1.GetEntryByPath_JSON404 res); [apply keeps_fail |].
      destruct (v1.GetEntryByPath_JSON500 res) as [eb |].
      + apply keeps_bind; [apply keeps_deref | intros; apply keeps_fail].
      + destruct (v1.GetEntryByPath_JSON200 res); [apply keeps_ret | apply keeps_fail]. }
  intros entry. apply keeps_bind; [apply keeps_deref | intros id].
  unfold getEntryContent. apply keeps_bind.
  - apply (keeps_remote Mem.entries), Mem_keeps_GetContent.
  - intros res. apply keeps_ret.
Qed.

(** The enumeration changes no entry. *)
Lemma Mem_keeps_getEntries fuel ctx b path :
  keeps Mem.held (getEntries fuel ctx b path).
Proof.
  unfold getEntries. generalize (@nil v1.Releaseentry) as acc. generalize 1 as page.
  induction fuel as [| fuel IH]; intros page acc; [intros σ; reflexivity |].
  cbn [getEntries_loop]. apply keeps_bind.
  - apply (keeps_remote Mem.entries), Mem_keeps_GetDiffEntries.
  - intros res. destruct (v1.GetDiffEntries_JSON404 res); [apply keeps_fail |].
    destruct (v1.GetDiffEntries_JSON500 res) as [eb |].
    + apply keeps_bind; [apply keeps_deref | intros; apply keeps_fail].
    + destruct (v1.GetDiffEntries_JSON200 res) as [[| e es] |];
        [apply keeps_ret | apply IH | apply keeps_ret].
Qed.

(** A deletion the service does not confirm changes no entry. *)
Lemma Mem_failed_deletion_keeps ctx b e err (σ σ' : World Mem.remote) :
  Delete_loop ctx b [e] σ = (Err err, σ') -> Mem.held σ' = Mem.held σ.
Proof.
  cbn [Delete_loop]. unfold bind at 1.
  destruct (v1.Releaseentry_Entryid e) as [id |]; [| discriminate].
  unfold deref, ret. unfold bind at 1. unfold remote. cbn [v1.DeleteEntryWithResponse Mem.client].
  unfold Mem.DeleteEntry, Mem.next_disturbance.
  destruct (Mem.script (net σ)) as [| [[te | reason | body] |] rest]; cbn;
    try (intros [= _ <-]; reflexivity);
    (destruct (find _ _); cbn;
     [ destruct (decide (204 <> 204)); [congruence | discriminate]
     | intros [= _ <-]; reflexivity ]).
Qed.




(** ** bufio *)

Section BufioFacts.
Context {R : Type}.
Abbreviation world := (World R).

(** A write to the file without error took every byte. *)
Lemma file_Write_full fd p n (σ σ' : world) :
  file_Write fd p σ = ((n, None), σ') -> n = length p.
Proof.
  unfold file_Write, open_file.
  destruct (fds σ !! fd) as [f |]; [| discriminate].
  destruct (fclosed f); [discriminate |].
  unfold next_fault. destruct (plan σ) as [| [ft |] rest]; cbn;
    intros [= <- _]; try discriminate; reflexivity.
Qed.

Lemma bw_Write_loop_O (b : BufWriter) p nn (σ : world) :
  bw_Write_loop 0 b p nn σ = (nn, b, p, σ).
Proof. reflexivity. Qed.

Lemma bw_Write_loop_S fuel (b : BufWriter) p nn (σ : world) :
  bw_Write_loop (S fuel) b p nn σ =
  if (Available b <? length p)%nat && bool_decide (berr b = None) then
    match buf b with
    | [] =>
        let '((n, err), σ1) := file_Write (bwr b) p σ in
        bw_Write_loop fuel {| bwr := bwr b; buf := []; berr := err |}
          (drop n p) (nn + n) σ1
    | _ =>
        let n := Available b in
        let '(_, b1, σ1) :=
          bw_Flush {| bwr := bwr b; buf := buf b ++ take n p; berr := berr b |} σ in
        bw_Write_loop fuel b1 (drop n p) (nn + n) σ1
    end
  else (nn, b, p, σ).
Proof. reflexivity. Qed.

Lemma bw_Flush_settles (b : BufWriter) (σ : world) :
  berr b = None ->
  let '(_, b1, _) := bw_Flush b σ in berr b1 <> None \/ buf b1 = [].
Proof.
  intros Hb. unfold bw_Flush. rewrite Hb.
  destruct (buf b) as [| x l] eqn:Hbuf; [right; exact Hbuf |].
  destruct (file_Write (bwr b) (x :: l) σ) as [[n [e |]] σ1];
    [left; discriminate |].
  destruct (n <? length (x :: l))%nat; [left; discriminate | right; reflexivity].
Qed.

(** With an empty buffer the loop writes straight to the file and stops. *)
Lemma bw_Write_loop_direct (b : BufWriter) (p : list byte) (nn : nat)
    (σ : world) (fuel : nat) :
  buf b = [] ->
  let '(_, b1, p1, _) := bw_Write_loop (S fuel) b p nn σ in
  (Available b1 <? length p1)%nat && bool_decide (berr b1 = None) = false.
Proof.
  intros Hbuf. rewrite bw_Write_loop_S.
  destruct ((Available b <? length p)%nat && bool_decide (berr b = None))
    eqn:Hcond; [| exact Hcond].
  rewrite Hbuf.
  destruct (file_Write (bwr b) p σ) as [[n err] σ1] eqn:Hw.
  assert (Hend :
    (Available {| bwr := bwr b; buf := []; berr := err |} <? length (drop n p))%nat
    && bool_decide (berr {| bwr := bwr b; buf := []; berr := err |} = None)
    = false).
  { destruct err as [e |]; cbn [berr].
    - rewrite bool_decide_eq_false_2 by discriminate. apply andb_false_r.
    - apply file_Write_full in Hw as ->. rewrite drop_all.
      apply andb_false_iff. left. apply Nat.ltb_ge. cbn [length]. lia. }
  destruct fuel as [| fuel]; [rewrite bw_Write_loop_O; exact Hend |].
  rewrite bw_Write_loop_S, Hend. exact Hend.
Qed.

(** Two rounds are all the loop of [Write] ever takes: after them it has
    stopped by itself. *)
Lemma bw_Write_loop_settles (b : BufWriter) (p : list byte) (nn : nat)
    (σ : world) :
  let '(_, b1, p1, _) := bw_Write_loop 2 b p nn σ in
  (Available b1 <? length p1)%nat && bool_decide (berr b1 = None) = false.
Proof.
  destruct (buf b) as [| x l] eqn:Hbuf;
    [apply (bw_Write_loop_direct b p nn σ 1%nat Hbuf) |].
  rewrite bw_Write_loop_S.
  destruct ((Available b <? length p)%nat && bool_decide (berr b = None))
    eqn:Hcond; [| exact Hcond].
  rewrite Hbuf. cbv beta iota zeta.
  apply andb_prop in Hcond as [_ Herr]. apply bool_decide_eq_true in Herr.
  pose proof (bw_Flush_settles
                {| bwr := bwr b; buf := (x :: l) ++ take (Available b) p;
                   berr := berr b |} σ Herr) as Hfl.
  destruct (bw_Flush _ σ) as [[r b1] σ1].
  destruct Hfl as [Hfail | Hempty].
  - assert (Hc : (Available b1 <? length (drop (Available b) p))%nat
                 && bool_decide (berr b1 = None) = false)
      by (rewrite (bool_decide_eq_false_2 _ Hfail); apply andb_false_r).
    rewrite bw_Write_loop_S, Hc. exact Hc.
  - apply (bw_Write_loop_direct b1 _ _ σ1 0%nat Hempty).
Qed.

End BufioFacts.

(** * Further properties *)

(** ** Writes through the buffer *)

Section WriteFacts.
Context {R : Type} {client : v1.ClientWithResponsesInterface R}.
Abbreviation world := (World R).
Abbreviation wstate := (writer * world)%type.

Lemma write_at_end (p data : list byte) :
  write_at (length data) p data = data ++ p.
Proof.
  unfold write_at. rewrite firstn_all, Nat.sub_diag.
  rewrite drop_ge by lia. cbn. rewrite app_nil_r. reflexivity.
Qed.

(** A write to the file without error, from the end of the file: the bytes
    are appended and the handle stands at the new end. *)
Lemma file_Write_appends fd p n data (σ σ' : world) :
  tail_state fd σ data ->
  file_Write fd p σ = ((n, None), σ') ->
  n = length p /\ tail_state fd σ' (data ++ p) /\
  surroundings σ' = surroundings σ.
Proof.
  intros (f & Hfd & Hopen & Hdata & Hpos). unfold file_Write, open_file.
  rewrite Hfd, Hopen. unfold next_fault.
  destruct (plan σ) as [| [ft |] rest]; cbn; intros [= <- <-]; try discriminate;
    (split; [reflexivity |]; split; [| reflexivity];
     eexists; cbn; rewrite lookup_insert_eq; split; [reflexivity |];
     cbn; split; [exact Hopen |]; unfold file_data in *; cbn;
     rewrite lookup_insert_eq; cbn; rewrite firstn_all, Hpos, <- Hdata;
     rewrite write_at_end; split; [reflexivity |];
     rewrite length_app; reflexivity).
Qed.

Lemma bw_Flush_appends (b : BufWriter) data (σ σ' : world) b' :
  berr b = None -> tail_state (bwr b) σ data ->
  bw_Flush b σ = (None, b', σ') ->
  b' = {| bwr := bwr b; buf := []; berr := None |} /\
  tail_state (bwr b) σ' (data ++ buf b) /\
  surroundings σ' = surroundings σ.
Proof.
  intros Hb Ht. unfold bw_Flush. rewrite Hb.
  destruct (buf b) as [| x l] eqn:Hbuf.
  - intros [= <- <-]. rewrite app_nil_r.
    split; [destruct b; cbn in *; congruence | auto].
  - destruct (file_Write (bwr b) (x :: l) σ) as [[n [e |]] σ1] eqn:Hw;
      [discriminate |].
    destruct (file_Write_appends _ _ _ _ _ _ Ht Hw) as (-> & Ht' & Hs).
    rewrite Nat.ltb_irrefl. intros [= <- <-]. auto.
Qed.

(** The loop of [Write] stops at once on a writer that met an error. *)
Lemma bw_Write_loop_stuck fuel (b : BufWriter) p nn (σ : world) e :
  berr b = Some e -> bw_Write_loop fuel b p nn σ = (nn, b, p, σ).
Proof.
  intros Hb. destruct fuel as [| fuel]; [reflexivity |].
  rewrite bw_Write_loop_S, Hb.
  rewrite bool_decide_eq_false_2 by discriminate.
  rewrite andb_false_r. reflexivity.
Qed.

(** The loop of [Write], when it ends without error: no byte is lost. *)
Lemma bw_Write_loop_appends fuel :
  forall (b : BufWriter) p nn data (σ : world),
  berr b = None -> tail_state (bwr b) σ data ->
  let '(nn', b1, p1, σ1) := bw_Write_loop fuel b p nn σ in
  berr b1 = None ->
  bwr b1 = bwr b /\
  (exists data1, tail_state (bwr b) σ1 data1 /\
                 data1 ++ buf b1 ++ p1 = data ++ buf b ++ p) /\
  (nn' + length p1 = nn + length p)%nat /\
  surroundings σ1 = surroundings σ.
Proof.
  induction fuel as [| fuel IH]; intros b p nn data σ Hb Ht.
  - rewrite bw_Write_loop_O. intros _. eauto 10.
  - rewrite bw_Write_loop_S.
    destruct ((Available b <? length p)%nat && bool_decide (berr b = None))
      eqn:Hcond; [| intros _; eauto 10].
    apply andb_prop in Hcond as [Hlt _]. apply Nat.ltb_lt in Hlt.
    destruct (buf b) as [| x l] eqn:Hbuf.
    + destruct (file_Write (bwr b) p σ) as [[n err] σ1] eqn:Hw.
      destruct err as [e |].
      * rewrite (bw_Write_loop_stuck fuel
                   {| bwr := bwr b; buf := []; berr := Some e |} _ _ _ e eq_refl).
        discriminate.
      * destruct (file_Write_appends _ _ _ _ _ _ Ht Hw) as (-> & Ht' & Hs).
        specialize (IH {| bwr := bwr b; buf := []; berr := None |}
                      (drop (length p) p) (nn + length p)%nat (data ++ p) σ1
                      eq_refl Ht').
        destruct (bw_Write_loop fuel _ _ _ σ1) as [[[nn' b1] p1] σ2].
        intros Hb1. destruct (IH Hb1) as (Hw1 & (data1 & Ht1 & Hd1) & Hn & Hs1).
        cbn [bwr buf] in *. rewrite drop_all in Hd1, Hn. cbn in Hd1, Hn.
        split; [exact Hw1 |]. split.
        { exists data1. split; [exact Ht1 |]. rewrite Hd1, app_nil_r. reflexivity. }
        split; [lia | congruence].
    + cbv beta iota zeta.
      destruct (bw_Flush {| bwr := bwr b; buf := (x :: l) ++ take (Available b) p;
                            berr := berr b |} σ) as [[r b1] σ1] eqn:Hfl.
      destruct r as [e |].
      * assert (He : berr b1 <> None).
        { unfold bw_Flush in Hfl. cbn [berr buf bwr] in Hfl. rewrite Hb in Hfl.
          cbn [app] in Hfl.
          destruct (file_Write (bwr b) _ σ) as [[n [e' |]] σ0];
            [injection Hfl as _ <- _; discriminate |].
          destruct (n <? _)%nat; [injection Hfl as _ <- _; discriminate | discriminate]. }
        destruct (berr b1) as [e1 |] eqn:Hb1; [| congruence].
        rewrite (bw_Write_loop_stuck fuel _ _ _ _ e1 Hb1). congruence.
      * destruct (bw_Flush_appends
                    {| bwr := bwr b; buf := (x :: l) ++ take (Available b) p;
                       berr := berr b |} data σ σ1 b1 Hb Ht Hfl)
          as (-> & Ht' & Hs).
        cbn [bwr buf] in Ht'.
        specialize (IH {| bwr := bwr b; buf := []; berr := None |}
                      (drop (Available b) p) (nn + Available b)%nat
                      (data ++ (x :: l) ++ take (Available b) p) σ1 eq_refl Ht').
        destruct (bw_Write_loop fuel _ _ _ σ1) as [[[nn' b2] p1] σ2].
        intros Hb2. destruct (IH Hb2) as (Hw1 & (data1 & Ht1 & Hd1) & Hn & Hs1).
        cbn [bwr buf] in *.
        split; [exact Hw1 |]. split.
        { exists data1. split; [exact Ht1 |]. rewrite Hd1.
          cbn [app]. rewrite <- !app_assoc. cbn [app]. rewrite <- !app_assoc.
          rewrite take_drop. reflexivity. }
        split; [| congruence].
        rewrite Hn, length_drop. lia.
Qed.

Lemma file_Write_count fd p (σ : world) :
  (fst (fst (file_Write fd p σ)) <= length p)%nat /\
  surroundings (snd (file_Write fd p σ)) = surroundings σ.
Proof.
  unfold file_Write, open_file.
  destruct (fds σ !! fd) as [f |]; [| cbn; split; [lia | reflexivity]].
  destruct (fclosed f); [cbn; split; [lia | reflexivity] |].
  unfold next_fault. destruct (plan σ) as [| [ft |] rest]; cbn;
    (split; [lia | reflexivity]).
Qed.

Lemma bw_Flush_surroundings (b : BufWriter) (σ : world) :
  bwr (snd (fst (bw_Flush b σ))) = bwr b /\
  surroundings (snd (bw_Flush b σ)) = surroundings σ.
Proof.
  unfold bw_Flush. destruct (berr b); [auto |].
  destruct (buf b) as [| x l]; [auto |].
  pose proof (file_Write_count (bwr b) (x :: l) σ) as [_ Hs].
  destruct (file_Write (bwr b) (x :: l) σ) as [[n [e |]] σ1]; [auto |].
  destruct (n <? _)%nat; auto.
Qed.

(** The loop of [Write] accounts for every byte: those it took and those
    left make up [p]; and it leaves the directory and the remote alone. *)
Lemma bw_Write_loop_count fuel :
  forall (b : BufWriter) p nn (σ : world),
  let '(nn', b1, p1, σ1) := bw_Write_loop fuel b p nn σ in
  (nn' + length p1 = nn + length p)%nat /\ bwr b1 = bwr b /\
  surroundings σ1 = surroundings σ.
Proof.
  induction fuel as [| fuel IH]; intros b p nn σ.
  - rewrite bw_Write_loop_O. auto.
  - rewrite bw_Write_loop_S.
    destruct ((Available b <? length p)%nat && bool_decide (berr b = None))
      eqn:Hcond; [| auto].
    apply andb_prop in Hcond as [Hlt _]. apply Nat.ltb_lt in Hlt.
    destruct (buf b) as [| x l] eqn:Hbuf.
    + pose proof (file_Write_count (bwr b) p σ) as [Hn Hs].
      destruct (file_Write (bwr b) p σ) as [[n err] σ1]. cbn [fst snd] in Hn, Hs.
      specialize (IH {| bwr := bwr b; buf := []; berr := err |} (drop n p)
                    (nn + n)%nat σ1).
      destruct (bw_Write_loop fuel _ _ _ σ1) as [[[nn' b1] p1] σ2].
      destruct IH as (Hc & Hw & Hs1). cbn [bwr] in Hw.
      rewrite length_drop in Hc. split; [lia |]. split; congruence.
    + cbv beta iota zeta.
      pose proof (bw_Flush_surroundings
                    {| bwr := bwr b; buf := (x :: l) ++ take (Available b) p;
                       berr := berr b |} σ) as [Hw0 Hs].
      destruct (bw_Flush _ σ) as [[r b1] σ1]. cbn [fst snd bwr] in Hw0, Hs.
      specialize (IH b1 (drop (Available b) p) (nn + Available b)%nat σ1).
      destruct (bw_Write_loop fuel _ _ _ σ1) as [[[nn' b2] p1] σ2].
      destruct IH as (Hc & Hw & Hs1).
      rewrite length_drop in Hc. split; [lia |]. split; congruence.
Qed.

(** [b.Write(p)]: the count, the error and what is left alone. *)
Lemma bw_Write_count (b : BufWriter) p (σ : world) :
  let '((n, err), b1, σ1) := bw_Write b p σ in
  (n <= length p)%nat /\ (err = None -> n = length p) /\
  err = berr b1 /\ bwr b1 = bwr b /\ surroundings σ1 = surroundings σ.
Proof.
  unfold bw_Write.
  pose proof (bw_Write_loop_count 2 b p 0%nat σ) as H.
  destruct (bw_Write_loop 2 b p 0 σ) as [[[nn b1] p1] σ1].
  destruct H as (Hc & Hw & Hs). cbn in Hc.
  destruct (berr b1) as [e |] eqn:Hb1.
  - split; [lia |]. split; [discriminate |]. auto.
  - split; [lia |]. split; [intros _; lia |]. auto.
Qed.

Lemma set_bw_bw (w : writer) : set_bw w (bw w) = w.
Proof. destruct w; reflexivity. Qed.

(** X1: [Write] on a writer that is open takes at most the bytes it is
    given, all of them when it returns no error; the size grows by the
    count returned; the flags, the directory and the remote are as they
    were. *)
Theorem Write_accounts (p : list byte) (w : writer) (σ : world) :
  terminal w = false ->
  let '((n, err), (w', σ')) := Write p (w, σ) in
  0 <= n <= Z.of_nat (length p) /\
  (err = None -> n = Z.of_nat (length p)) /\
  Size w' = wrap64 (Size w + n) /\
  flags (w', σ') = flags (w, σ) /\
  stuck (w', σ') = err /\
  surroundings σ' = surroundings σ.
Proof.
  intros Ht. destruct (terminal_false w Ht) as (H1 & H2 & H3).
  unfold Write. rewrite H1, H2, H3.
  pose proof (bw_Write_count (bw w) p σ) as H.
  destruct (bw_Write (bw w) p σ) as [[[n err] b1] σ1].
  destruct H as (Hn & Hall & Herr & _ & Hs).
  split; [lia |]. split; [intros He; rewrite (Hall He); reflexivity |].
  split; [reflexivity |]. split; [reflexivity |].
  split; [unfold stuck; cbn; congruence | exact Hs].
Qed.

Lemma Write_fits (p : list byte) (w : writer) (σ : world) :
  terminal w = false -> berr (bw w) = None ->
  (length (buf (bw w)) + length p <= defaultBufSize)%nat ->
  Write p (w, σ) =
    ((Z.of_nat (length p), None),
     (set_size (set_bw w {| bwr := bwr (bw w); buf := buf (bw w) ++ p;
                            berr := None |})
        (wrap64 (size w + Z.of_nat (length p))), σ)).
Proof.
  intros Ht Hb Hfit. destruct (terminal_false w Ht) as (H1 & H2 & H3).
  unfold Write. rewrite H1, H2, H3. unfold bw_Write.
  rewrite bw_Write_loop_S.
  assert (Hcond : (Available (bw w) <? length p)%nat = false)
    by (apply Nat.ltb_ge; unfold Available; lia).
  rewrite Hcond. cbn [andb]. rewrite Hb. reflexivity.
Qed.

(** X2: bytes that fit the buffer are kept there: [Write] returns their
    number without error and makes no system call, so that the world is as
    it was. *)
Theorem Write_buffers (p : list byte) (w : writer) (σ : world) :
  terminal w = false -> berr (bw w) = None ->
  (length (buf (bw w)) + length p <= defaultBufSize)%nat ->
  fst (Write p (w, σ)) = (Z.of_nat (length p), None) /\
  snd (snd (Write p (w, σ))) = σ /\
  buf (bw (fst (snd (Write p (w, σ))))) = buf (bw w) ++ p.
Proof.
  intros Ht Hb Hfit. rewrite (Write_fits p w σ Ht Hb Hfit). cbn. auto.
Qed.

(** X3: on a writer whose handle stands at the end of its file, a [Write]
    without error loses no byte: the file followed by the buffer is what it
    was, followed by [p], and the handle stands at the end again. *)
Theorem Write_appends (p : list byte) (n : Z) (s s' : wstate) (data : list byte) :
  appending s data ->
  Write p s = ((n, None), s') ->
  n = Z.of_nat (length p) /\
  exists data', appending s' data' /\
    data' ++ buf (bw (fst s')) = data ++ buf (bw (fst s)) ++ p.
Proof.
  destruct s as [w σ]. intros (Hbw & Hb & Ht). cbn [fst snd] in *.
  unfold Write.
  destruct (closed w); [discriminate |]. destruct (committed w); [discriminate |].
  destruct (cancelled w); [discriminate |].
  unfold bw_Write.
  rewrite <- Hbw in Ht.
  pose proof (bw_Write_loop_appends 2 (bw w) p 0%nat data σ Hb Ht) as H.
  destruct (bw_Write_loop 2 (bw w) p 0 σ) as [[[nn b1] p1] σ1].
  destruct (berr b1) as [e |] eqn:Hb1; [discriminate |].
  destruct (H eq_refl) as (Hw1 & (data1 & Ht1 & Hd1) & Hc & _).
  intros [= <- <-]. cbn in Hc. split; [f_equal; lia |].
  exists data1. split.
  - unfold appending. cbn. rewrite Hw1. split; [exact Hbw |].
    split; [reflexivity |]. rewrite <- Hbw. exact Ht1.
  - cbn. exact Hd1.
Qed.

End WriteFacts.

(** ** A writer stuck with an error, and [Close] *)

Section StuckFacts.
Context {R : Type} {client : v1.ClientWithResponsesInterface R}.
Abbreviation world := (World R).
Abbreviation wstate := (writer * world)%type.

Lemma flush_stuck (w : writer) (σ : world) e :
  berr (bw w) = Some e -> flush (w, σ) = (Err e, (w, σ)).
Proof.
  intros Hb. unfold flush, bw_Flush. rewrite Hb, set_bw_bw. reflexivity.
Qed.

Lemma Write_stuck p (w : writer) (σ : world) e :
  terminal w = false -> berr (bw w) = Some e ->
  Write p (w, σ) = ((0, Some e), (set_size w (wrap64 (size w + 0)), σ)).
Proof.
  intros Ht Hb. destruct (terminal_false w Ht) as (H1 & H2 & H3).
  unfold Write, bw_Write. rewrite H1, H2, H3.
  rewrite (bw_Write_loop_stuck 2 (bw w) p 0%nat σ e Hb), Hb, set_bw_bw.
  reflexivity.
Qed.

Lemma Close_stuck (w : writer) (σ : world) e :
  closed w = false -> berr (bw w) = Some e -> Close (w, σ) = (Err e, (w, σ)).
Proof.
  intros Hc Hb. unfold Close, this. unfold bind at 1. cbn [fst]. rewrite Hc.
  unfold bind at 1. rewrite (flush_stuck w σ e Hb). reflexivity.
Qed.

Lemma Commit_stuck (w : writer) (σ : world) e :
  terminal w = false -> berr (bw w) = Some e ->
  Commit (w, σ) = (Err (WrapError "flush file" e), (w, σ)).
Proof.
  intros Ht Hb. destruct (terminal_false w Ht) as (H1 & H2 & H3).
  unfold Commit, this. unfold bind at 1. cbn [fst]. rewrite H1, H2, H3.
  unfold bind at 1. unfold wrap at 1. rewrite (flush_stuck w σ e Hb).
  reflexivity.
Qed.

(** The error [Write] returns is the one the buffer is left with. *)
Lemma Write_leaves_error p n err (w : writer) (σ : world) (s : wstate) :
  terminal w = false -> Write p (w, σ) = ((n, err), s) -> stuck s = err.
Proof.
  intros Ht. destruct (terminal_false w Ht) as (H1 & H2 & H3).
  unfold Write. rewrite H1, H2, H3.
  pose proof (bw_Write_count (bw w) p σ) as H.
  destruct (bw_Write (bw w) p σ) as [[[n' err'] b1] σ1].
  destruct H as (_ & _ & Herr & _). intros [= _ <- <-].
  unfold stuck. cbn. congruence.
Qed.

(** No call takes the error away. *)
Lemma call_stuck (op : Op) (s : wstate) e :
  stuck s = Some e -> stuck (snd (call op s)) = Some e.
Proof.
  destruct s as [w σ]. unfold stuck. cbn [fst]. intros Hb.
  destruct (terminal w) eqn:Ht.
  - destruct op as [p | | |]; unfold call.
    + destruct (Write_refused p (w, σ) Ht) as [e' ->]. exact Hb.
    + destruct (closed w) eqn:Hc.
      * destruct (Close_refused (w, σ) Hc) as [e' ->]. exact Hb.
      * rewrite (Close_stuck w σ e Hc Hb). exact Hb.
    + destruct (closed w) eqn:Hc.
      * destruct (Cancel_refused (w, σ) Hc) as [e' ->]. exact Hb.
      * rewrite (Cancel_writer w σ Hc). exact Hb.
    + destruct (Commit_refused (w, σ) Ht) as [e' ->]. exact Hb.
  - destruct (terminal_false w Ht) as (H1 & H2 & H3).
    destruct op as [p | | |]; unfold call.
    + rewrite (Write_stuck p w σ e Ht Hb). exact Hb.
    + rewrite (Close_stuck w σ e H1 Hb). exact Hb.
    + rewrite (Cancel_writer w σ H1). exact Hb.
    + rewrite (Commit_stuck w σ e Ht Hb). exact Hb.
Qed.

(** X4: a [Write] that returns an error leaves the writer stuck with it:
    whatever is called afterwards, as long as the writer is not closed,
    committed or cancelled, every [Write] takes no byte and returns that
    error, [Close] returns it and [Commit] returns it wrapped, and none of
    them changes the world. *)
Theorem Write_error_sticks (p : list byte) (n : Z) (e : error)
    (s0 s : wstate) (ops : list Op) :
  terminal (fst s0) = false ->
  Write p s0 = ((n, Some e), s) ->
  let s' := run ops s in
  stuck s' = Some e /\
  (terminal (fst s') = false ->
   (forall q, fst (Write q s') = (0, Some e) /\ snd (snd (Write q s')) = snd s') /\
   Close s' = (Err e, s') /\
   Commit s' = (Err (WrapError "flush file" e), s')).
Proof.
  intros Ht HW. cbv zeta.
  assert (Hs : stuck s = Some e).
  { destruct s0 as [w0 σ0]. exact (Write_leaves_error p n _ w0 σ0 s Ht HW). }
  clear HW Ht.
  assert (Hrun : stuck (run ops s) = Some e).
  { revert s Hs. induction ops as [| op ops IH]; intros s Hs; [exact Hs |].
    unfold run in *. cbn [foldl]. apply IH, call_stuck, Hs. }
  split; [exact Hrun |].
  destruct (run ops s) as [w σ]. unfold stuck in Hrun. cbn [fst snd] in *.
  intros Ht. destruct (terminal_false w Ht) as (H1 & _ & _).
  split; [| split].
  - intros q. rewrite (Write_stuck q w σ e Ht Hrun). auto.
  - apply Close_stuck; assumption.
  - apply Commit_stuck; assumption.
Qed.

Lemma keeps_surroundings_syscall : keeps (@surroundings R) syscall.
Proof.
  intros σ. unfold syscall, next_fault.
  destruct (plan σ) as [| [f |] rest]; reflexivity.
Qed.

Lemma keeps_surroundings_open_file fd : keeps (@surroundings R) (open_file fd).
Proof.
  intros σ. unfold open_file.
  destruct (fds σ !! fd) as [f |]; [destruct (fclosed f) |]; reflexivity.
Qed.

Lemma keeps_surroundings_file_Sync fd : keeps (@surroundings R) (file_Sync fd).
Proof.
  unfold file_Sync.
  apply keeps_bind; [apply keeps_surroundings_open_file | intros _].
  apply keeps_surroundings_syscall.
Qed.

Lemma keeps_surroundings_file_Close fd : keeps (@surroundings R) (file_Close fd).
Proof.
  unfold file_Close.
  apply keeps_bind; [apply keeps_surroundings_open_file | intros f].
  apply keeps_bind; [| intros _; apply keeps_surroundings_syscall].
  intros σ; reflexivity.
Qed.

Lemma file_Sync_tail fd data (σ σ' : world) :
  tail_state fd σ data -> file_Sync fd σ = (Ok tt, σ') -> tail_state fd σ' data.
Proof.
  intros (f & Hfd & Hopen & Hdata & Hpos). unfold file_Sync, bind.
  rewrite (open_file_open fd f σ Hfd Hopen).
  unfold syscall, next_fault.
  destruct (plan σ) as [| [ft |] rest]; intros [= <-];
    exists f; auto.
Qed.

Lemma file_Close_tail fd data (σ σ' : world) :
  tail_state fd σ data -> file_Close fd σ = (Ok tt, σ') ->
  exists f, fds σ' !! fd = Some f /\ fclosed f = true /\
            file_data σ' (fino f) = data.
Proof.
  intros (f & Hfd & Hopen & Hdata & Hpos). unfold file_Close. unfold bind at 1.
  rewrite (open_file_open fd f σ Hfd Hopen). unfold bind.
  unfold syscall, next_fault. cbn.
  destruct (plan σ) as [| [ft |] rest]; cbn; intros H; inversion H; subst σ';
    clear H.
  - eexists. cbn. rewrite lookup_insert_eq. split; [reflexivity |].
    split; [reflexivity | exact Hdata].
  - eexists. cbn. rewrite lookup_insert_eq. split; [reflexivity |].
    split; [reflexivity | exact Hdata].
Qed.

(** X5: [Close] keeps away from the directory and the remote, whatever it
    returns, and sets [closed] exactly when it returns no error.  On a
    writer whose handle stands at the end of its file, a [Close] without
    error leaves in the file what was there followed by what was buffered,
    under a handle that is closed. *)
Theorem Close_is_a_local_barrier (w : writer) (σ : world) :
  closed w = false ->
  let r := fst (Close (w, σ)) in
  let w' := fst (snd (Close (w, σ))) in
  let σ' := snd (snd (Close (w, σ))) in
  surroundings σ' = surroundings σ /\
  (closed w' = true <-> r = Ok tt) /\
  committed w' = committed w /\ cancelled w' = cancelled w /\
  (forall data, appending (w, σ) data -> r = Ok tt ->
     exists f, fds σ' !! file w = Some f /\ fclosed f = true /\
               file_data σ' (fino f) = data ++ buf (bw w)).
Proof.
  intros Hc. cbv zeta.
  destruct (Close (w, σ)) as [r [w' σ']] eqn:HC. cbn [fst snd].
  unfold Close, this, bind, flush, io, update in HC. cbn [fst] in HC.
  rewrite Hc in HC.
  pose proof (bw_Flush_surroundings (bw w) σ) as [_ Hs1].
  destruct (bw_Flush (bw w) σ) as [[[e |] b1] σ1] eqn:Hfl; cbn [fst snd] in *.
  { inversion HC; subst r w' σ'; clear HC. cbn.
    split; [exact Hs1 |]. split; [split; [congruence | discriminate] |].
    split; [reflexivity |]. split; [reflexivity |]. discriminate. }
  pose proof (keeps_surroundings_file_Sync (file w) σ1) as Hs2.
  destruct (file_Sync (file w) σ1) as [[[] | e | msg |] σ2] eqn:Hsync;
    cbn [fst snd] in *;
    try (inversion HC; subst r w' σ'; clear HC; cbn;
         split; [congruence |]; split; [split; [congruence | discriminate] |];
         split; [reflexivity |]; split; [reflexivity |]; discriminate).
  pose proof (keeps_surroundings_file_Close (file w) σ2) as Hs3.
  destruct (file_Close (file w) σ2) as [[[] | e | msg |] σ3] eqn:Hclose;
    cbn [fst snd] in *;
    try (inversion HC; subst r w' σ'; clear HC; cbn;
         split; [congruence |]; split; [split; [congruence | discriminate] |];
         split; [reflexivity |]; split; [reflexivity |]; discriminate).
  inversion HC; subst r w' σ'; clear HC. cbn.
  split; [congruence |]. split; [split; reflexivity |].
  split; [reflexivity |]. split; [reflexivity |].
  intros data (Hbw & Hb & Ht) _. cbn [fst snd] in *.
  rewrite <- Hbw in Ht.
  destruct (bw_Flush_appends (bw w) data σ σ1 b1 Hb Ht Hfl) as (_ & Ht1 & _).
  rewrite Hbw in Ht1.
  apply (file_Close_tail (file w) _ σ2 σ3); [| exact Hclose].
  apply (file_Sync_tail (file w) _ σ1 σ2); assumption.
Qed.

End StuckFacts.

(** ** [Commit] on a disk without failures *)

Section QuietFacts.
Context {R : Type} {client : v1.ClientWithResponsesInterface R}.
Abbreviation world := (World R).
Abbreviation wstate := (writer * world)%type.

Lemma file_Write_quiet fd p data pos (σ : world) :
  holds fd σ data pos -> plan σ = [] ->
  exists σ', file_Write fd p σ = ((length p, None), σ') /\
    holds fd σ' (write_at pos p data) (pos + length p) /\ plan σ' = [] /\
    surroundings σ' = surroundings σ.
Proof.
  intros (f & Hfd & Hopen & Hdata & Hpos) Hplan.
  unfold file_Write, open_file, next_fault. rewrite Hfd, Hopen, Hplan.
  cbn. rewrite firstn_all. eexists. split; [reflexivity |].
  split; [| split; [exact Hplan | reflexivity]].
  eexists. cbn. rewrite lookup_insert_eq. split; [reflexivity |].
  cbn. split; [exact Hopen |]. unfold file_data in *. cbn.
  rewrite lookup_insert_eq. cbn. rewrite Hpos, Hdata. auto.
Qed.

Lemma bw_Flush_quiet (b : BufWriter) data pos (σ : world) :
  berr b = None -> holds (bwr b) σ data pos -> plan σ = [] ->
  exists σ', bw_Flush b σ = (None, {| bwr := bwr b; buf := []; berr := None |}, σ') /\
    holds (bwr b) σ' (flushed pos (buf b) data) (pos + length (buf b)) /\
    plan σ' = [] /\ surroundings σ' = surroundings σ.
Proof.
  intros Hb Hh Hplan. unfold bw_Flush. rewrite Hb.
  destruct (buf b) as [| x l] eqn:Hbuf.
  - exists σ. split; [destruct b; cbn in *; congruence |].
    cbn. rewrite Nat.add_0_r. auto.
  - destruct (file_Write_quiet (bwr b) (x :: l) data pos σ Hh Hplan)
      as (σ' & Hw & Hh' & Hp' & Hs').
    rewrite Hw, Nat.ltb_irrefl. exists σ'. auto.
Qed.

Lemma file_Sync_quiet fd data pos (σ : world) :
  holds fd σ data pos -> plan σ = [] -> file_Sync fd σ = (Ok tt, σ).
Proof.
  intros (f & Hfd & Hopen & _) Hplan. unfold file_Sync, bind.
  rewrite (open_file_open fd f σ Hfd Hopen). apply syscall_no_fault, Hplan.
Qed.

Lemma file_Stat_quiet fd data pos (σ : world) :
  holds fd σ data pos -> plan σ = [] ->
  file_Stat fd σ = (Ok (Z.of_nat (length data)), σ).
Proof.
  intros (f & Hfd & Hopen & Hdata & _) Hplan. unfold file_Stat, bind.
  rewrite (open_file_open fd f σ Hfd Hopen), (syscall_no_fault σ Hplan).
  rewrite Hdata. reflexivity.
Qed.

Lemma file_Seek_quiet fd data pos (σ : world) :
  holds fd σ data pos -> plan σ = [] ->
  exists σ', file_Seek fd 0 SeekStart σ = (Ok 0, σ') /\
    holds fd σ' data 0 /\ plan σ' = [] /\ surroundings σ' = surroundings σ.
Proof.
  intros (f & Hfd & Hopen & Hdata & _) Hplan. unfold file_Seek, bind.
  rewrite (open_file_open fd f σ Hfd Hopen), (syscall_no_fault σ Hplan).
  cbn. eexists. split; [reflexivity |].
  split; [| split; [exact Hplan | reflexivity]].
  eexists. cbn. rewrite lookup_insert_eq. split; [reflexivity |]. cbn. auto.
Qed.

Lemma file_ReadAll_quiet fd data pos (σ : world) :
  holds fd σ data pos -> plan σ = [] ->
  exists σ', file_ReadAll fd σ = (Ok (drop pos data), σ') /\
    holds fd σ' data (pos + length (drop pos data)) /\ plan σ' = [] /\
    surroundings σ' = surroundings σ.
Proof.
  intros (f & Hfd & Hopen & Hdata & Hpos) Hplan. unfold file_ReadAll, bind.
  rewrite (open_file_open fd f σ Hfd Hopen). unfold next_fault.
  rewrite Hplan, Hdata, Hpos. cbn. eexists. split; [reflexivity |].
  split; [| split; [exact Hplan | reflexivity]].
  eexists. cbn. rewrite lookup_insert_eq. split; [reflexivity |]. cbn. auto.
Qed.

(** A request leaves the disk as it is. *)
Lemma remote_calm {A} (c : M R A) fd data pos (σ : world) :
  holds fd σ data pos -> plan σ = [] ->
  holds fd (snd (remote c σ)) data pos /\ plan (snd (remote c σ)) = [] /\
  names (snd (remote c σ)) = names σ.
Proof.
  intros Hh Hp. unfold remote. destruct (c (net σ)) as [r n]. cbn. auto.
Qed.

(** What a request answers depends on the remote alone. *)
Lemma remote_net_only {A} (c : M R A) (σa σb : world) :
  net σa = net σb ->
  fst (remote c σa) = fst (remote c σb) /\
  net (snd (remote c σa)) = net (snd (remote c σb)).
Proof.
  intros Hn. unfold remote. rewrite Hn.
  destruct (c (net σb)) as [r n]. cbn. auto.
Qed.

Lemma createOrUpdateEntry_net_only ctx b p h n (σa σb : world) :
  net σa = net σb ->
  fst (createOrUpdateEntry ctx b p h n σa) = fst (createOrUpdateEntry ctx b p h n σb) /\
  net (snd (createOrUpdateEntry ctx b p h n σa)) =
    net (snd (createOrUpdateEntry ctx b p h n σb)).
Proof.
  intros Hn. unfold createOrUpdateEntry, bind.
  match goal with
  | |- context [remote ?c σa] =>
      pose proof (remote_net_only c σa σb Hn) as [H1 H2];
      destruct (remote c σa) as [ra σa'], (remote c σb) as [rb σb']
  end.
  cbn [fst snd] in H1, H2. subst rb.
  destruct ra as [res | e | msg |]; cbn; auto.
  destruct (v1.CreateOrUpdate_JSON200 res) as [e |]; cbn; auto.
  destruct (v1.Entry_Entryid e); cbn; auto.
Qed.

Lemma createOrUpdateEntry_calm ctx b p h n fd data pos (σ : world) :
  holds fd σ data pos -> plan σ = [] ->
  holds fd (snd (createOrUpdateEntry ctx b p h n σ)) data pos /\
  plan (snd (createOrUpdateEntry ctx b p h n σ)) = [] /\
  names (snd (createOrUpdateEntry ctx b p h n σ)) = names σ.
Proof.
  intros Hh Hp. unfold createOrUpdateEntry, bind.
  match goal with
  | |- context [remote ?c σ] =>
      pose proof (remote_calm c fd data pos σ Hh Hp) as H;
      destruct (remote c σ) as [r σ']
  end.
  cbn [snd] in H.
  destruct r as [res | e | msg |]; cbn; auto.
  destruct (v1.CreateOrUpdate_JSON200 res) as [e |]; cbn; auto.
  destruct (v1.Entry_Entryid e); cbn; auto.
Qed.

(** Two uploads of the same body to remotes in the same state. *)
Lemma uploadContent_net_only ctx b id h (ca cb : M world (list byte)) body
    (σa σa' σb σb' : world) :
  ca σa = (Ok body, σa') -> cb σb = (Ok body, σb') -> net σa' = net σb' ->
  fst (uploadContent ctx b id h ca σa) = fst (uploadContent ctx b id h cb σb) /\
  net (snd (uploadContent ctx b id h ca σa)) =
    net (snd (uploadContent ctx b id h cb σb)).
Proof.
  intros Ha Hb Hn. unfold uploadContent. unfold bind at 1 2 5 6.
  unfold bind at 1 2 3 4. rewrite Ha, Hb.
  match goal with
  | |- context [remote ?c σa'] =>
      pose proof (remote_net_only c σa' σb' Hn) as [H1 H2];
      destruct (remote c σa') as [ra σa2], (remote c σb') as [rb σb2]
  end.
  cbn [fst snd] in H1, H2. subst rb.
  destruct ra as [res | e | msg |]; cbn; auto.
  destruct (decide _); cbn; auto.
Qed.

Lemma uploadContent_calm ctx b id h fd data pos (σ : world) :
  holds fd σ data pos -> plan σ = [] ->
  names (snd (uploadContent ctx b id h (file_ReadAll fd) σ)) = names σ /\
  plan (snd (uploadContent ctx b id h (file_ReadAll fd) σ)) = [] /\
  holds fd (snd (uploadContent ctx b id h (file_ReadAll fd) σ)) data
    (pos + length (drop pos data)).
Proof.
  intros Hh Hp. unfold uploadContent. unfold bind at 1 3 5. unfold bind at 1 2 3.
  destruct (file_ReadAll_quiet fd data pos σ Hh Hp) as (σ1 & Hr & Hh1 & Hp1 & Hs1).
  rewrite Hr.
  match goal with
  | |- context [remote ?c σ1] =>
      pose proof (remote_calm c fd _ _ σ1 Hh1 Hp1) as (H1 & H2 & H3);
      destruct (remote c σ1) as [r σ2]
  end.
  cbn [snd] in H1, H2, H3.
  assert (Hn : names σ1 = names σ) by (injection Hs1; auto).
  destruct r as [res | e | msg |]; cbn;
    [| split; [congruence | split; assumption] ..].
  destruct (decide _); cbn; (split; [congruence | split; assumption]).
Qed.

End QuietFacts.

Section CommitContent.
Context {R : Type} {client : v1.ClientWithResponsesInterface R}.
Abbreviation world := (World R).
Abbreviation wstate := (writer * world)%type.

Lemma keeps_net_os_Remove name : keeps (@net R) (os_Remove name).
Proof.
  intros σ. unfold os_Remove, bind, syscall, next_fault.
  destruct (plan σ) as [| [ft |] rest]; cbn; try reflexivity;
    destruct (names σ !! name); reflexivity.
Qed.

Lemma os_Remove_holds name fd (σ : world) data pos :
  holds fd σ data pos -> holds fd (snd (os_Remove name σ)) data pos.
Proof.
  intros Hh. unfold os_Remove, bind, syscall, next_fault.
  destruct (plan σ) as [| [ft |] rest]; cbn; try exact Hh;
    destruct (names σ !! name); exact Hh.
Qed.

Lemma steps_stops (w : writer) (p : point) (s s' : wstate) r :
  step w p s = (r, s') -> (forall p', r <> Ok p') ->
  steps (remaining p) w p s = (stopped (step_name p) r, s').
Proof.
  intros Hs Hr. destruct (is_done p) eqn:Hd.
  - destruct p; try discriminate. unfold step, ret in Hs.
    injection Hs as <- _. exfalso. eapply Hr. reflexivity.
  - assert (Hn : exists n, remaining p = S n)
      by (destruct p; try discriminate; eexists; reflexivity).
    destruct Hn as [n ->]. rewrite steps_S, Hd.
    unfold bind, wrap. rewrite Hs.
    destruct r as [p' | e | msg |]; try reflexivity.
    exfalso. eapply Hr. reflexivity.
Qed.

Lemma Commit_step_stops (w : writer) (σ : world) p s1 s2 r :
  terminal w = false ->
  reaches w (w, σ) p s1 -> step w p s1 = (r, s2) -> (forall p', r <> Ok p') ->
  Commit (w, σ) = (stopped (step_name p) r, s2).
Proof.
  intros Ht Hr Hs Hno. pose proof (Commit_steps w σ Ht) as HC.
  unfold bind at 1 in HC.
  rewrite HC, (steps_reaches w _ _ _ Hr), (steps_stops w p s1 s2 r Hs Hno).
  destruct r as [p' | e | msg |]; try reflexivity.
  exfalso. eapply Hno. reflexivity.
Qed.

(** On a disk without failures the sub-steps before the requests succeed:
    the size announced is the length of the file after the flush, the bytes
    hashed are that file, and the handle is rewound. *)
Lemma reaches_upsert_quiet (w : writer) (σ : world) data pos :
  ready (w, σ) data pos ->
  let content := flushed pos (buf (bw w)) data in
  exists σ6,
    reaches w (w, σ) (PUpsert (Z.of_nat (length content)) content)
      (set_bw w {| bwr := file w; buf := []; berr := None |}, σ6) /\
    holds (file w) σ6 content 0 /\ plan σ6 = [] /\
    surroundings σ6 = surroundings σ.
Proof.
  intros (Ht & Hbw & Hb & Hh & Hp & _). cbn [fst snd] in *. cbv zeta.
  set (content := flushed pos (buf (bw w)) data).
  set (w0 := set_bw w {| bwr := file w; buf := []; berr := None |}).
  rewrite <- Hbw in Hh.
  destruct (bw_Flush_quiet (bw w) data pos σ Hb Hh Hp) as (σ1 & Hfl & Hh1 & Hp1 & Hs1).
  rewrite Hbw in Hfl, Hh1. fold content in Hh1.
  assert (R1 : reaches w (w, σ) PSync (w0, σ1)).
  { eapply reaches_step; [apply reaches_start |].
    unfold step, bind, flush. rewrite Hfl. reflexivity. }
  assert (R2 : reaches w (w, σ) PStat (w0, σ1)).
  { eapply reaches_step; [exact R1 |].
    unfold step, bind, io. rewrite (file_Sync_quiet _ _ _ _ Hh1 Hp1). reflexivity. }
  assert (R3 : reaches w (w, σ) (PRewindHash (Z.of_nat (length content))) (w0, σ1)).
  { eapply reaches_step; [exact R2 |].
    unfold step, bind, io. rewrite (file_Stat_quiet _ _ _ _ Hh1 Hp1). reflexivity. }
  destruct (file_Seek_quiet _ _ _ _ Hh1 Hp1) as (σ2 & Hk2 & Hh2 & Hp2 & Hs2).
  assert (R4 : reaches w (w, σ) (PHash (Z.of_nat (length content))) (w0, σ2)).
  { eapply reaches_step; [exact R3 |].
    unfold step, bind, io. rewrite Hk2. reflexivity. }
  destruct (file_ReadAll_quiet _ _ _ _ Hh2 Hp2) as (σ3 & Hr3 & Hh3 & Hp3 & Hs3).
  rewrite drop_0 in Hr3.
  assert (R5 : reaches w (w, σ)
                 (PRewindUpload (Z.of_nat (length content)) content) (w0, σ3)).
  { eapply reaches_step; [exact R4 |].
    unfold step, bind, io. rewrite Hr3. reflexivity. }
  destruct (file_Seek_quiet _ _ _ _ Hh3 Hp3) as (σ4 & Hk4 & Hh4 & Hp4 & Hs4).
  exists σ4. split; [| split; [exact Hh4 | split; [exact Hp4 | congruence]]].
  eapply reaches_step; [exact R5 |].
  unfold step, bind, io. rewrite Hk4. reflexivity.
Qed.

(** [Commit] on a disk without failures, request by request: [σ6] is the
    world before the requests. *)
Lemma Commit_quiet_cases (w : writer) (σ : world) data pos :
  ready (w, σ) data pos ->
  let content := flushed pos (buf (bw w)) data in
  let w0 := set_bw w {| bwr := file w; buf := []; berr := None |} in
  exists σ6, surroundings σ6 = surroundings σ /\
    let r7 := fst (createOrUpdateEntry (ctx w) (bucket w) (path w)
                     (md5_hex content) (Z.of_nat (length content)) σ6) in
    let σ7 := snd (createOrUpdateEntry (ctx w) (bucket w) (path w)
                     (md5_hex content) (Z.of_nat (length content)) σ6) in
    holds (file w) σ7 content 0 /\ plan σ7 = [] /\ names σ7 = names σ /\
    file_ReadAll (file w) σ7 = (Ok content, snd (file_ReadAll (file w) σ7)) /\
    net (snd (file_ReadAll (file w) σ7)) = net σ7 /\
    match r7 with
    | Ok id =>
        let r8 := fst (uploadContent (ctx w) (bucket w) id (md5_hex content)
                         (file_ReadAll (file w)) σ7) in
        let σ8 := snd (uploadContent (ctx w) (bucket w) id (md5_hex content)
                         (file_ReadAll (file w)) σ7) in
        holds (file w) σ8 content (length content) /\ plan σ8 = [] /\
        names σ8 = names σ /\
        match r8 with
        | Ok _ =>
            Commit (w, σ) =
              (fst (os_Remove (file_Name (file w) σ8) σ8),
               (set_committed w0 true, snd (os_Remove (file_Name (file w) σ8) σ8)))
        | _ => Commit (w, σ) = (stopped "upload content" r8, (w0, σ8))
        end
    | _ => Commit (w, σ) = (stopped "create/update entry" r7, (w0, σ7))
    end.
Proof.
  intros Hready. cbv zeta.
  destruct (reaches_upsert_quiet w σ data pos Hready)
    as (σ6 & R6 & Hh6 & Hp6 & Hs6).
  destruct Hready as (Ht & Hbw & Hb & Hh & Hp & Hctx & Hne). cbn [fst snd] in *.
  set (content := flushed pos (buf (bw w)) data) in *.
  set (w0 := set_bw w {| bwr := file w; buf := []; berr := None |}) in *.
  assert (Hm6 : names σ6 = names σ) by (injection Hs6; auto).
  exists σ6. split; [exact Hs6 |].
  pose proof (createOrUpdateEntry_calm (ctx w) (bucket w) (path w)
                (md5_hex content) (Z.of_nat (length content)) (file w) content
                0 σ6 Hh6 Hp6) as (Hh7 & Hp7 & Hm7).
  destruct (createOrUpdateEntry (ctx w) (bucket w) (path w) (md5_hex content)
              (Z.of_nat (length content)) σ6) as [r7 σ7] eqn:E7.
  cbn [fst snd] in *.
  destruct (file_ReadAll_quiet _ _ _ _ Hh7 Hp7) as (σ7r & Hr & _ & _ & Hsr).
  rewrite drop_0 in Hr.
  split; [exact Hh7 |]. split; [exact Hp7 |]. split; [congruence |].
  split; [rewrite Hr; reflexivity |].
  split; [rewrite Hr; injection Hsr; auto |].
  assert (S7 : step w (PUpsert (Z.of_nat (length content)) content) (w0, σ6) =
               (match r7 with
                | Ok id => Ok (PUpload (Z.of_nat (length content)) content id)
                | Err e => Err e
                | Panic msg => Panic msg
                | OutOfFuel => OutOfFuel
                end, (w0, σ7))).
  { unfold step, bind, io. rewrite E7. destruct r7; reflexivity. }
  destruct r7 as [id | e | msg |];
    try (rewrite (Commit_step_stops w σ _ _ _ _ Ht R6 S7) by discriminate;
         reflexivity).
  assert (R7 : reaches w (w, σ) (PUpload (Z.of_nat (length content)) content id)
                 (w0, σ7)) by (eapply reaches_step; eassumption).
  pose proof (uploadContent_calm (ctx w) (bucket w) id (md5_hex content)
                (file w) content 0 σ7 Hh7 Hp7) as (Hm8 & Hp8 & Hh8).
  rewrite drop_0 in Hh8. cbn [Nat.add] in Hh8.
  destruct (uploadContent (ctx w) (bucket w) id (md5_hex content)
              (file_ReadAll (file w)) σ7) as [r8 σ8] eqn:E8.
  cbn [fst snd] in *.
  split; [exact Hh8 |]. split; [exact Hp8 |]. split; [congruence |].
  assert (S8 : step w (PUpload (Z.of_nat (length content)) content id) (w0, σ7) =
               (match r8 with
                | Ok _ => Ok PDone
                | Err e => Err e
                | Panic msg => Panic msg
                | OutOfFuel => OutOfFuel
                end, (w0, σ8))).
  { unfold step, bind, io. rewrite E8. destruct r8; reflexivity. }
  destruct r8 as [[] | e | msg |];
    try (rewrite (Commit_step_stops w σ _ _ _ _ Ht R7 S8) by discriminate;
         reflexivity).
  assert (R8 : reaches w (w, σ) PDone (w0, σ8))
    by (eapply reaches_step; eassumption).
  rewrite (Commit_steps_done w σ _ Ht R8).
  unfold bind, update, io.
  destruct (os_Remove (file_Name (file w) σ8) σ8) as [r9 σ9]. reflexivity.
Qed.

(** [Commit] on a disk without failures against [PutContent] on any world
    with the same remote. *)
Lemma Commit_quiet (w : writer) (σ σb : world) data pos :
  ready (w, σ) data pos -> net σb = net σ ->
  let content := flushed pos (buf (bw w)) data in
  let put := PutContent (ctx w) (path w) content σb in
  let done := Commit (w, σ) in
  net (snd (snd done)) = net (snd put) /\
  (committed (fst (snd done)) = true <-> fst put = Ok tt) /\
  (forall e, fst put = Err e ->
     exists name, fst done = Err (WrapError name e) /\
                  names (snd (snd done)) = names σ) /\
  buf (bw (fst (snd done))) = [] /\
  exists pos', holds (file w) (snd (snd done)) content pos'.
Proof.
  intros Hready Hnb. cbv zeta.
  destruct (Commit_quiet_cases w σ data pos Hready) as (σ6 & Hs6 & HC).
  destruct Hready as (Ht & Hbw & Hb & Hh & Hp & Hctx & Hne). cbn [fst snd] in *.
  cbv zeta in HC.
  set (content := flushed pos (buf (bw w)) data) in *.
  set (w0 := set_bw w {| bwr := file w; buf := []; berr := None |}) in *.
  assert (Hc0 : committed w0 = false)
    by (destruct (terminal_false w Ht) as (_ & H & _); exact H).
  assert (Hn6 : net σ6 = net σb) by (injection Hs6; congruence).
  assert (HP : PutContent (ctx w) (path w) content σb =
               match createOrUpdateEntry (ctx w) (bucket w) (path w)
                       (md5_hex content) (Z.of_nat (length content)) σb with
               | (Ok id, σ') =>
                   uploadContent (ctx w) (bucket w) id (md5_hex content)
                     (ret content) σ'
               | (Err e, σ') => (Err e, σ')
               | (Panic msg, σ') => (Panic msg, σ')
               | (OutOfFuel, σ') => (OutOfFuel, σ')
               end).
  { unfold PutContent. unfold bind at 1.
    rewrite bucketIDFromContext_ok by (rewrite Hctx; exact Hne).
    rewrite Hctx. reflexivity. }
  rewrite HP. clear HP.
  pose proof (createOrUpdateEntry_net_only (ctx w) (bucket w) (path w)
                (md5_hex content) (Z.of_nat (length content)) σ6 σb Hn6)
    as [Hu1 Hu2].
  destruct (createOrUpdateEntry (ctx w) (bucket w) (path w) (md5_hex content)
              (Z.of_nat (length content)) σ6) as [r7 σ7] eqn:E7.
  destruct (createOrUpdateEntry (ctx w) (bucket w) (path w) (md5_hex content)
              (Z.of_nat (length content)) σb) as [r7' σ7'] eqn:E7'.
  cbn [fst snd] in *. subst r7'.
  destruct HC as (Hh7 & Hp7 & Hm7 & Hr & Hnr & HC).
  destruct r7 as [id | e | msg |];
    try (rewrite HC; cbn [fst snd stopped];
         split; [exact Hu2 |];
         split; [split; [congruence | discriminate] |];
         split; [first [ intros e0 [= <-]; eexists;
                         split; [reflexivity | congruence]
                       | intros e0 [=] ] |];
         split; [reflexivity | exists 0%nat; exact Hh7]).
  pose proof (uploadContent_net_only (ctx w) (bucket w) id (md5_hex content)
                (file_ReadAll (file w)) (ret content) content σ7 _ σ7' σ7'
                Hr eq_refl (eq_trans Hnr Hu2)) as [Hv1 Hv2].
  destruct (uploadContent (ctx w) (bucket w) id (md5_hex content)
              (file_ReadAll (file w)) σ7) as [r8 σ8] eqn:E8.
  destruct (uploadContent (ctx w) (bucket w) id (md5_hex content)
              (ret content) σ7') as [r8' σ8'] eqn:E8'.
  cbn [fst snd] in *. subst r8'.
  destruct HC as (Hh8 & Hp8 & Hm8 & HC).
  destruct r8 as [[] | e | msg |];
    try (rewrite HC; cbn [fst snd stopped];
         split; [exact Hv2 |];
         split; [split; [congruence | discriminate] |];
         split; [first [ intros e0 [= <-]; eexists;
                         split; [reflexivity | congruence]
                       | intros e0 [=] ] |];
         split; [reflexivity | eexists; exact Hh8]).
  rewrite HC. cbn [fst snd].
  pose proof (keeps_net_os_Remove (file_Name (file w) σ8) σ8) as Hn9.
  pose proof (os_Remove_holds (file_Name (file w) σ8) (file w) σ8 _ _ Hh8) as Hh9.
  split; [congruence |]. split; [split; reflexivity |].
  split; [intros e0 [=] |]. split; [reflexivity |].
  eexists; exact Hh9.
Qed.


End CommitContent.

(** ** From [Writer] to [Commit] *)

Section EndToEnd.
Context {R : Type} {client : v1.ClientWithResponsesInterface R}.
Abbreviation world := (World R).
Abbreviation wstate := (writer * world)%type.

Lemma flushed_end (b data : list byte) :
  flushed (length data) b data = data ++ b.
Proof.
  destruct b as [| x l]; cbn [flushed]; [rewrite app_nil_r; reflexivity |].
  apply write_at_end.
Qed.

Lemma holds_end fd (σ : world) data p :
  holds fd σ (write_at (length data) p data) (length data + length p) ->
  tail_state fd σ (data ++ p).
Proof.
  rewrite write_at_end. intros (f & H1 & H2 & H3 & H4).
  exists f. rewrite length_app. auto.
Qed.

(** On a disk without failures the loop of [Write] meets no error. *)
Lemma bw_Write_loop_quiet fuel :
  forall (b : BufWriter) p nn data (σ : world),
  berr b = None -> tail_state (bwr b) σ data -> plan σ = [] ->
  berr (snd (fst (fst (bw_Write_loop fuel b p nn σ)))) = None /\
  plan (snd (bw_Write_loop fuel b p nn σ)) = [].
Proof.
  induction fuel as [| fuel IH]; intros b p nn data σ Hb Ht Hp.
  - rewrite bw_Write_loop_O. auto.
  - rewrite bw_Write_loop_S.
    destruct ((Available b <? length p)%nat && bool_decide (berr b = None));
      [| auto].
    destruct (buf b) as [| x l] eqn:Hbuf.
    + destruct (file_Write_quiet (bwr b) p data (length data) σ Ht Hp)
        as (σ1 & Hw & Hh1 & Hp1 & _).
      rewrite Hw. apply holds_end in Hh1.
      apply (IH {| bwr := bwr b; buf := []; berr := None |} _ _ (data ++ p) σ1
               eq_refl Hh1 Hp1).
    + cbv beta iota zeta.
      destruct (bw_Flush_quiet
                  {| bwr := bwr b; buf := (x :: l) ++ take (Available b) p;
                     berr := berr b |} data (length data) σ Hb Ht Hp)
        as (σ1 & Hfl & Hh1 & Hp1 & _).
      rewrite Hfl. cbn [bwr buf] in Hh1. cbn [app flushed] in Hh1.
      apply holds_end in Hh1.
      apply (IH {| bwr := bwr b; buf := []; berr := None |} _ _ _ σ1
               eq_refl Hh1 Hp1).
Qed.

(** On a disk without failures a writer that is ready at the end of its
    file takes every byte and is ready again. *)
Lemma Write_ready (p : list byte) (w : writer) (σ : world) data :
  ready (w, σ) data (length data) ->
  exists w' σ' data',
    Write p (w, σ) = ((Z.of_nat (length p), None), (w', σ')) /\
    ready (w', σ') data' (length data') /\
    data' ++ buf (bw w') = data ++ buf (bw w) ++ p /\
    ctx w' = ctx w /\ path w' = path w /\ file w' = file w /\
    surroundings σ' = surroundings σ /\
    size w' = wrap64 (size w + Z.of_nat (length p)).
Proof.
  intros (Ht & Hbw & Hb & Hh & Hp & Hctx & Hne). cbn [fst snd] in *.
  destruct (terminal_false w Ht) as (H1 & H2 & H3).
  unfold Write. rewrite H1, H2, H3. unfold bw_Write.
  rewrite <- Hbw in Hh.
  pose proof (bw_Write_loop_appends 2 (bw w) p 0%nat data σ Hb Hh) as HA.
  pose proof (bw_Write_loop_quiet 2 (bw w) p 0%nat data σ Hb Hh Hp) as [HQ1 HQ2].
  destruct (bw_Write_loop 2 (bw w) p 0 σ) as [[[nn b1] p1] σ1].
  cbn [fst snd] in HQ1, HQ2. rewrite HQ1.
  destruct (HA HQ1) as (Hw1 & (data1 & Ht1 & Hd1) & Hc & Hs).
  cbn in Hc. rewrite Hc. eexists _, _, data1. split; [reflexivity |].
  split.
  { unfold ready. cbn [fst snd].
    split; [destruct w; exact Ht |].
    split; [destruct w; cbn in *; congruence |].
    split; [destruct w; reflexivity |].
    split; [destruct w; cbn in *; rewrite <- Hbw; exact Ht1 |].
    split; [exact HQ2 |]. destruct w; cbn in *; auto. }
  destruct w; cbn in *. repeat split; auto.
Qed.

Lemma os_OpenFile_plan name (σ : world) :
  plan σ = [] -> plan (snd (os_OpenFile name σ)) = [] /\
                 net (snd (os_OpenFile name σ)) = net σ.
Proof.
  intros Hp. unfold os_OpenFile, bind. rewrite (syscall_no_fault σ Hp).
  destruct (names σ !! name); cbn; auto.
Qed.

Lemma file_Seek_plan fd offset whence (σ : world) :
  plan σ = [] -> plan (snd (file_Seek fd offset whence σ)) = [] /\
                 net (snd (file_Seek fd offset whence σ)) = net σ.
Proof.
  intros Hp. unfold file_Seek, bind, open_file.
  destruct (fds σ !! fd) as [f |]; [| auto].
  destruct (fclosed f); [auto |].
  rewrite (syscall_no_fault σ Hp). destruct (_ <? 0); cbn; auto.
Qed.

Lemma file_Truncate_plan fd size (σ : world) :
  plan σ = [] -> plan (snd (file_Truncate fd size σ)) = [] /\
                 net (snd (file_Truncate fd size σ)) = net σ.
Proof.
  intros Hp. unfold file_Truncate, bind, open_file.
  destruct (fds σ !! fd) as [f |]; [| auto].
  destruct (fclosed f); [auto |].
  rewrite (syscall_no_fault σ Hp). cbn. auto.
Qed.

(** The writer [Writer] returns on a disk without failures is ready, with
    an empty buffer, on the old bytes of the staging file when it appends
    and on an empty file when it does not. *)
Lemma Writer_ready T J D c dataPath append w (σ σ' : world) :
  plan σ = [] ->
  Writer T J D c dataPath append σ = (Ok w, σ') ->
  let old := if append
             then default [] (file_at (staging_name T J dataPath) σ) else [] in
  ready (w, σ') old (length old) /\ buf (bw w) = [] /\
  ctx w = c /\ path w = dataPath /\ net σ' = net σ /\
  size w = Z.of_nat (length old).
Proof.
  intros Hp HW. cbv zeta.
  destruct (Writer_ok_inv T J D c dataPath append w σ σ' HW)
    as (b & σ1 & σ2 & fd & Hb & Hmk & Hop & Hrest).
  assert (Hbk : b = GetStringValue c "vars.name" /\ b <> "").
  { unfold bucketIDFromContext in Hb.
    destruct (decide (GetStringValue c "vars.name" = "")); [discriminate |].
    injection Hb as <-. auto. }
  destruct Hbk as [Hbk Hne].
  unfold os_MkdirAll in Hmk. rewrite (syscall_no_fault σ Hp) in Hmk.
  injection Hmk as <-.
  destruct (os_OpenFile_ok _ _ _ _ Hop) as (ino & _ & Hfd & Hdata & _).
  pose proof (os_OpenFile_plan (staging_name T J dataPath) σ Hp) as [Hp2 Hn2].
  rewrite Hop in Hp2, Hn2. cbn [snd] in Hp2, Hn2.
  destruct append.
  - destruct Hrest as (n & Hseek & ->).
    destruct (file_Seek_end_ok fd _ n σ2 σ' Hfd eq_refl Hseek) as (Hsz & Hdisk & Hfd').
    pose proof (file_Seek_plan fd 0 SeekEnd σ2 Hp2) as [Hp3 Hn3].
    rewrite Hseek in Hp3, Hn3. cbn [snd fino] in *.
    split; [| split; [reflexivity |]; split; [reflexivity |];
              split; [reflexivity |]; split; [congruence |];
              cbn; rewrite Hsz, Hdata; reflexivity].
    unfold ready. cbn.
    split; [reflexivity |]. split; [reflexivity |]. split; [reflexivity |].
    split; [| split; [exact Hp3 | auto]].
    eexists. split; [exact Hfd' |]. cbn. split; [reflexivity |].
    assert (Hd : file_data σ' ino = file_data σ2 ino).
    { unfold file_data. injection Hdisk as -> _. reflexivity. }
    rewrite <- Hdata, Hd. auto.
  - destruct Hrest as (Htr & ->).
    destruct (file_Truncate_ok fd _ σ2 σ' Hfd eq_refl Htr) as (Hd & _ & Hfds).
    pose proof (file_Truncate_plan fd 0 σ2 Hp2) as [Hp3 Hn3].
    rewrite Htr in Hp3, Hn3. cbn [snd fino] in *.
    split; [| split; [reflexivity |]; split; [reflexivity |];
              split; [reflexivity |]; split; [congruence | reflexivity]].
    unfold ready. cbn.
    split; [reflexivity |]. split; [reflexivity |]. split; [reflexivity |].
    split; [| split; [exact Hp3 | auto]].
    eexists. split; [rewrite Hfds; exact Hfd |]. cbn. auto.
Qed.

(** Several calls of [Write], one after the other. *)
Lemma writes_ready (ps : list (list byte)) :
  forall (w : writer) (σ : world) data,
  ready (w, σ) data (length data) ->
  exists data',
    ready (run (OpWrite <$> ps) (w, σ)) data' (length data') /\
    data' ++ buf (bw (fst (run (OpWrite <$> ps) (w, σ)))) =
      data ++ buf (bw w) ++ concat ps /\
    ctx (fst (run (OpWrite <$> ps) (w, σ))) = ctx w /\
    path (fst (run (OpWrite <$> ps) (w, σ))) = path w /\
    file (fst (run (OpWrite <$> ps) (w, σ))) = file w /\
    surroundings (snd (run (OpWrite <$> ps) (w, σ))) = surroundings σ /\
    (size w = Z.of_nat (length (data ++ buf (bw w))) ->
     Z.of_nat (length (data ++ buf (bw w) ++ concat ps)) < 9223372036854775808 ->
     size (fst (run (OpWrite <$> ps) (w, σ))) =
       Z.of_nat (length (data ++ buf (bw w) ++ concat ps))).
Proof.
  induction ps as [| p ps IH]; intros w σ data Hr.
  - exists data. cbn. rewrite app_nil_r.
    split; [exact Hr |]. split; [reflexivity |]. auto 10.
  - destruct (Write_ready p w σ data Hr)
      as (w1 & σ1 & data1 & HW & Hr1 & Hd1 & Hc1 & Hp1 & Hf1 & Hs1 & Hz1).
    destruct (IH w1 σ1 data1 Hr1)
      as (data2 & Hr2 & Hd2 & Hc2 & Hp2 & Hf2 & Hs2 & Hz2).
    assert (Hrun : run (OpWrite <$> p :: ps) (w, σ) = run (OpWrite <$> ps) (w1, σ1)).
    { unfold run. cbn [fmap list_fmap foldl]. unfold call at 2. rewrite HW.
      reflexivity. }
    rewrite Hrun. exists data2. split; [exact Hr2 |].
    assert (Hcat : data1 ++ buf (bw w1) ++ concat ps =
                   data ++ buf (bw w) ++ concat (p :: ps)).
    { cbn [concat]. rewrite (app_assoc data1), Hd1.
      rewrite <- !app_assoc. reflexivity. }
    split; [rewrite Hd2; exact Hcat |].
    split; [congruence |]. split; [congruence |]. split; [congruence |].
    split; [congruence |].
    intros Hsz Hbound. rewrite <- Hcat. rewrite <- Hcat in Hbound.
    apply Hz2; [| exact Hbound].
    assert (Hlen : (length data1 + length (buf (bw w1)) =
                    length data + length (buf (bw w)) + length p)%nat).
    { pose proof (f_equal length Hd1) as H. rewrite !length_app in H. lia. }
    rewrite Hz1, Hsz. rewrite !length_app in *.
    rewrite wrap64_small by lia. lia.
Qed.

(** X7: on a disk without failures, opening a writer, writing chunks to it
    and committing sends the service what [PutContent] would send for the
    chunks put together (after the old bytes of the staging file when the
    writer appends): the remote is left in the same state, and the writer is
    committed exactly when [PutContent] returns no error.  Before the
    [Commit], [Size] is the length of those bytes. *)
Theorem Writer_to_Commit_is_PutContent T J D c dataPath append
    (ps : list (list byte)) (w : writer) (σ σ1 : world) :
  plan σ = [] ->
  Writer T J D c dataPath append σ = (Ok w, σ1) ->
  let old := if append
             then default [] (file_at (staging_name T J dataPath) σ) else [] in
  let put := PutContent c dataPath (old ++ concat ps) σ in
  let done := Commit (run (OpWrite <$> ps) (w, σ1)) in
  net (snd (snd done)) = net (snd put) /\
  (committed (fst (snd done)) = true <-> fst put = Ok tt) /\
  (forall e, fst put = Err e -> exists name, fst done = Err (WrapError name e)) /\
  (Z.of_nat (length (old ++ concat ps)) < 9223372036854775808 ->
   Size (fst (run (OpWrite <$> ps) (w, σ1))) =
     Z.of_nat (length (old ++ concat ps))).
Proof.
  intros Hp HW. cbv zeta.
  destruct (Writer_ready T J D c dataPath append w σ σ1 Hp HW)
    as (Hr & Hbuf & Hctx & Hpath & Hnet & Hsize).
  set (old := if append
              then default [] (file_at (staging_name T J dataPath) σ) else [])
    in *.
  destruct (writes_ready ps w σ1 old Hr)
    as (data' & Hr' & Hd' & Hc' & Hp' & _ & Hs' & Hz').
  rewrite Hbuf in Hd', Hz'. cbn [app] in Hd', Hz'. rewrite app_nil_r in Hz'.
  destruct (run (OpWrite <$> ps) (w, σ1)) as [w2 σ2] eqn:Hrun.
  cbn [fst snd] in *.
  assert (Hn2 : net σ = net σ2) by (injection Hs'; congruence).
  pose proof (Commit_quiet w2 σ2 σ data' (length data') Hr' Hn2) as H.
  cbv zeta in H. rewrite flushed_end, Hd', Hc', Hp', Hctx, Hpath in H.
  destruct H as (H1 & H2 & H3 & _).
  split; [exact H1 |]. split; [exact H2 |].
  split; [| intros Hb; apply Hz'; [exact Hsize | exact Hb]].
  intros e He. destruct (H3 e He) as (name & Hn & _). exists name. exact Hn.
Qed.

Lemma flushed_start (q data : list byte) :
  flushed 0 q data = q ++ drop (length q) data.
Proof.
  destruct q as [| x l]; [reflexivity |].
  unfold flushed, write_at. rewrite take_0. cbn. reflexivity.
Qed.

(** The removal of a file on a disk without failures fails only when there
    is no such file. *)
Lemma os_Remove_quiet name (σ : world) e :
  plan σ = [] -> fst (os_Remove name σ) = Err e -> e = ErrNotExist.
Proof.
  intros Hp. unfold os_Remove, bind. rewrite (syscall_no_fault σ Hp).
  destruct (names σ !! name); cbn; [discriminate | intros [= <-]; reflexivity].
Qed.

(** A [Commit] that fails on a disk without failures failed at one of the
    two requests, or at the removal of the staging file; after the first
    request the handle is at the start of the file, after the second at
    its end. *)
Lemma Commit_quiet_failed (w : writer) (σ : world) data pos e s1 :
  ready (w, σ) data pos ->
  Commit (w, σ) = (Err e, s1) ->
  let content := flushed pos (buf (bw w)) data in
  (e = ErrNotExist /\ committed (fst s1) = true) \/
  (exists e' pos',
     (e = WrapError "create/update entry" e' /\ pos' = 0%nat \/
      e = WrapError "upload content" e' /\ pos' = length content) /\
     ready s1 content pos' /\ buf (bw (fst s1)) = [] /\
     ctx (fst s1) = ctx w /\ path (fst s1) = path w).
Proof.
  intros Hready HC. cbv zeta.
  destruct (Commit_quiet_cases w σ data pos Hready) as (σ6 & Hs6 & H).
  destruct Hready as (Ht & Hbw & Hb & Hh & Hp & Hctx & Hne). cbn [fst snd] in *.
  cbv zeta in H.
  set (content := flushed pos (buf (bw w)) data) in *.
  set (w0 := set_bw w {| bwr := file w; buf := []; berr := None |}) in *.
  assert (Hw0 : forall (σ' : world) pos', holds (file w) σ' content pos' -> plan σ' = [] ->
                ready (w0, σ') content pos').
  { intros σ' pos' Hh' Hp'. unfold ready. cbn [fst snd].
    split; [destruct w; exact Ht |]. split; [destruct w; reflexivity |].
    split; [destruct w; reflexivity |]. split; [destruct w; exact Hh' |].
    split; [exact Hp' |]. destruct w; cbn in *; auto. }
  destruct (createOrUpdateEntry (ctx w) (bucket w) (path w) (md5_hex content)
              (Z.of_nat (length content)) σ6) as [r7 σ7].
  cbn [fst snd] in H. destruct H as (Hh7 & Hp7 & _ & _ & _ & H).
  destruct r7 as [id | e7 | msg |];
    [| rewrite H in HC; cbn [stopped] in HC; try discriminate ..].
  - destruct (uploadContent (ctx w) (bucket w) id (md5_hex content)
                (file_ReadAll (file w)) σ7) as [r8 σ8].
    cbn [fst snd] in H. destruct H as (Hh8 & Hp8 & _ & H).
    destruct r8 as [[] | e8 | msg |];
      rewrite H in HC; cbn [stopped] in HC; try discriminate.
    + left. injection HC as He <-. split; [| reflexivity].
      exact (os_Remove_quiet _ _ _ Hp8 He).
    + right. injection HC as <- <-. exists e8, (length content).
      split; [right; auto |]. split; [apply Hw0; assumption |].
      destruct w; cbn; auto.
  - right. injection HC as <- <-. exists e7, 0%nat.
    split; [left; auto |]. split; [apply Hw0; assumption |].
    destruct w; cbn; auto.
Qed.

(** A [Write] that fits the buffer, then [Commit], on a disk without
    failures. *)
Lemma Write_Commit_quiet (q : list byte) (s1 : wstate) content pos :
  ready s1 content pos -> buf (bw (fst s1)) = [] ->
  (length q <= defaultBufSize)%nat ->
  let put := PutContent (ctx (fst s1)) (path (fst s1)) (flushed pos q content)
               (snd s1) in
  let retry := Commit (snd (Write q s1)) in
  fst (Write q s1) = (Z.of_nat (length q), None) /\
  net (snd (snd retry)) = net (snd put) /\
  (committed (fst (snd retry)) = true <-> fst put = Ok tt).
Proof.
  destruct s1 as [w σ]. intros Hr Hbuf Hq. cbv zeta. cbn [fst snd] in *.
  pose proof Hr as (Ht & Hbw & Hb & Hh & Hp & Hctx & Hne). cbn [fst snd] in *.
  rewrite (Write_fits q w σ Ht Hb) by (rewrite Hbuf; cbn; lia).
  cbn [fst snd]. split; [reflexivity |].
  rewrite Hbuf. cbn [app].
  set (w2 := set_size _ _).
  assert (Hr2 : ready (w2, σ) content pos).
  { unfold ready, w2. cbn [fst snd].
    split; [destruct w; exact Ht |]. split; [destruct w; cbn in *; congruence |].
    split; [destruct w; reflexivity |]. split; [destruct w; exact Hh |].
    split; [exact Hp |]. destruct w; cbn in *; auto. }
  pose proof (Commit_quiet w2 σ σ content pos Hr2 eq_refl) as H.
  cbv zeta in H.
  assert (E1 : buf (bw w2) = q) by (destruct w; reflexivity).
  assert (E2 : ctx w2 = ctx w) by (destruct w; reflexivity).
  assert (E3 : path w2 = path w) by (destruct w; reflexivity).
  rewrite E1, E2, E3 in H. destruct H as (H1 & H2 & _). auto.
Qed.


End EndToEnd.

(** ** The operations of the driver *)

Section DriverExtras.
Context {R : Type} {client : v1.ClientWithResponsesInterface R}.
Abbreviation world := (World R).
Abbreviation wstate := (writer * world)%type.

Lemma bind_Ok {S A B} (c : M S A) (k : A -> M S B) s a s' :
  c s = (Ok a, s') -> bind c k s = k a s'.
Proof. intros H. unfold bind. rewrite H. reflexivity. Qed.

Lemma bind_Err {S A B} (c : M S A) (k : A -> M S B) s e s' :
  c s = (Err e, s') -> bind c k s = (Err e, s').
Proof. intros H. unfold bind. rewrite H. reflexivity. Qed.

Lemma bind_Panic {S A B} (c : M S A) (k : A -> M S B) s msg s' :
  c s = (Panic msg, s') -> bind c k s = (Panic msg, s').
Proof. intros H. unfold bind. rewrite H. reflexivity. Qed.

Lemma bind_OutOfFuel {S A B} (c : M S A) (k : A -> M S B) s s' :
  c s = (OutOfFuel, s') -> bind c k s = (OutOfFuel, s').
Proof. intros H. unfold bind. rewrite H. reflexivity. Qed.

Lemma bucketIDFromContext_missing (c : Context) (σ : world) :
  GetStringValue c "vars.name" = "" ->
  bucketIDFromContext c σ = (Err no_bucket, σ).
Proof.
  intros H. unfold bucketIDFromContext.
  destruct (decide (GetStringValue c "vars.name" = "")); [reflexivity | contradiction].
Qed.

(** X9: without a bucket name in the context no operation does anything:
    each of them returns the same error and leaves the world as it was.
    [Delete], which passes over a failed listing, does not pass over this
    one, and [Move] stops before it reads the source. *)
Theorem missing_bucket_is_refused T J D fuel (c : Context) p p'
    (content : list byte) append (σ : world) :
  GetStringValue c "vars.name" = "" ->
  GetContent c p σ = (Err no_bucket, σ) /\
  PutContent c p content σ = (Err no_bucket, σ) /\
  Writer T J D c p append σ = (Err no_bucket, σ) /\
  Stat c p σ = (Err no_bucket, σ) /\
  List J fuel c p σ = (Err no_bucket, σ) /\
  Delete fuel c p σ = (Err no_bucket, σ) /\
  Move fuel c p p' σ = (Err no_bucket, σ).
Proof.
  intros H.
  pose proof (bucketIDFromContext_missing c σ H) as Hb.
  assert (HG : GetContent c p σ = (Err no_bucket, σ))
    by (unfold GetContent, bind; rewrite Hb; reflexivity).
  split; [exact HG |].
  split; [unfold PutContent, bind; rewrite Hb; reflexivity |].
  split; [unfold Writer, bind; rewrite Hb; reflexivity |].
  split; [unfold Stat, bind; rewrite Hb; reflexivity |].
  split; [unfold List, bind; rewrite Hb; reflexivity |].
  split; [unfold Delete, bind; rewrite Hb; reflexivity |].
  unfold Move. unfold bind at 1. rewrite HG. reflexivity.
Qed.

(** X10: [Stat] makes the one request of the lookup and nothing else: an
    error of the lookup is returned as it is; an entry with its size and
    its modification time gives the path as it was asked for, those two
    values and no directory; an entry that lacks one of the two makes
    [Stat] panic. *)
Theorem Stat_reads_the_entry (c : Context) path (σ : world) :
  GetStringValue c "vars.name" <> "" ->
  let b := GetStringValue c "vars.name" in
  match getEntryByPath c b path σ with
  | (Ok entry, σ1) =>
      match v1.Entry_ContentSize entry, v1.Entry_LastModified entry with
      | Some size, Some modTime =>
          Stat c path σ = (Ok (path, size, modTime, false), σ1)
      | _, _ => exists msg, Stat c path σ = (Panic msg, σ1)
      end
  | (Err e, σ1) => Stat c path σ = (Err e, σ1)
  | (Panic msg, σ1) => Stat c path σ = (Panic msg, σ1)
  | (OutOfFuel, σ1) => Stat c path σ = (OutOfFuel, σ1)
  end /\
  exists n, snd (Stat c path σ) = set_net σ n.
Proof.
  intros Hb. cbv zeta.
  assert (HS : Stat c path σ =
               (entry <- getEntryByPath c (GetStringValue c "vars.name") path ;;
                size <- deref (v1.Entry_ContentSize entry) ;;
                modTime <- deref (v1.Entry_LastModified entry) ;;
                ret (path, size, modTime, false)) σ).
  { unfold Stat. unfold bind at 1. rewrite (bucketIDFromContext_ok c σ Hb).
    reflexivity. }
  rewrite HS. clear HS.
  assert (Hnet : exists n, snd (getEntryByPath c (GetStringValue c "vars.name")
                                  path σ) = set_net σ n).
  { unfold getEntryByPath, bind, remote.
    destruct (v1.GetEntryByPathWithResponse _ _ (net σ)) as [[res | e | msg |] n];
      cbn; eauto.
    destruct (v1.GetEntryByPath_JSON404 res); cbn; eauto.
    destruct (v1.GetEntryByPath_JSON500 res) as [bd |]; cbn.
    - destruct (v1.Reason bd); cbn; eauto.
    - destruct (v1.GetEntryByPath_JSON200 res); cbn; eauto. }
  destruct (getEntryByPath c (GetStringValue c "vars.name") path σ)
    as [[entry | e | msg |] σ1] eqn:E; cbn [snd] in Hnet.
  - rewrite (bind_Ok _ _ _ _ _ E). unfold bind, deref, ret, panic.
    destruct (v1.Entry_ContentSize entry) as [size |],
             (v1.Entry_LastModified entry) as [modTime |];
      (split; [first [reflexivity | eexists; reflexivity] | exact Hnet]).
  - rewrite (bind_Err _ _ _ _ _ E). split; [reflexivity | exact Hnet].
  - rewrite (bind_Panic _ _ _ _ _ E). split; [reflexivity | exact Hnet].
  - rewrite (bind_OutOfFuel _ _ _ _ E). split; [reflexivity | exact Hnet].
Qed.

Lemma List_paths_all J (es : list v1.Releaseentry) (σ : world) :
  Forall (fun e => is_Some (v1.Releaseentry_Path e)) es ->
  List_paths J es σ =
    (Ok (map (fun e => J ["/"; default "" (v1.Releaseentry_Path e)]) es), σ).
Proof.
  induction 1 as [| e es [p Hp] _ IH]; [reflexivity |].
  cbn [List_paths map]. unfold bind, deref, ret. rewrite Hp. cbn [default].
  unfold bind, ret in IH. rewrite IH. reflexivity.
Qed.

Lemma List_paths_nil J (es : list v1.Releaseentry) (σ : world) :
  Exists (fun e => v1.Releaseentry_Path e = None) es ->
  exists msg, List_paths J es σ = (Panic msg, σ).
Proof.
  induction es as [| e es IH]; intros Hex; [inversion Hex |].
  cbn [List_paths]. unfold bind, deref, ret, panic.
  destruct (v1.Releaseentry_Path e) as [p |] eqn:Hp; [| eexists; reflexivity].
  inversion Hex as [? ? He | ? ? Hes]; subst; [congruence |].
  destruct (IH Hes) as [msg Hm]. rewrite Hm. eexists; reflexivity.
Qed.

(** X11: [List] returns one path for each entry the listing gathered, in
    the order of the listing: the path of the entry joined to a slash.
    Unlike [Delete] it returns an error of the listing; and it panics when
    an entry has no path. *)
Theorem List_joins_the_paths J fuel (c : Context) listPath (σ : world) :
  GetStringValue c "vars.name" <> "" ->
  let b := GetStringValue c "vars.name" in
  (forall e σ1, getEntries fuel c b listPath σ = (Err e, σ1) ->
     List J fuel c listPath σ = (Err e, σ1) /\
     Delete fuel c listPath σ = (Ok tt, σ1)) /\
  (forall es σ1, getEntries fuel c b listPath σ = (Ok es, σ1) ->
     Forall (fun e => is_Some (v1.Releaseentry_Path e)) es ->
     List J fuel c listPath σ =
       (Ok (map (fun e => J ["/"; default "" (v1.Releaseentry_Path e)]) es), σ1)) /\
  (forall es σ1, getEntries fuel c b listPath σ = (Ok es, σ1) ->
     Exists (fun e => v1.Releaseentry_Path e = None) es ->
     exists msg, List J fuel c listPath σ = (Panic msg, σ1)).
Proof.
  intros Hb. cbv zeta.
  assert (HL : forall s, List J fuel c listPath s =
                 bind (getEntries fuel c (GetStringValue c "vars.name") listPath)
                   (List_paths J) s).
  { intros s. unfold List. unfold bind at 1.
    rewrite (bucketIDFromContext_ok c s Hb). reflexivity. }
  split; [| split].
  - intros e σ1 He. rewrite HL, (Delete_entries fuel c listPath σ Hb).
    unfold bind, swallow. rewrite He. auto.
  - intros es σ1 He Hall. rewrite HL. unfold bind. rewrite He.
    apply List_paths_all, Hall.
  - intros es σ1 He Hex. rewrite HL. unfold bind. rewrite He.
    apply List_paths_nil, Hex.
Qed.

(** X12: when the lookup does not give an entry with an ID, [GetContent]
    asks for no content: the remote is as the lookup left it.  A 404 gives
    [PathNotFoundError] with the path as it was asked for, and goes before a
    500, which gives its reason; an answer with none of the three bodies
    gives an error of its own; an error body without a reason and an entry
    without an ID make [GetContent] panic. *)
Theorem GetContent_lookup_failures (c : Context) path (σ : world) :
  GetStringValue c "vars.name" <> "" ->
  let b := GetStringValue c "vars.name" in
  match v1.GetEntryByPathWithResponse b {| v1.GetEntryByPath_Path := path |}
          (net σ) with
  | (Err e, r) => GetContent c path σ = (Err e, set_net σ r)
  | (Ok res, r) =>
      (v1.GetEntryByPath_JSON404 res <> None ->
       GetContent c path σ = (Err (PathNotFoundError path), set_net σ r)) /\
      (forall body,
         v1.GetEntryByPath_JSON404 res = None ->
         v1.GetEntryByPath_JSON500 res = Some body ->
         match v1.Reason body with
         | Some reason =>
             GetContent c path σ = (Err (UnexpectedError reason), set_net σ r)
         | None => exists msg, GetContent c path σ = (Panic msg, set_net σ r)
         end) /\
      (v1.GetEntryByPath_JSON404 res = None ->
       v1.GetEntryByPath_JSON500 res = None ->
       v1.GetEntryByPath_JSON200 res = None ->
       GetContent c path σ = (Err (EntryUndetermined b path), set_net σ r)) /\
      (forall entry,
         v1.GetEntryByPath_JSON404 res = None ->
         v1.GetEntryByPath_JSON500 res = None ->
         v1.GetEntryByPath_JSON200 res = Some entry ->
         v1.Entry_Entryid entry = None ->
         exists msg, GetContent c path σ = (Panic msg, set_net σ r))
  | (Panic msg, r) => GetContent c path σ = (Panic msg, set_net σ r)
  | (OutOfFuel, r) => GetContent c path σ = (OutOfFuel, set_net σ r)
  end.
Proof.
  intros Hb. cbv zeta. rewrite (GetContent_steps c path σ Hb).
  destruct (v1.GetEntryByPathWithResponse _ _ (net σ)) as [[res | e | msg |] r]
    eqn:Hcall.
  - split; [| split; [| split]].
    + intros H. apply bind_Err. unfold getEntryByPath, bind, remote.
      rewrite Hcall. destruct (v1.GetEntryByPath_JSON404 res);
        [reflexivity | congruence].
    + intros body H404 H500. destruct (v1.Reason body) as [reason |] eqn:Hr.
      * apply bind_Err. unfold getEntryByPath, bind, remote.
        rewrite Hcall, H404, H500. unfold deref. rewrite Hr. reflexivity.
      * eexists. apply bind_Panic. unfold getEntryByPath, bind, remote.
        rewrite Hcall, H404, H500. unfold deref. rewrite Hr. reflexivity.
    + intros H404 H500 H200. apply bind_Err.
      unfold getEntryByPath, bind, remote.
      rewrite Hcall, H404, H500, H200. reflexivity.
    + intros entry H404 H500 H200 Hid. eexists.
      erewrite bind_Ok;
        [| unfold getEntryByPath, bind, remote;
           rewrite Hcall, H404, H500, H200; reflexivity].
      apply bind_Panic. unfold deref. rewrite Hid. reflexivity.
  - apply bind_Err. unfold getEntryByPath, bind, remote. rewrite Hcall.
    reflexivity.
  - apply bind_Panic. unfold getEntryByPath, bind, remote. rewrite Hcall.
    reflexivity.
  - apply bind_OutOfFuel. unfold getEntryByPath, bind, remote. rewrite Hcall.
    reflexivity.
Qed.

(** The loop of the listing, read backwards: what it returns without error
    was served page by page. *)
Lemma getEntries_loop_sound bucketID listPath fuel :
  forall page acc (σ σ' : world) es,
  getEntries_loop fuel bucketID listPath page acc σ = (Ok es, σ') ->
  exists pages,
    serves bucketID listPath page (net σ) pages (net σ') /\
    es = acc ++ concat pages /\ (length pages < fuel)%nat /\
    σ' = set_net σ (net σ').
Proof.
  induction fuel as [| fuel IH]; intros page acc σ σ' es; [discriminate |].
  cbn [getEntries_loop]. unfold bind, remote.
  change {| v1.GetDiffEntries_Path := Some listPath; v1.Page := Some page;
            v1.PerPage := Some 1 |} with (page_request listPath page).
  destruct (v1.GetDiffEntriesWithResponse bucketID (page_request listPath page)
              (net σ)) as [[res | e | msg |] r1] eqn:Hcall; try discriminate.
  destruct (v1.GetDiffEntries_JSON404 res) eqn:H404; [discriminate |].
  destruct (v1.GetDiffEntries_JSON500 res) as [bd |] eqn:H500.
  { unfold deref, fail, panic. destruct (v1.Reason bd); discriminate. }
  destruct (v1.GetDiffEntries_JSON200 res) as [[| e0 rest] |] eqn:H200.
  - intros [= <- <-]. exists []. cbn. rewrite app_nil_r.
    split; [| split; [reflexivity | split; [lia | reflexivity]]].
    eapply serves_last; [exact Hcall |]. unfold last_page. auto.
  - intros Hloop.
    destruct (IH _ _ _ _ _ Hloop) as (pages & Hs & Hes & Hlen & Hσ).
    exists ((e0 :: rest) :: pages). cbn [net set_net] in Hs.
    split; [| split; [| split]].
    + eapply serves_page; [exact Hcall | | exact Hs].
      unfold full_page. repeat split; solve [auto | discriminate].
    + rewrite Hes. cbn [concat]. rewrite <- app_assoc. reflexivity.
    + cbn [length]. lia.
    + rewrite Hσ. reflexivity.
  - intros [= <- <-]. exists []. cbn. rewrite app_nil_r.
    split; [| split; [reflexivity | split; [lia | reflexivity]]].
    eapply serves_last; [exact Hcall |]. unfold last_page. auto.
Qed.

(** More fuel does not change what the loop returns once it returns. *)
Lemma getEntries_loop_fuel bucketID listPath fuel :
  forall page acc (σ : world) extra,
  fst (getEntries_loop fuel bucketID listPath page acc σ) <> OutOfFuel ->
  getEntries_loop (fuel + extra) bucketID listPath page acc σ =
  getEntries_loop fuel bucketID listPath page acc σ.
Proof.
  induction fuel as [| fuel IH]; intros page acc σ extra; [cbn; congruence |].
  cbn [getEntries_loop Nat.add]. unfold bind.
  destruct (remote _ σ) as [[res | e | msg |] σ1]; try reflexivity.
  destruct (v1.GetDiffEntries_JSON404 res); [reflexivity |].
  destruct (v1.GetDiffEntries_JSON500 res); [reflexivity |].
  destruct (v1.GetDiffEntries_JSON200 res) as [[| e0 rest] |]; try reflexivity.
  apply IH.
Qed.

(** X13: the listing returns nothing it was not served: what [getEntries]
    returns without error is the pages the service answered, from page one
    on and one after the other, up to the first page that ends the listing;
    it changes nothing but the remote; and once it returns, with or without
    error, it returns the same with any longer run of the loop. *)
Theorem getEntries_is_exact fuel (c : Context) bucketID listPath (σ : world) :
  (forall es σ', getEntries fuel c bucketID listPath σ = (Ok es, σ') ->
     exists pages,
       serves bucketID (TrimPrefix_slash listPath) 1 (net σ) pages (net σ') /\
       es = concat pages /\ (length pages < fuel)%nat /\
       σ' = set_net σ (net σ')) /\
  (fst (getEntries fuel c bucketID listPath σ) <> OutOfFuel ->
   forall extra, getEntries (fuel + extra) c bucketID listPath σ =
                 getEntries fuel c bucketID listPath σ).
Proof.
  split.
  - intros es σ' H. unfold getEntries in H.
    destruct (getEntries_loop_sound _ _ _ _ _ _ _ _ H) as (pages & H1 & H2 & H3 & H4).
    exists pages. auto.
  - intros H extra. unfold getEntries in *. apply getEntries_loop_fuel, H.
Qed.

End DriverExtras.

(** ** What each call of the writer touches *)

Section Touches.
Context {R : Type} {client : v1.ClientWithResponsesInterface R}.
Abbreviation world := (World R).
Abbreviation wstate := (writer * world)%type.

Lemma keeps_world_io {A B} (P : world -> B) (c : M world A) :
  keeps P c -> keeps (fun s : wstate => P (snd s)) (io c).
Proof.
  intros Hc [w σ]. unfold io. specialize (Hc σ).
  destruct (c σ) as [r σ']. exact Hc.
Qed.

Lemma keeps_world_update {B} (P : world -> B) f :
  keeps (fun s : wstate => P (snd s)) (update f).
Proof. intros [w σ]; reflexivity. Qed.

Lemma keeps_world_flush {B} (P : world -> B) :
  (forall b σ, P (snd (bw_Flush b σ)) = P σ) ->
  keeps (fun s : wstate => P (snd s)) flush.
Proof.
  intros H [w σ]. unfold flush. specialize (H (bw w) σ).
  destruct (bw_Flush (bw w) σ) as [[err b] σ']. exact H.
Qed.

(** *** The handles *)

Lemma status_insert fd fd' f pos (σ : world) :
  fds σ !! fd = Some f ->
  handle_status fd'
    (set_fds σ (<[fd := {| fname := fname f; fino := fino f; fpos := pos;
                           fclosed := fclosed f |}]> (fds σ)))
  = handle_status fd' σ.
Proof.
  intros Hfd. unfold handle_status. cbn.
  destruct (decide (fd' = fd)) as [-> | Hne].
  - rewrite lookup_insert_eq, Hfd. reflexivity.
  - rewrite lookup_insert_ne by congruence. reflexivity.
Qed.

Lemma keeps_status_syscall fd' : keeps (handle_status fd') (@syscall R).
Proof.
  intros σ. unfold syscall, next_fault.
  destruct (plan σ) as [| [ft |] rest]; reflexivity.
Qed.

Lemma keeps_status_file_Sync fd' fd : keeps (handle_status fd') (@file_Sync R fd).
Proof.
  intros σ. unfold file_Sync, bind, open_file.
  destruct (fds σ !! fd) as [f |]; [| reflexivity].
  destruct (fclosed f); [reflexivity |]. apply keeps_status_syscall.
Qed.

Lemma keeps_status_file_Stat fd' fd : keeps (handle_status fd') (@file_Stat R fd).
Proof.
  intros σ. unfold file_Stat, bind, open_file.
  destruct (fds σ !! fd) as [f |]; [| reflexivity].
  destruct (fclosed f); [reflexivity |].
  pose proof (keeps_status_syscall fd' σ) as H.
  destruct (syscall σ) as [[[] | e | msg |] σ1]; exact H.
Qed.

Lemma keeps_status_file_Seek fd' fd offset whence :
  keeps (handle_status fd') (@file_Seek R fd offset whence).
Proof.
  intros σ. unfold file_Seek, bind, open_file.
  destruct (fds σ !! fd) as [f |] eqn:Hfd; [| reflexivity].
  destruct (fclosed f); [reflexivity |].
  unfold syscall, next_fault.
  destruct (plan σ) as [| [ft |] rest]; cbn [fst snd]; try reflexivity;
    (destruct (_ <? 0); [reflexivity |]; unfold set_pos, ret; cbn [snd];
     rewrite status_insert by exact Hfd; reflexivity).
Qed.

Lemma keeps_status_file_ReadAll fd' fd :
  keeps (handle_status fd') (@file_ReadAll R fd).
Proof.
  intros σ. unfold file_ReadAll, bind, open_file.
  destruct (fds σ !! fd) as [f |] eqn:Hfd; [| reflexivity].
  destruct (fclosed f); [reflexivity |].
  unfold next_fault.
  destruct (plan σ) as [| [ft |] rest]; unfold set_pos, ret, fail; cbn [snd];
    rewrite status_insert by exact Hfd; reflexivity.
Qed.

Lemma status_file_Write fd' fd p (σ : world) :
  handle_status fd' (snd (file_Write fd p σ)) = handle_status fd' σ.
Proof.
  unfold file_Write, open_file.
  destruct (fds σ !! fd) as [f |] eqn:Hfd; [| reflexivity].
  destruct (fclosed f); [reflexivity |].
  unfold next_fault.
  destruct (plan σ) as [| [ft |] rest]; unfold set_pos, set_data; cbn [snd];
    rewrite status_insert by exact Hfd; reflexivity.
Qed.

Lemma status_bw_Flush fd' (b : BufWriter) (σ : world) :
  handle_status fd' (snd (bw_Flush b σ)) = handle_status fd' σ.
Proof.
  unfold bw_Flush. destruct (berr b); [reflexivity |].
  destruct (buf b) as [| x l]; [reflexivity |].
  pose proof (status_file_Write fd' (bwr b) (x :: l) σ) as H.
  destruct (file_Write (bwr b) (x :: l) σ) as [[n [e |]] σ1]; [exact H |].
  destruct (n <? _)%nat; exact H.
Qed.

Lemma status_bw_Write_loop fd' fuel :
  forall (b : BufWriter) p nn (σ : world),
  handle_status fd' (snd (bw_Write_loop fuel b p nn σ)) = handle_status fd' σ.
Proof.
  induction fuel as [| fuel IH]; intros b p nn σ; [reflexivity |].
  rewrite bw_Write_loop_S.
  destruct ((Available b <? length p)%nat && bool_decide (berr b = None));
    [| reflexivity].
  destruct (buf b) as [| x l].
  - pose proof (status_file_Write fd' (bwr b) p σ) as H.
    destruct (file_Write (bwr b) p σ) as [[n err] σ1].
    rewrite IH. exact H.
  - cbv beta iota zeta.
    pose proof (status_bw_Flush fd'
                  {| bwr := bwr b; buf := (x :: l) ++ take (Available b) p;
                     berr := berr b |} σ) as H.
    destruct (bw_Flush _ σ) as [[r b1] σ1]. rewrite IH. exact H.
Qed.

Lemma keeps_status_remote {A} fd' (c : M R A) :
  keeps (handle_status fd') (remote c).
Proof. intros σ. unfold remote. destruct (c (net σ)); reflexivity. Qed.

Lemma keeps_status_os_Remove fd' name :
  keeps (handle_status fd') (@os_Remove R name).
Proof.
  intros σ. unfold os_Remove, bind, syscall, next_fault.
  destruct (plan σ) as [| [ft |] rest]; cbn; try reflexivity;
    destruct (names σ !! name); reflexivity.
Qed.

Lemma keeps_status_createOrUpdateEntry fd' c b p h n :
  keeps (handle_status fd') (createOrUpdateEntry c b p h n).
Proof.
  unfold createOrUpdateEntry.
  apply keeps_bind; [apply keeps_status_remote | intros res].
  destruct (v1.CreateOrUpdate_JSON200 res) as [e |]; [| auto with keeps].
  destruct (v1.Entry_Entryid e); auto with keeps.
Qed.

Lemma keeps_status_uploadContent fd' c b id h fd :
  keeps (handle_status fd') (uploadContent c b id h (file_ReadAll fd)).
Proof.
  unfold uploadContent. apply keeps_bind.
  - apply keeps_bind; [apply keeps_status_file_ReadAll |].
    intros body; apply keeps_status_remote.
  - intros res. case_decide; auto with keeps.
Qed.

(** *** The remote *)

Lemma keeps_net_bw_Flush (b : BufWriter) (σ : world) :
  net (snd (bw_Flush b σ)) = net σ.
Proof.
  pose proof (bw_Flush_surroundings b σ) as [_ H]. injection H; auto.
Qed.

Lemma Write_world {B} (P : world -> B) p (s : wstate) :
  (forall b p σ, P (snd (bw_Write b p σ)) = P σ) ->
  P (snd (snd (Write p s))) = P (snd s).
Proof.
  intros H. destruct s as [w σ]. unfold Write.
  destruct (closed w); [reflexivity |]. destruct (committed w); [reflexivity |].
  destruct (cancelled w); [reflexivity |].
  specialize (H (bw w) p σ).
  destruct (bw_Write (bw w) p σ) as [[[n err] b1] σ1]. exact H.
Qed.

Lemma bw_Write_surroundings (b : BufWriter) p (σ : world) :
  surroundings (snd (bw_Write b p σ)) = surroundings σ.
Proof.
  pose proof (bw_Write_count b p σ) as H.
  destruct (bw_Write b p σ) as [[[n err] b1] σ1]. apply H.
Qed.

Lemma bw_Write_status fd' (b : BufWriter) p (σ : world) :
  handle_status fd' (snd (bw_Write b p σ)) = handle_status fd' σ.
Proof.
  unfold bw_Write.
  pose proof (status_bw_Write_loop fd' 2 b p 0%nat σ) as H.
  destruct (bw_Write_loop 2 b p 0 σ) as [[[nn b1] p1] σ1].
  destruct (berr b1); exact H.
Qed.

Lemma Close_keeps_surroundings :
  keeps (fun s : wstate => surroundings (snd s)) (@Close R).
Proof.
  unfold Close. apply keeps_bind; [intros s; reflexivity | intros w].
  destruct (closed w); [apply keeps_fail |].
  apply keeps_bind; [| intros _].
  { apply keeps_world_flush. intros b σ. apply bw_Flush_surroundings. }
  apply keeps_bind; [| intros _].
  { apply (keeps_world_io (@surroundings R)), keeps_surroundings_file_Sync. }
  apply keeps_bind; [| intros _].
  { apply (keeps_world_io (@surroundings R)), keeps_surroundings_file_Close. }
  apply keeps_world_update.
Qed.

Lemma Cancel_keeps_net : keeps (fun s : wstate => net (snd s)) (@Cancel R).
Proof.
  unfold Cancel. apply keeps_bind; [intros s; reflexivity | intros w].
  destruct (closed w); [apply keeps_fail |].
  apply keeps_bind; [apply keeps_world_update | intros _].
  apply keeps_bind; [| intros _].
  { apply keeps_ignore_error, (keeps_world_io (@net R)).
    intros σ. pose proof (keeps_surroundings_file_Close (file w) σ) as H.
    injection H; auto. }
  apply keeps_tolerate.
  intros [w' σ]. unfold io.
  pose proof (keeps_net_os_Remove (file_Name (file w) σ) σ) as H.
  destruct (os_Remove _ σ). exact H.
Qed.

Lemma Commit_keeps_status fd' :
  keeps (fun s : wstate => handle_status fd' (snd s)) (@Commit R client).
Proof.
  unfold Commit. apply keeps_bind; [intros s; reflexivity | intros w].
  destruct (closed w); [apply keeps_fail |].
  destruct (committed w); [apply keeps_fail |].
  destruct (cancelled w); [apply keeps_fail |].
  repeat first
    [ apply keeps_world_update
    | apply keeps_wrap
    | apply keeps_world_flush; intros b σ; apply status_bw_Flush
    | apply (keeps_world_io (handle_status fd'));
      first [ apply keeps_status_file_Sync | apply keeps_status_file_Stat
            | apply keeps_status_file_Seek | apply keeps_status_file_ReadAll
            | apply keeps_status_createOrUpdateEntry
            | apply keeps_status_uploadContent ]
    | apply keeps_bind; [| intros ?] ].
  intros [w' σ]. unfold io.
  pose proof (keeps_status_os_Remove fd' (file_Name (file w) σ) σ) as H.
  destruct (os_Remove _ σ). exact H.
Qed.


End Touches.

(** ** The handle after [Commit], and a [Writer] that fails *)

Section HandleFacts.
Context {R : Type} {client : v1.ClientWithResponsesInterface R}.
Abbreviation world := (World R).
Abbreviation wstate := (writer * world)%type.

Lemma holds_status fd (σ : world) data pos :
  holds fd σ data pos -> handle_status fd σ = Some false.
Proof.
  intros (f & Hfd & Hopen & _). unfold handle_status. rewrite Hfd. cbn.
  rewrite Hopen. reflexivity.
Qed.

Lemma file_Close_quiet fd (σ : world) data pos :
  holds fd σ data pos -> plan σ = [] ->
  exists σ', file_Close fd σ = (Ok tt, σ') /\
             handle_status fd σ' = Some true.
Proof.
  intros (f & Hfd & Hopen & _) Hp. unfold file_Close. unfold bind at 1.
  rewrite (open_file_open fd f σ Hfd Hopen). unfold bind.
  rewrite syscall_no_fault by exact Hp.
  eexists. split; [reflexivity |].
  unfold handle_status. cbn. rewrite lookup_insert_eq. reflexivity.
Qed.

Lemma os_Remove_plan name (σ : world) :
  plan σ = [] -> plan (snd (os_Remove name σ)) = [].
Proof.
  intros Hp. unfold os_Remove, bind. rewrite (syscall_no_fault σ Hp).
  destruct (names σ !! name); exact Hp.
Qed.


Lemma os_OpenFile_handles name fd (σ σ1 : world) :
  os_OpenFile name σ = (Ok fd, σ1) ->
  fds σ !! fd = None /\
  (forall fd', fd' <> fd -> fds σ1 !! fd' = fds σ !! fd') /\
  net σ1 = net σ /\
  (names σ1 = names σ \/
   names σ !! name = None /\ file_at name σ1 = Some []).
Proof.
  unfold os_OpenFile, bind, syscall, next_fault.
  assert (Hfresh : forall m : gmap nat OpenFile, m !! fresh (dom m) = None)
    by (intros m; apply not_elem_of_dom_1, is_fresh).
  destruct (plan σ) as [| [ft |] rest]; cbn [fst snd]; try discriminate;
    (destruct (names _ !! name) as [ino |] eqn:Hname; cbn in Hname;
     intros [= <- <-]; cbn;
     (split; [apply Hfresh |]);
     (split; [intros fd' Hne; rewrite lookup_insert_ne by congruence;
              reflexivity |]);
     (split; [reflexivity |]);
     [left; reflexivity
     | right; split; [first [exact Hname | reflexivity] |];
       unfold file_at, file_data; cbn; rewrite lookup_insert_eq; cbn;
       rewrite lookup_insert_eq; reflexivity]).
Qed.

Lemma os_OpenFile_failed name (σ σ1 : world) r :
  os_OpenFile name σ = (r, σ1) -> (forall fd, r <> Ok fd) ->
  fds σ1 = fds σ /\ disk σ1 = disk σ /\ net σ1 = net σ.
Proof.
  unfold os_OpenFile, bind, syscall, next_fault.
  destruct (plan σ) as [| [ft |] rest]; cbn [fst snd];
    try (intros [= <- <-]; auto);
    destruct (names _ !! name); intros [= <- <-] H; exfalso; eapply H; reflexivity.
Qed.

Lemma file_Seek_failed fd offset whence (σ σ1 : world) e :
  file_Seek fd offset whence σ = (Err e, σ1) ->
  fds σ1 = fds σ /\ disk σ1 = disk σ /\ net σ1 = net σ.
Proof.
  unfold file_Seek, bind, open_file.
  destruct (fds σ !! fd) as [f |]; [| intros [= _ <-]; auto].
  destruct (fclosed f); [intros [= _ <-]; auto |].
  unfold syscall, next_fault.
  destruct (plan σ) as [| [ft |] rest]; cbn [fst snd];
    try (intros [= _ <-]; auto);
    (destruct (_ <? 0); [intros [= _ <-]; auto | discriminate]).
Qed.

Lemma file_Truncate_failed fd size (σ σ1 : world) e :
  file_Truncate fd size σ = (Err e, σ1) ->
  fds σ1 = fds σ /\ disk σ1 = disk σ /\ net σ1 = net σ.
Proof.
  unfold file_Truncate, bind, open_file.
  destruct (fds σ !! fd) as [f |]; [| intros [= _ <-]; auto].
  destruct (fclosed f); [intros [= _ <-]; auto |].
  unfold syscall, next_fault.
  destruct (plan σ) as [| [ft |] rest]; cbn [fst snd];
    try (intros [= _ <-]; auto); discriminate.
Qed.

(** [f.Close()] on an open handle closes it, whatever it returns, and
    touches nothing else. *)
Lemma file_Close_open fd f (σ : world) :
  fds σ !! fd = Some f -> fclosed f = false ->
  handle_status fd (snd (file_Close fd σ)) = Some true /\
  (forall fd', fd' <> fd ->
     fds (snd (file_Close fd σ)) !! fd' = fds σ !! fd') /\
  disk (snd (file_Close fd σ)) = disk σ /\ net (snd (file_Close fd σ)) = net σ.
Proof.
  intros Hfd Hopen.
  destruct (file_Close fd σ) as [r σ'] eqn:E. cbn [snd].
  unfold file_Close in E. unfold bind at 1 in E.
  rewrite (open_file_open fd f σ Hfd Hopen) in E.
  unfold bind, syscall, next_fault in E. cbn in E.
  destruct (plan σ) as [| [ft |] rest]; cbn in E; injection E as _ <-;
    (split; [unfold handle_status; cbn; rewrite lookup_insert_eq; reflexivity |]);
    (split; [intros fd' Hne; cbn; rewrite lookup_insert_ne by congruence;
             reflexivity | split; reflexivity]).
Qed.

(** X16: a [Writer] that returns an error gives no handle away: every
    handle that is open afterwards was open before, the one it opened is
    closed again.  It leaves the remote and the files that existed as they
    were; but a staging file it created is left behind, empty. *)
Theorem Writer_failure_leaks_no_handle T J D (c : Context) dataPath append
    (σ σ' : world) e :
  Writer T J D c dataPath append σ = (Err e, σ') ->
  (forall fd, handle_status fd σ' = Some false ->
              handle_status fd σ = Some false) /\
  net σ' = net σ /\
  (forall n, is_Some (names σ !! n) -> file_at n σ' = file_at n σ) /\
  (names σ' = names σ \/
   names σ !! staging_name T J dataPath = None /\
   file_at (staging_name T J dataPath) σ' = Some []).
Proof.
  unfold Writer, staging_name. unfold bind at 1.
  unfold bucketIDFromContext at 1.
  destruct (decide (GetStringValue c "vars.name" = "")) as [Hb | Hb].
  { intros [= _ <-]. auto. }
  unfold ret at 1. unfold bind at 1. unfold os_MkdirAll.
  pose proof (keeps_disk_syscall σ) as Hd1.
  pose proof (keeps_net_syscall σ) as Hn1.
  assert (Hf1 : fds (snd (syscall σ)) = fds σ).
  { unfold syscall, next_fault. destruct (plan σ) as [| [ft |] rest]; reflexivity. }
  destruct (syscall σ) as [[[] | e1 | msg |] σ1]; cbn [snd] in *;
    try discriminate.
  2: { intros [= _ <-]. unfold handle_status. rewrite Hf1.
       split; [auto |]. split; [exact Hn1 |].
       split; [intros n _; apply file_at_disk, Hd1 |].
       left. injection Hd1; auto. }
  assert (Hnames1 : names σ1 = names σ) by (injection Hd1; auto).
  unfold bind at 1.
  destruct (os_OpenFile (J [J [T; "ccd"%string]; dataPath]) σ1)
    as [[fd | e2 | msg |] σ2] eqn:Hop.
  2: { intros [= _ <-].
       destruct (os_OpenFile_failed _ _ _ _ Hop) as (Hf2 & Hd2 & Hn2);
         [discriminate |].
       unfold handle_status. rewrite Hf2, Hf1.
       split; [auto |]. split; [congruence |].
       split; [intros n _; rewrite (file_at_disk n σ1 σ2 Hd2);
               apply file_at_disk, Hd1 |].
       left. injection Hd2; congruence. }
  2, 3: discriminate.
  destruct (os_OpenFile_handles _ _ _ _ Hop) as (Hnew & Hold & Hn2 & Hcreated).
  destruct (os_OpenFile_ok _ _ _ _ Hop) as (ino & Hname2 & Hfd2 & _ & Hfiles2).
  intros HW.
  assert (Hend : exists σ3, fds σ3 = fds σ2 /\ disk σ3 = disk σ2 /\
                            net σ3 = net σ2 /\ σ' = snd (file_Close fd σ3)).
  { destruct append; unfold on_error in HW;
      unfold bind, ignore_error, fail, ret in HW.
    - destruct (file_Seek fd 0 SeekEnd σ2) as [[n | e3 | msg |] σ3] eqn:Hs;
        try discriminate.
      destruct (file_Seek_failed _ _ _ _ _ _ Hs) as (A & B & C0).
      exists σ3. split; [exact A |]. split; [exact B |]. split; [exact C0 |].
      cbv beta iota in HW.
      destruct (file_Close fd σ3) as [[[] | ? | ? |] σ4]; cbn in HW;
        try discriminate; injection HW as _ <-; reflexivity.
    - destruct (file_Truncate fd 0 σ2) as [[[] | e3 | msg |] σ3] eqn:Hs;
        try discriminate.
      destruct (file_Truncate_failed _ _ _ _ _ Hs) as (A & B & C0).
      exists σ3. split; [exact A |]. split; [exact B |]. split; [exact C0 |].
      cbv beta iota in HW.
      destruct (file_Close fd σ3) as [[[] | ? | ? |] σ4]; cbn in HW;
        try discriminate; injection HW as _ <-; reflexivity. }
  destruct Hend as (σ3 & Hf3 & Hd3 & Hn3 & ->).
  assert (Hfd3 : fds σ3 !! fd = Some {| fname := J [J [T; "ccd"%string]; dataPath];
                                        fino := ino; fpos := 0; fclosed := false |})
    by (rewrite Hf3; exact Hfd2).
  destruct (file_Close_open fd _ σ3 Hfd3 eq_refl) as (Hst & Hothers & Hd4 & Hn4).
  assert (Hfile : forall n, file_at n (snd (file_Close fd σ3)) = file_at n σ2).
  { intros n. rewrite (file_at_disk n σ3 _ Hd4). apply file_at_disk, Hd3. }
  split; [| split; [congruence | split]].
  - intros fd' Hopen'. destruct (decide (fd' = fd)) as [-> | Hne];
      [congruence |].
    unfold handle_status in *.
    rewrite (Hothers fd' Hne), Hf3, (Hold fd' Hne), Hf1 in Hopen'. exact Hopen'.
  - intros n Hn. rewrite Hfile, (Hfiles2 n) by (rewrite Hnames1; exact Hn).
    apply file_at_disk, Hd1.
  - assert (Hnames4 : names (snd (file_Close fd σ3)) = names σ2).
    { injection Hd4 as _ ->. injection Hd3; auto. }
    destruct Hcreated as [Hsame | [Hnone Hempty]].
    + left. congruence.
    + right. split; [congruence |]. rewrite Hfile. exact Hempty.
Qed.

End HandleFacts.

(** ** Against the reference remote *)

Section OnMem.
Abbreviation mworld := (World Mem.remote).

Lemma set_net_same (σ : mworld) : set_net σ (net σ) = σ.
Proof. destruct σ; reflexivity. Qed.

Lemma drop_next {A} (k : nat) (l : list A) x rest :
  drop k l = x :: rest -> drop (S k) l = rest.
Proof.
  intros H. replace (S k) with (k + 1)%nat by lia.
  rewrite <- drop_drop, H. reflexivity.
Qed.

(** The loop of the listing against a service that answers page by page:
    from the page after the first [k] entries on. *)
Lemma getEntries_loop_on_Mem b p (σ : mworld) :
  Mem.script (net σ) = [] ->
  let found := List.filter (Mem.under b p) (Mem.entries (net σ)) in
  forall fuel k acc,
  (length found < fuel + k)%nat ->
  Z.of_nat (fuel + k) < 9223372036854775808 ->
  (k <= length found)%nat ->
  getEntries_loop fuel b p (Z.of_nat k + 1) acc σ =
    (Ok (acc ++ map Mem.release_entry (drop k found)), σ).
Proof.
  intros Hs found. induction fuel as [| fuel IH]; intros k acc Hf Hb Hk; [lia |].
  cbn [getEntries_loop]. unfold bind, remote. cbn [v1.GetDiffEntriesWithResponse Mem.client].
  unfold Mem.GetDiffEntries, Mem.next_disturbance. rewrite Hs.
  cbn [v1.GetDiffEntries_Path v1.Page v1.PerPage default
       v1.GetDiffEntries_JSON404 v1.GetDiffEntries_JSON500
       v1.GetDiffEntries_JSON200].
  cbv beta iota zeta.
  cbn [v1.GetDiffEntries_Path v1.Page v1.PerPage default
       v1.GetDiffEntries_JSON404 v1.GetDiffEntries_JSON500
       v1.GetDiffEntries_JSON200].
  unfold id. rewrite set_net_same.
  replace (Z.to_nat (Z.of_nat k + 1) - 1)%nat with k by lia.
  replace (Z.to_nat 1) with 1%nat by reflexivity. rewrite Nat.mul_1_r.
  fold found.
  destruct (drop k found) as [| x rest] eqn:Hd.
  - cbn. rewrite app_nil_r. reflexivity.
  - cbn [take map].
    assert (Hlen : (k < length found)%nat).
    { destruct (decide (k < length found)%nat) as [H | H]; [exact H |].
      rewrite drop_ge in Hd by lia. discriminate. }
    rewrite wrap64_small by lia.
    replace (Z.of_nat k + 1 + 1) with (Z.of_nat (S k) + 1) by lia.
    rewrite IH by lia. rewrite (drop_next k found x rest Hd).
    rewrite <- app_assoc. reflexivity.
Qed.

Lemma getEntries_lists_all_on_Mem_gen fuel (c : Context) b listPath (σ : mworld) :
  Mem.script (net σ) = [] ->
  (length (List.filter (Mem.under b (TrimPrefix_slash listPath))
             (Mem.entries (net σ))) < fuel)%nat ->
  Z.of_nat fuel < 9223372036854775808 ->
  getEntries fuel c b listPath σ =
    (Ok (map Mem.release_entry
           (List.filter (Mem.under b (TrimPrefix_slash listPath))
              (Mem.entries (net σ)))), σ).
Proof.
  intros Hs Hf Hb. unfold getEntries.
  pose proof (getEntries_loop_on_Mem b (TrimPrefix_slash listPath) σ Hs fuel 0 [])
    as H.
  cbv zeta in H. cbn [Z.of_nat Z.add] in H. apply H; lia.
Qed.

(** X17: the pages add up.  Against a service that answers a request for
    page [n] of size one with the [n]-th entry under the path, and that
    nothing disturbs, [getEntries] returns every entry under the path, once
    and in the order of the service, and leaves the world as it was. *)
Theorem getEntries_lists_all_on_Mem fuel (c : Context) b listPath (σ : mworld) :
  Mem.script (net σ) = [] ->
  let found := List.filter (Mem.under b (TrimPrefix_slash listPath))
                 (Mem.entries (net σ)) in
  (length found < fuel)%nat -> Z.of_nat fuel < 9223372036854775808 ->
  getEntries fuel c b listPath σ = (Ok (map Mem.release_entry found), σ).
Proof.
  intros Hs found Hf Hb.
  exact (getEntries_lists_all_on_Mem_gen fuel c b listPath σ Hs Hf Hb).
Qed.

Lemma filter_ext_in {A} (P Q : A -> Prop) `{!forall x, Decision (P x)}
    `{!forall x, Decision (Q x)} (l : list A) :
  (forall x, x ∈ l -> P x <-> Q x) -> filter P l = filter Q l.
Proof.
  induction l as [| a l IH]; intros Hext; [reflexivity |].
  rewrite !filter_cons.
  assert (Ha : P a <-> Q a) by (apply Hext; left).
  rewrite IH by (intros x Hx; apply Hext; right; exact Hx).
  destruct (decide (P a)), (decide (Q a)); tauto || reflexivity.
Qed.

Lemma filter_all {A} (P : A -> Prop) `{!forall x, Decision (P x)} (l : list A) :
  (forall x, x ∈ l -> P x) -> filter P l = l.
Proof.
  induction l as [| a l IH]; intros Hall; [reflexivity |].
  rewrite filter_cons. destruct (decide (P a)) as [_ | Hn].
  - f_equal. apply IH. intros x Hx. apply Hall. right. exact Hx.
  - exfalso. apply Hn, Hall. left.
Qed.

Lemma with_id_key b (x y : Mem.entry) :
  Mem.e_bucket x = b ->
  Mem.with_id b (Mem.e_id x) y = true <-> Mem.key y = Mem.key x.
Proof.
  intros <-. unfold Mem.with_id, Mem.key. rewrite andb_true_iff.
  rewrite !String.eqb_eq. split; [intros [-> ->]; reflexivity |].
  intros [= -> ->]. auto.
Qed.

Lemma NoDup_key_inj (l : list Mem.entry) x y :
  NoDup (map Mem.key l) -> x ∈ l -> y ∈ l -> Mem.key x = Mem.key y -> x = y.
Proof.
  induction l as [| a l IH]; intros Hnd Hx Hy Hk; [inversion Hx |].
  cbn [map] in Hnd. apply NoDup_cons in Hnd as [Ha Hnd].
  apply elem_of_cons in Hx as [-> | Hx]; apply elem_of_cons in Hy as [-> | Hy].
  - reflexivity.
  - exfalso. apply Ha. rewrite Hk. apply (list_elem_of_fmap_2 Mem.key), Hy.
  - exfalso. apply Ha. rewrite <- Hk. apply (list_elem_of_fmap_2 Mem.key), Hx.
  - apply IH; assumption.
Qed.

(** The loop of [Delete] against the reference remote: each deletion is
    confirmed, and the entries left are those with none of the keys. *)
Lemma Delete_loop_on_Mem (c : Context) b (todo : list Mem.entry) :
  forall σ : mworld,
  Mem.script (net σ) = [] ->
  NoDup (map Mem.key (Mem.entries (net σ))) ->
  NoDup (map Mem.key todo) ->
  (forall x, x ∈ todo -> x ∈ Mem.entries (net σ) /\ Mem.e_bucket x = b) ->
  exists σ',
    Delete_loop c b (map Mem.release_entry todo) σ = (Ok tt, σ') /\
    σ' = set_net σ (net σ') /\ Mem.script (net σ') = [] /\
    Mem.entries (net σ') =
      filter (fun y => Mem.key y ∉ map Mem.key todo) (Mem.entries (net σ)).
Proof.
  induction todo as [| x rest IH]; intros σ Hs Hnd Hnt Hin.
  - exists σ. cbn. split; [reflexivity |]. split; [symmetry; apply set_net_same |].
    split; [exact Hs |].
    symmetry. apply filter_all. intros y _. apply not_elem_of_nil.
  - destruct (Hin x) as [Hx Hbx]; [left |].
    cbn [map] in Hnt. apply NoDup_cons in Hnt as [Hxr Hnt].
    cbn [map Delete_loop Mem.release_entry v1.Releaseentry_Entryid].
    unfold deref. rewrite (bind_Ok _ _ _ _ _ (eq_refl : ret _ σ = (Ok _, σ))).
    set (E := Mem.entries (net σ)) in *.
    set (E' := filter (fun y => Mem.with_id b (Mem.e_id x) y = false) E).
    set (σ1 := set_net σ (Mem.set_entries (net σ) E')).
    assert (Hcall : remote (v1.DeleteEntryWithResponse b (Mem.e_id x)) σ =
                    (Ok {| v1.DeleteEntry_JSON500 := None;
                           v1.DeleteEntry_HTTPResponse := Mem.http 204 ∅ |}, σ1)).
    { unfold remote. cbn [v1.DeleteEntryWithResponse Mem.client].
      unfold Mem.DeleteEntry, Mem.next_disturbance. rewrite Hs.
      fold E.
      destruct (find (Mem.with_id b (Mem.e_id x)) E) as [z |] eqn:Hfind;
        [reflexivity |].
      exfalso. apply list_elem_of_In in Hx.
      pose proof (find_none _ _ Hfind x Hx) as Hno.
      assert (Mem.with_id b (Mem.e_id x) x = true)
        by (apply with_id_key; auto).
      congruence. }
    rewrite (bind_Ok _ _ _ _ _ Hcall).
    cbn [v1.DeleteEntry_JSON500 v1.DeleteEntry_HTTPResponse v1.StatusCode Mem.http].
    destruct (decide (204 <> 204)) as [Hbad | _]; [congruence |].
    assert (Hsub : E' `sublist_of` E) by apply sublist_filter.
    destruct (IH σ1) as (σ' & HD & Hσ' & Hs' & HE').
    + exact Hs.
    + cbn. eapply sublist_NoDup; [exact Hnd |]. apply fmap_sublist, Hsub.
    + exact Hnt.
    + intros y Hy. destruct (Hin y) as [HyE Hby]; [right; exact Hy |].
      split; [| exact Hby]. cbn. apply list_elem_of_filter. split; [| exact HyE].
      destruct (Mem.with_id b (Mem.e_id x) y) eqn:Hw; [| reflexivity].
      exfalso. apply Hxr. apply (with_id_key b x y Hbx) in Hw. rewrite <- Hw.
      apply (list_elem_of_fmap_2 Mem.key), Hy.
    + exists σ'. split; [exact HD |]. split; [rewrite Hσ'; reflexivity |].
      split; [exact Hs' |]. rewrite HE'. unfold σ1.
      cbn [net set_net Mem.entries Mem.set_entries]. unfold E'. rewrite list_filter_filter. apply filter_ext_in.
      intros y _. rewrite not_elem_of_cons.
      assert (Hk : Mem.with_id b (Mem.e_id x) y = false <-> Mem.key y <> Mem.key x).
      { rewrite <- (with_id_key b x y Hbx).
        destruct (Mem.with_id b (Mem.e_id x) y); split; congruence. }
      rewrite Hk. tauto.
Qed.

(** X18: against the reference remote, which nothing disturbs and in which
    no two entries share a bucket and an ID, [Delete] removes every entry
    under the path, and no other: it returns no error, the entries left are
    those not under the path, and nothing else changes. *)
Theorem Delete_removes_all_on_Mem fuel (c : Context) path (σ : mworld) :
  GetStringValue c "vars.name" <> "" ->
  Mem.script (net σ) = [] ->
  NoDup (map Mem.key (Mem.entries (net σ))) ->
  let b := GetStringValue c "vars.name" in
  let found := List.filter (Mem.under b (TrimPrefix_slash path))
                 (Mem.entries (net σ)) in
  (length found < fuel)%nat -> Z.of_nat fuel < 9223372036854775808 ->
  exists σ',
    Delete fuel c path σ = (Ok tt, σ') /\ σ' = set_net σ (net σ') /\
    Mem.entries (net σ') =
      filter (fun y => Mem.under b (TrimPrefix_slash path) y = false)
        (Mem.entries (net σ)).
Proof.
  intros Hb Hs Hnd b found Hf Hfuel.
  rewrite (Delete_entries fuel c path σ Hb). unfold swallow. fold b.
  rewrite (getEntries_lists_all_on_Mem_gen fuel c b path σ Hs Hf Hfuel).
  assert (Hfound : forall x, x ∈ found <->
                     x ∈ Mem.entries (net σ) /\
                     Mem.under b (TrimPrefix_slash path) x = true).
  { intros x. unfold found. rewrite !list_elem_of_In, filter_In. tauto. }
  destruct (Delete_loop_on_Mem c b found σ Hs Hnd) as (σ' & HD & Hσ' & _ & HE).
  - eapply sublist_NoDup; [exact Hnd |]. apply fmap_sublist.
    unfold found. clear. induction (Mem.entries (net σ)) as [| a l IH];
      [constructor |].
    cbn [List.filter]. destruct (Mem.under _ _ a);
      [apply sublist_skip | apply sublist_cons]; exact IH.
  - intros x Hx. apply Hfound in Hx as [Hx Hu]. split; [exact Hx |].
    unfold Mem.under in Hu. apply andb_true_iff in Hu as [Hu _].
    apply String.eqb_eq in Hu. exact Hu.
  - exists σ'. split; [exact HD |]. split; [exact Hσ' |].
    rewrite HE. apply filter_ext_in. intros y Hy. split.
    + intros Hno. destruct (Mem.under b (TrimPrefix_slash path) y) eqn:Hu;
        [| reflexivity].
      exfalso. apply Hno. apply (list_elem_of_fmap_2 Mem.key).
      apply Hfound. auto.
    + intros Hu Hk. apply list_elem_of_fmap in Hk as (x & Hkx & Hx).
      apply Hfound in Hx as [Hx Hux].
      assert (y = x) by (eapply NoDup_key_inj; eauto). subst. congruence.
Qed.

End OnMem.

(** ** Storing and reading back, against the reference remote *)

Section RoundTrip.
Abbreviation mworld := (World Mem.remote).

Lemma find_unique {A} (P : A -> bool) (l : list A) (e : A) :
  e ∈ l -> P e = true -> (forall z, z ∈ l -> P z = true -> z = e) ->
  find P l = Some e.
Proof.
  induction l as [| a l IH]; intros He HP Hu; [inversion He |].
  cbn [find]. destruct (P a) eqn:Ha.
  - f_equal. apply Hu; [left | exact Ha].
  - apply IH; [| exact HP | intros z Hz; apply Hu; right; exact Hz].
    apply elem_of_cons in He as [-> | He]; [congruence | exact He].
Qed.

Lemma entry_id_length n : String.length (Mem.entry_id n) = S n.
Proof. induction n as [| n IH]; cbn; congruence. Qed.

Lemma entry_id_inj n m : Mem.entry_id n = Mem.entry_id m -> n = m.
Proof.
  intros H. apply (f_equal String.length) in H.
  rewrite !entry_id_length in H. congruence.
Qed.

Lemma at_path_spec b p (x : Mem.entry) :
  Mem.at_path b p x = true <-> Mem.e_bucket x = b /\ Mem.e_path x = p.
Proof.
  unfold Mem.at_path. rewrite andb_true_iff, !String.eqb_eq. tauto.
Qed.

Lemma with_id_spec b id (x : Mem.entry) :
  Mem.with_id b id x = true <-> Mem.e_bucket x = b /\ Mem.e_id x = id.
Proof.
  unfold Mem.with_id. rewrite andb_true_iff, !String.eqb_eq. tauto.
Qed.

Lemma Mem_upsert b path size hash (r : Mem.remote) :
  Mem.wf r -> Mem.script r = [] ->
  exists e r1,
    Mem.CreateOrUpdateEntryByPath b
      {| v1.CreateOrUpdate_Path := path; v1.UpdateIfExists := Some true |}
      {| v1.ContentSize := size; v1.ContentHash := hash;
         v1.ContentType := Some contentTypeOctetStream |} r
    = (Ok {| v1.CreateOrUpdate_JSON200 := Some (Mem.api_entry e) |}, r1) /\
    Mem.script r1 = [] /\
    Mem.the_entry b (TrimPrefix_slash path) (Mem.e_id e) hash r1 e /\
    Mem.e_size e = size.
Proof.
  intros [Hnd Hids] Hs.
  unfold Mem.CreateOrUpdateEntryByPath, Mem.next_disturbance. rewrite Hs.
  cbn [v1.CreateOrUpdate_Path v1.UpdateIfExists v1.ContentSize v1.ContentHash].
  set (p := TrimPrefix_slash path).
  destruct (find (Mem.at_path b p) (Mem.entries r)) as [old |] eqn:Hfind.
  - apply find_some in Hfind as [Hold Hat].
    apply list_elem_of_In in Hold. apply at_path_spec in Hat as [Hob Hop].
    eexists _, _. split; [reflexivity |]. cbn.
    split; [exact Hs |]. split; [| reflexivity].
    set (e := {| Mem.e_bucket := b; Mem.e_id := Mem.e_id old; Mem.e_path := p;
                 Mem.e_hash := hash; Mem.e_size := size;
                 Mem.e_content := Mem.e_content old |}).
    unfold Mem.the_entry. cbn [Mem.entries Mem.set_entries].
    split.
    { apply list_elem_of_fmap. exists old. split; [| exact Hold].
      replace (Mem.at_path b p old) with true; [reflexivity |].
      symmetry. apply at_path_spec. auto. }
    split; [reflexivity |]. split; [reflexivity |]. split; [reflexivity |].
    split; [reflexivity |].
    intros z Hz Hcase. apply list_elem_of_fmap in Hz as (x & -> & Hx).
    destruct (Mem.at_path b p x) eqn:Hx_at; [reflexivity |].
    exfalso. destruct Hcase as [H | H]; [congruence |].
    apply with_id_spec in H as [Hxb Hxi].
    assert (x = old).
    { eapply NoDup_key_inj; eauto. unfold Mem.key. cbn in Hxi. congruence. }
    subst x. assert (Mem.at_path b p old = true) by (apply at_path_spec; auto).
    congruence.
  - eexists _, _. split; [reflexivity |]. cbn.
    split; [exact Hs |]. split; [| reflexivity].
    set (e := {| Mem.e_bucket := b; Mem.e_id := Mem.entry_id (Mem.next_id r);
                 Mem.e_path := p; Mem.e_hash := hash; Mem.e_size := size;
                 Mem.e_content := None |}).
    unfold Mem.the_entry. cbn [Mem.entries].
    split; [apply elem_of_app; right; left |].
    split; [reflexivity |]. split; [reflexivity |]. split; [reflexivity |].
    split; [reflexivity |].
    intros z Hz Hcase. apply elem_of_app in Hz as [Hz | Hz];
      [| apply list_elem_of_singleton in Hz; exact Hz].
    exfalso. destruct Hcase as [H | H].
    + apply list_elem_of_In in Hz.
      pose proof (find_none _ _ Hfind z Hz). congruence.
    + apply with_id_spec in H as [_ Hzi].
      destruct (Hids z Hz) as (n & Hn & Hzn). cbn in Hzi.
      rewrite Hzn in Hzi. apply entry_id_inj in Hzi. lia.
Qed.

Lemma Mem_upload b p id ct content (r1 : Mem.remote) e :
  Mem.script r1 = [] ->
  Mem.the_entry b p id (md5_hex content) r1 e ->
  exists e' r2,
    Mem.UploadContentWithBody b id ct content r1
    = (Ok {| v1.UploadContent_HTTPResponse :=
               Mem.http 200 {[ "Upload-Hash"%string := [md5_hex content] ]} |}, r2) /\
    Mem.script r2 = [] /\
    Mem.the_entry b p id (md5_hex content) r2 e' /\
    Mem.e_content e' = Some content /\ Mem.e_size e' = Mem.e_size e.
Proof.
  intros Hs (He & Hb & Hp & Hi & Hh & Hu).
  unfold Mem.UploadContentWithBody, Mem.next_disturbance. rewrite Hs.
  assert (Hwe : Mem.with_id b id e = true) by (apply with_id_spec; auto).
  rewrite (find_unique (Mem.with_id b id) (Mem.entries r1) e He Hwe)
    by (intros z Hz Hw; apply Hu; auto).
  rewrite Hh, String.eqb_refl.
  set (e' := {| Mem.e_bucket := b; Mem.e_id := id; Mem.e_path := Mem.e_path e;
                Mem.e_hash := md5_hex content; Mem.e_size := Mem.e_size e;
                Mem.e_content := Some content |}).
  exists e'. eexists. split; [reflexivity |]. cbn.
  split; [exact Hs |]. split; [| split; reflexivity].
  unfold Mem.the_entry. cbn [Mem.entries Mem.set_entries].
  split.
  { apply list_elem_of_fmap. exists e. rewrite Hwe. auto. }
  split; [reflexivity |]. split; [exact Hp |]. split; [reflexivity |].
  split; [reflexivity |].
  intros z Hz Hcase. apply list_elem_of_fmap in Hz as (x & -> & Hx).
  destruct (Mem.with_id b id x) eqn:Hxw; [reflexivity |].
  assert (x = e) by (apply Hu; [exact Hx | tauto]). congruence.
Qed.

Lemma Mem_lookup b path id h (r : Mem.remote) e :
  Mem.script r = [] -> Mem.the_entry b (TrimPrefix_slash path) id h r e ->
  Mem.GetEntryByPath b {| v1.GetEntryByPath_Path := path |} r
  = (Ok {| v1.GetEntryByPath_JSON200 := Some (Mem.api_entry e);
           v1.GetEntryByPath_JSON404 := None;
           v1.GetEntryByPath_JSON500 := None |}, r).
Proof.
  intros Hs (He & Hb & Hp & Hi & Hh & Hu).
  unfold Mem.GetEntryByPath, Mem.next_disturbance. rewrite Hs.
  cbn [v1.GetEntryByPath_Path].
  rewrite (find_unique _ (Mem.entries r) e He)
    by (first [apply at_path_spec; auto | intros z Hz Hw; apply Hu; auto]).
  destruct r; cbn in *; subst; reflexivity.
Qed.

Lemma Mem_fetch b p id h content (r : Mem.remote) e :
  Mem.script r = [] -> Mem.the_entry b p id h r e ->
  Mem.e_content e = Some content ->
  Mem.GetContent b id r
  = (Ok {| v1.GetContent_Body := content;
           v1.GetContent_HTTPResponse := Mem.http 200 ∅ |}, r).
Proof.
  intros Hs (He & Hb & Hp & Hi & Hh & Hu) Hc.
  unfold Mem.GetContent, Mem.next_disturbance. rewrite Hs.
  rewrite (find_unique _ (Mem.entries r) e He)
    by (first [apply with_id_spec; auto | intros z Hz Hw; apply Hu; auto]).
  destruct e; cbn in *; subst. destruct r; cbn in *; subst; reflexivity.
Qed.

(** X19: what is stored is what is read back.  Against the reference
    remote, kept as the service keeps it and disturbed by nothing,
    [PutContent] returns no error and changes nothing but the remote; then
    [GetContent] of the same path returns the bytes stored, and [Stat] their
    number, both leaving the world as it is. *)
Theorem PutContent_then_GetContent_on_Mem (c : Context) path content
    (σ : mworld) :
  GetStringValue c "vars.name" <> "" ->
  Mem.wf (net σ) -> Mem.script (net σ) = [] ->
  exists σ1,
    PutContent c path content σ = (Ok tt, σ1) /\
    σ1 = set_net σ (net σ1) /\
    GetContent c path σ1 = (Ok content, σ1) /\
    Stat c path σ1 = (Ok (path, Z.of_nat (length content), 0, false), σ1).
Proof.
  intros Hb Hwf Hs. set (b := GetStringValue c "vars.name") in *.
  destruct (Mem_upsert b path (Z.of_nat (length content)) (md5_hex content)
              (net σ) Hwf Hs) as (e & r1 & Hup & Hs1 & He & Hsize).
  destruct (Mem_upload b _ _ contentTypeOctetStream content r1 e Hs1 He)
    as (e' & r2 & Hul & Hs2 & He' & Hc' & Hsize').
  pose proof He' as (_ & _ & _ & Hid' & _).
  exists (set_net σ r2).
  assert (HP : PutContent c path content σ = (Ok tt, set_net σ r2)).
  { unfold PutContent. rewrite (bind_Ok _ _ _ _ _ (bucketIDFromContext_ok c σ Hb)).
    fold b.
    assert (H1 : createOrUpdateEntry c b path (md5_hex content)
                   (Z.of_nat (length content)) σ = (Ok (Mem.e_id e), set_net σ r1)).
    { unfold createOrUpdateEntry, bind, remote.
      cbn [v1.CreateOrUpdateEntryByPathWithResponse Mem.client].
      rewrite Hup. reflexivity. }
    rewrite (bind_Ok _ _ _ _ _ H1).
    unfold uploadContent, bind, ret, remote.
    cbn [v1.UploadContentWithBodyWithResponse Mem.client net set_net].
    rewrite Hul.
    cbn [v1.UploadContent_HTTPResponse v1.Header Mem.http].
    unfold v1.Header_Get. rewrite lookup_singleton_eq.
    destruct (decide (md5_hex content <> md5_hex content)); [congruence |].
    reflexivity. }
  assert (HL : getEntryByPath c b path (set_net σ r2) =
               (Ok (Mem.api_entry e'), set_net σ r2)).
  { unfold getEntryByPath, bind, remote.
    cbn [v1.GetEntryByPathWithResponse Mem.client net set_net].
    rewrite (Mem_lookup b path _ _ r2 e' Hs2 He'). reflexivity. }
  split; [exact HP |]. split; [reflexivity |]. split.
  - rewrite (GetContent_steps c path _ Hb). fold b.
    rewrite (bind_Ok _ _ _ _ _ HL).
    cbn [Mem.api_entry v1.Entry_Entryid deref].
    rewrite (bind_Ok _ _ _ _ _ (eq_refl : ret (Mem.e_id e') (set_net σ r2) = _)).
    unfold getEntryContent, bind, remote, ret.
    cbn [v1.GetContentWithResponse Mem.client net set_net].
    rewrite Hid'.
    rewrite (Mem_fetch b _ _ _ content r2 e' Hs2 He' Hc'). reflexivity.
  - unfold Stat.
    rewrite (bind_Ok _ _ _ _ _ (bucketIDFromContext_ok c _ Hb)). fold b.
    rewrite (bind_Ok _ _ _ _ _ HL).
    cbn [Mem.api_entry v1.Entry_ContentSize v1.Entry_LastModified deref].
    unfold bind, ret. rewrite Hsize', Hsize. reflexivity.
Qed.

End RoundTrip.

(** ** The constructor *)

Section ConstructorFacts.
Variable value : Type.
Variable Sprint : value -> string.
Variable Client : Type.
Variable NewClientWithResponses : string -> string -> Client + error.

Lemma baseURLs_known e url :
  baseURLs !! e = Some url <->
  e = "prod" /\ url = "https://content-api.cloud.unity3d.com" \/
  e = "stage" /\ url = "https://content-api-stg.cloud.unity3d.com".
Proof.
  unfold baseURLs. rewrite lookup_insert_Some, lookup_singleton_Some.
  split.
  - intros [[<- <-] | [_ [<- <-]]]; auto.
  - intros [[-> ->] | [-> ->]]; [left; auto | right].
    split; [discriminate | auto].
Qed.

(** X20: [New] gives a driver exactly when the parameters hold an API key
    whose text is not empty and an environment whose text is [prod] or
    [stage], and the client can be made for the URL of that environment
    with that key; the driver then holds that client, that URL and the text
    of the key.  The key is looked at first: without one the error is that
    of the key, whatever the environment; and an environment with a text
    that is neither of the two names is an error of its own. *)
Theorem New_checks_the_parameters (parameters : gmap string value) :
  (forall d,
     New value Sprint Client NewClientWithResponses parameters = inl d <->
     exists k e,
       parameters !! "apikey" = Some k /\ Sprint k <> "" /\
       parameters !! "environment" = Some e /\
       (Sprint e = "prod" /\
          baseURL d = "https://content-api.cloud.unity3d.com" \/
        Sprint e = "stage" /\
          baseURL d = "https://content-api-stg.cloud.unity3d.com") /\
       apiKey d = Sprint k /\
       NewClientWithResponses (baseURL d) (Sprint k) = inl (driver_client d)) /\
  ((forall k, parameters !! "apikey" = Some k -> Sprint k = "") ->
   New value Sprint Client NewClientWithResponses parameters =
     inr (ErrorString "no api key parameter provided")) /\
  (forall k e,
     parameters !! "apikey" = Some k -> Sprint k <> "" ->
     parameters !! "environment" = Some e ->
     Sprint e <> "" -> Sprint e <> "prod" -> Sprint e <> "stage" ->
     New value Sprint Client NewClientWithResponses parameters =
       inr (ErrorString "invalid environment parameter provided")).
Proof.
  split; [| split].
  - intros d. unfold New. split.
    + destruct (parameters !! "apikey") as [k |]; [| discriminate].
      destruct (decide (Sprint k = "")) as [| Hk]; [discriminate |].
      destruct (parameters !! "environment") as [e |]; [| discriminate].
      destruct (decide (Sprint e = "")); [discriminate |].
      destruct (baseURLs !! Sprint e) as [url |] eqn:Hurl; [| discriminate].
      destruct (NewClientWithResponses url (Sprint k)) as [cl | err] eqn:Hcl;
        [| discriminate].
      intros [= <-]. exists k, e. cbn.
      apply baseURLs_known in Hurl.
      repeat split; auto; tauto.
    + intros (k & e & Hk0 & Hk & He0 & Henv & Hkey & Hcl). rewrite Hk0, He0.
      destruct (decide (Sprint k = "")); [contradiction |].
      assert (Hurl : baseURLs !! Sprint e = Some (baseURL d))
        by (apply baseURLs_known; tauto).
      destruct (decide (Sprint e = "")) as [He |].
      { rewrite He in Hurl. apply baseURLs_known in Hurl.
        destruct Hurl as [[? _] | [? _]]; discriminate. }
      rewrite Hurl, Hcl. destruct d; cbn in *. subst. reflexivity.
  - intros Hno. unfold New.
    destruct (parameters !! "apikey") as [k |]; [| reflexivity].
    destruct (decide (Sprint k = "")) as [| Hk]; [reflexivity |].
    exfalso. apply Hk, Hno. reflexivity.
  - intros k e Hk0 Hk He0 He Hp Hst. unfold New. rewrite Hk0, He0.
    destruct (decide (Sprint k = "")); [contradiction |].
    destruct (decide (Sprint e = "")); [contradiction |].
    destruct (baseURLs !! Sprint e) as [url |] eqn:Hurl; [| reflexivity].
    apply baseURLs_known in Hurl. tauto.
Qed.

End ConstructorFacts.

(** ** The further properties on runs of the reference remote *)

Lemma Write_accounts_witness :
  terminal (fst (Demo.written [] [])) = false /\
  let '((n, err), (w', σ')) :=
    Write [x64; x65] (fst (Demo.written [] []), snd (Demo.written [] [])) in
  0 <= n <= Z.of_nat (length [x64; x65]) /\
  (err = None -> n = Z.of_nat (length [x64; x65])) /\
  Size w' = wrap64 (Size (fst (Demo.written [] [])) + n) /\
  flags (w', σ') = flags (fst (Demo.written [] []), snd (Demo.written [] [])) /\
  stuck (w', σ') = err /\
  surroundings σ' = surroundings (snd (Demo.written [] [])).
Proof.
  split; [vm_compute; reflexivity |].
  apply (Write_accounts [x64; x65] (fst (Demo.written [] []))
           (snd (Demo.written [] []))).
  vm_compute; reflexivity.
Defined.

Lemma Write_buffers_witness :
  buf (bw (fst (Demo.written [] []))) = [x61; x62; x63] /\
  fst (Write [x64; x65] (Demo.written [] [])) = (2, None) /\
  snd (snd (Write [x64; x65] (Demo.written [] []))) = snd (Demo.written [] []) /\
  buf (bw (fst (snd (Write [x64; x65] (Demo.written [] []))))) =
    [x61; x62; x63; x64; x65].
Proof.
  split; [vm_compute; reflexivity |].
  destruct (Write_buffers [x64; x65] (fst (Demo.written [] []))
              (snd (Demo.written [] []))) as (H1 & H2 & H3).
  - vm_compute; reflexivity.
  - vm_compute; reflexivity.
  - apply Nat.leb_le. vm_compute; reflexivity.
  - rewrite <- surjective_pairing in H1, H2, H3.
    split; [exact H1 |]. split; [exact H2 |].
    refine (eq_trans H3 _). vm_compute; reflexivity.
Defined.

Lemma Write_appends_witness :
  appending (Demo.written [] []) [] /\
  fst (Write Demo.big (Demo.written [] [])) = (5000, None) /\
  exists data',
    appending (snd (Write Demo.big (Demo.written [] []))) data' /\
    data' ++ buf (bw (fst (snd (Write Demo.big (Demo.written [] []))))) =
      [] ++ [x61; x62; x63] ++ Demo.big.
Proof.
  assert (Ha : appending (Demo.written [] []) []).
  { split; [vm_compute; reflexivity |]. split; [vm_compute; reflexivity |].
    exists {| fname := "/tmp/ccd/x/y"; fino := 0%nat; fpos := 0%nat;
              fclosed := false |}.
    split; [vm_compute; reflexivity |]. split; [reflexivity |].
    split; vm_compute; reflexivity. }
  split; [exact Ha |].
  split; [vm_compute; reflexivity |].
  destruct (Write_appends Demo.big 5000 (Demo.written [] [])
              (snd (Write Demo.big (Demo.written [] []))) [] Ha)
    as (_ & data' & H1 & H2).
  - vm_compute; reflexivity.
  - exists data'. split; [exact H1 |].
    refine (eq_trans H2 _). vm_compute; reflexivity.
Defined.

Lemma Write_error_sticks_witness :
  let s0 := Demo.opened false
              (Demo.world_with [None; None; None; Some Demo.EIO] []) in
  let e := OtherError "input/output error" in
  let s' := run [OpWrite [x61]; OpCommit; OpClose] Demo.failed_write in
  terminal (fst s0) = false /\
  Write Demo.big s0 = ((0, Some e), Demo.failed_write) /\
  terminal (fst s') = false /\
  stuck s' = Some e /\
  (forall q, fst (Write q s') = (0, Some e) /\ snd (snd (Write q s')) = snd s') /\
  Close s' = (Err e, s') /\
  Commit s' = (Err (WrapError "flush file" e), s').
Proof.
  cbv zeta.
  set (s0 := Demo.opened false
               (Demo.world_with [None; None; None; Some Demo.EIO] [])).
  assert (H0 : terminal (fst s0) = false) by (vm_compute; reflexivity).
  assert (HW : Write Demo.big s0 =
               ((0, Some (OtherError "input/output error")), Demo.failed_write))
    by (vm_compute; reflexivity).
  assert (Ht : terminal
                 (fst (run [OpWrite [x61]; OpCommit; OpClose] Demo.failed_write))
               = false) by (vm_compute; reflexivity).
  destruct (Write_error_sticks Demo.big 0 (OtherError "input/output error")
              s0 Demo.failed_write [OpWrite [x61]; OpCommit; OpClose] H0 HW)
    as (H1 & H2).
  destruct (H2 Ht) as (H3 & H4 & H5).
  split; [exact H0 |]. split; [exact HW |]. split; [exact Ht |].
  split; [exact H1 |]. split; [exact H3 |]. split; [exact H4 | exact H5].
Defined.

Lemma Close_is_a_local_barrier_witness :
  let s := Demo.written [] [] in
  closed (fst s) = false /\
  appending s [] /\
  fst (Close s) = Ok tt /\
  surroundings (snd (snd (Close s))) = surroundings (snd s) /\
  closed (fst (snd (Close s))) = true /\
  exists f, fds (snd (snd (Close s))) !! file (fst s) = Some f /\
            fclosed f = true /\
            file_data (snd (snd (Close s))) (fino f) = [x61; x62; x63].
Proof.
  cbv zeta. set (s := Demo.written [] []).
  assert (Hc : closed (fst s) = false) by (vm_compute; reflexivity).
  assert (Ha : appending s []).
  { split; [vm_compute; reflexivity |]. split; [vm_compute; reflexivity |].
    exists {| fname := "/tmp/ccd/x/y"; fino := 0%nat; fpos := 0%nat;
              fclosed := false |}.
    split; [vm_compute; reflexivity |]. split; [reflexivity |].
    split; vm_compute; reflexivity. }
  assert (Hr : fst (Close s) = Ok tt) by (vm_compute; reflexivity).
  destruct (Close_is_a_local_barrier (fst s) (snd s) Hc)
    as (H1 & H2 & _ & _ & H5).
  rewrite <- surjective_pairing in H1, H2, H5.
  split; [exact Hc |]. split; [exact Ha |]. split; [exact Hr |].
  split; [exact H1 |]. split; [apply H2; exact Hr |].
  destruct (H5 [] Ha Hr) as (f & F1 & F2 & F3).
  exists f. split; [exact F1 |]. split; [exact F2 |].
  refine (eq_trans F3 _). vm_compute; reflexivity.
Defined.

Lemma Demo_written_ready script : ready (Demo.written [] script) [] 0.
Proof.
  split; [vm_compute; reflexivity |]. split; [vm_compute; reflexivity |].
  split; [vm_compute; reflexivity |].
  split.
  { exists {| fname := "/tmp/ccd/x/y"; fino := 0%nat; fpos := 0%nat;
              fclosed := false |}.
    split; [vm_compute; reflexivity |]. split; [reflexivity |].
    split; vm_compute; reflexivity. }
  split; [vm_compute; reflexivity |]. split; [vm_compute; reflexivity |].
  vm_compute. discriminate.
Defined.


Lemma Writer_to_Commit_is_PutContent_witness :
  let σ := Demo.world_with [] [] in
  let s := Demo.opened false σ in
  let done := Commit (run [OpWrite [x61]; OpWrite [x62; x63]] s) in
  plan σ = [] /\
  Writer Mem.tmp Mem.join Mem.dir Demo.ctx "x/y" false σ = (Ok (fst s), snd s) /\
  net (snd (snd done)) =
    net (snd (PutContent Demo.ctx "x/y" [x61; x62; x63] σ)) /\
  (committed (fst (snd done)) = true <->
   fst (PutContent Demo.ctx "x/y" [x61; x62; x63] σ) = Ok tt) /\
  Size (fst (run [OpWrite [x61]; OpWrite [x62; x63]] s)) = 3.
Proof.
  cbv zeta. set (σ := Demo.world_with [] []). set (s := Demo.opened false σ).
  assert (Hp : plan σ = []) by reflexivity.
  assert (HW : Writer Mem.tmp Mem.join Mem.dir Demo.ctx "x/y" false σ =
               (Ok (fst s), snd s)) by (vm_compute; reflexivity).
  destruct (Writer_to_Commit_is_PutContent Mem.tmp Mem.join Mem.dir Demo.ctx
              "x/y" false [[x61]; [x62; x63]] (fst s) σ (snd s) Hp HW)
    as (H1 & H2 & _ & H4).
  split; [exact Hp |]. split; [exact HW |].
  rewrite <- surjective_pairing in H1, H2, H4.
  split; [exact H1 |]. split; [exact H2 |].
  apply H4. vm_compute. reflexivity.
Defined.


Lemma missing_bucket_is_refused_witness :
  GetStringValue ∅ "vars.name" = "" /\
  Delete 5 ∅ "/x" Demo.three_objects = (Err no_bucket, Demo.three_objects) /\
  Move 5 ∅ "/x/a" "/y" Demo.three_objects = (Err no_bucket, Demo.three_objects).
Proof.
  assert (H0 : GetStringValue ∅ "vars.name" = "") by (vm_compute; reflexivity).
  destruct (missing_bucket_is_refused Mem.tmp Mem.join Mem.dir 5 ∅ "/x/a" "/y"
              [] false Demo.three_objects H0) as (_ & _ & _ & _ & _ & _ & H7).
  destruct (missing_bucket_is_refused Mem.tmp Mem.join Mem.dir 5 ∅ "/x" "/y"
              [] false Demo.three_objects H0) as (_ & _ & _ & _ & _ & H6 & _).
  split; [exact H0 |]. split; [exact H6 | exact H7].
Defined.

Lemma Demo_bucket : GetStringValue Demo.ctx "vars.name" <> "".
Proof. vm_compute. discriminate. Defined.

Lemma Stat_reads_the_entry_witness :
  GetStringValue Demo.ctx "vars.name" <> "" /\
  fst (Stat Demo.ctx "/x/a" Demo.three_objects) = Ok ("/x/a"%string, 1, 0, false) /\
  exists n, snd (Stat Demo.ctx "/x/a" Demo.three_objects) =
            set_net Demo.three_objects n.
Proof.
  destruct (Stat_reads_the_entry Demo.ctx "/x/a" Demo.three_objects Demo_bucket)
    as [_ H].
  split; [exact Demo_bucket |]. split; [vm_compute; reflexivity | exact H].
Defined.

Lemma List_joins_the_paths_witness :
  let σ := Demo.three_objects in
  let es := [Demo.listed "e" "x/a"; Demo.listed "ee" "x/b";
             Demo.listed "eee" "x/c"] in
  GetStringValue Demo.ctx "vars.name" <> "" /\
  fst (getEntries 5 Demo.ctx "b" "/x" σ) = Ok es /\
  fst (List Mem.join 5 Demo.ctx "/x" σ) = Ok ["//x/a"; "//x/b"; "//x/c"]%string.
Proof.
  cbv zeta.
  destruct (List_joins_the_paths Mem.join 5 Demo.ctx "/x" Demo.three_objects
              Demo_bucket) as (_ & H & _).
  assert (E : getEntries 5 Demo.ctx (GetStringValue Demo.ctx "vars.name") "/x"
                Demo.three_objects =
              (Ok [Demo.listed "e" "x/a"; Demo.listed "ee" "x/b";
                   Demo.listed "eee" "x/c"],
               snd (getEntries 5 Demo.ctx "b" "/x" Demo.three_objects)))
    by (vm_compute; reflexivity).
  specialize (H _ _ E).
  split; [exact Demo_bucket |]. split; [vm_compute; reflexivity |].
  rewrite H; [reflexivity |].
  repeat constructor; eexists; reflexivity.
Defined.

Lemma GetContent_lookup_failures_witness :
  GetStringValue Demo.ctx "vars.name" <> "" /\
  fst (GetContent Demo.ctx "/nope" Demo.three_objects) =
    Err (PathNotFoundError "/nope").
Proof.
  pose proof (GetContent_lookup_failures Demo.ctx "/nope" Demo.three_objects
                Demo_bucket) as H.
  cbv zeta in H. split; [exact Demo_bucket |].
  destruct (v1.GetEntryByPathWithResponse (GetStringValue Demo.ctx "vars.name")
              {| v1.GetEntryByPath_Path := "/nope" |} (net Demo.three_objects))
    as [[res | e | msg |] r] eqn:E;
    [| clear H; vm_compute in E; discriminate E ..].
  destruct H as [H _].
  assert (H404 : v1.GetEntryByPath_JSON404 res <> None).
  { clear H. vm_compute in E. injection E as <- _. discriminate. }
  rewrite (H H404). reflexivity.
Defined.


Lemma Writer_failure_leaks_no_handle_witness :
  let σ := Demo.world_with [None; None; Some Demo.EIO] [] in
  let r := Writer Mem.tmp Mem.join Mem.dir Demo.ctx "x/y" false σ in
  r = (Err (OtherError "input/output error"), snd r) /\
  (forall fd, handle_status fd (snd r) = Some false ->
              handle_status fd σ = Some false) /\
  handle_status 0%nat (snd r) = Some true /\
  net (snd r) = net σ /\
  file_at "/tmp/ccd/x/y" σ = None /\
  file_at "/tmp/ccd/x/y" (snd r) = Some [].
Proof.
  cbv zeta. set (σ := Demo.world_with [None; None; Some Demo.EIO] []).
  assert (E : Writer Mem.tmp Mem.join Mem.dir Demo.ctx "x/y" false σ =
              (Err (OtherError "input/output error"),
               snd (Writer Mem.tmp Mem.join Mem.dir Demo.ctx "x/y" false σ)))
    by (vm_compute; reflexivity).
  destruct (Writer_failure_leaks_no_handle Mem.tmp Mem.join Mem.dir Demo.ctx
              "x/y" false σ _ _ E) as (H1 & H2 & _ & _).
  split; [exact E |]. split; [exact H1 |].
  split; [vm_compute; reflexivity |]. split; [exact H2 |].
  split; vm_compute; reflexivity.
Defined.

Lemma getEntries_lists_all_on_Mem_witness :
  Mem.script (net Demo.three_objects) = [] /\
  getEntries 5 Demo.ctx "b" "/x" Demo.three_objects =
    (Ok [Demo.listed "e" "x/a"; Demo.listed "ee" "x/b"; Demo.listed "eee" "x/c"],
     Demo.three_objects).
Proof.
  assert (Hs : Mem.script (net Demo.three_objects) = [])
    by (vm_compute; reflexivity).
  split; [exact Hs |].
  refine (eq_trans (getEntries_lists_all_on_Mem 5 Demo.ctx "b" "/x"
                      Demo.three_objects Hs _ _) _).
  - apply Nat.ltb_lt. vm_compute. reflexivity.
  - vm_compute. reflexivity.
  - vm_compute. reflexivity.
Defined.

Lemma Demo_three_objects_keys :
  NoDup (map Mem.key (Mem.entries (net Demo.three_objects))).
Proof.
  apply (bool_decide_unpack _). vm_compute. reflexivity.
Defined.

Lemma Delete_removes_all_on_Mem_witness :
  GetStringValue Demo.ctx "vars.name" <> "" /\
  Mem.script (net Demo.three_objects) = [] /\
  NoDup (map Mem.key (Mem.entries (net Demo.three_objects))) /\
  fst (Delete 5 Demo.ctx "/x/b" Demo.three_objects) = Ok tt /\
  Demo.paths (snd (Delete 5 Demo.ctx "/x/b" Demo.three_objects)) =
    ["x/a"; "x/c"]%string.
Proof.
  assert (Hs : Mem.script (net Demo.three_objects) = [])
    by (vm_compute; reflexivity).
  assert (Hf : (length (List.filter
                          (Mem.under (GetStringValue Demo.ctx "vars.name")
                             (TrimPrefix_slash "/x/b"))
                          (Mem.entries (net Demo.three_objects))) < 5)%nat)
    by (apply Nat.ltb_lt; vm_compute; reflexivity).
  assert (Hfuel : Z.of_nat 5 < 9223372036854775808) by (vm_compute; reflexivity).
  destruct (Delete_removes_all_on_Mem 5 Demo.ctx "/x/b" Demo.three_objects
              Demo_bucket Hs Demo_three_objects_keys Hf Hfuel)
    as (σ' & HD & _ & HE).
  split; [exact Demo_bucket |]. split; [exact Hs |].
  split; [exact Demo_three_objects_keys |].
  rewrite HD. split; [reflexivity |].
  cbn [snd]. unfold Demo.paths. rewrite HE. vm_compute. reflexivity.
Defined.

Lemma PutContent_then_GetContent_on_Mem_witness :
  let σ := Demo.world_with [] [] in
  let σ1 := snd (PutContent Demo.ctx "/x/a" [x61; x62] σ) in
  GetStringValue Demo.ctx "vars.name" <> "" /\
  Mem.wf (net σ) /\ Mem.script (net σ) = [] /\
  fst (PutContent Demo.ctx "/x/a" [x61; x62] σ) = Ok tt /\
  GetContent Demo.ctx "/x/a" σ1 = (Ok [x61; x62], σ1) /\
  Stat Demo.ctx "/x/a" σ1 = (Ok ("/x/a"%string, 2, 0, false), σ1).
Proof.
  cbv zeta. set (σ := Demo.world_with [] []).
  assert (Hwf : Mem.wf (net σ)).
  { split; [constructor |]. intros x Hx. inversion Hx. }
  assert (Hs : Mem.script (net σ) = []) by reflexivity.
  destruct (PutContent_then_GetContent_on_Mem Demo.ctx "/x/a" [x61; x62] σ
              Demo_bucket Hwf Hs) as (σ1 & HP & _ & HG & HS).
  split; [exact Demo_bucket |]. split; [exact Hwf |]. split; [exact Hs |].
  rewrite HP. cbn [fst snd]. split; [reflexivity |].
  split; [exact HG | exact HS].
Defined.
